(** * A shallow embedding of the jison_refactored parser generator

  The development follows the JavaScript sources file by file:
  - [Js]: the few notions of the JavaScript runtime the sources rely on
    (exceptions, truthiness, property lookup on plain objects);
  - [ParserActions], [SpecialSymbols], [ErrorCodes]: src/utils/constants.js;
  - [Runtime]: src/core/Parser.js, the table-driven parse loop;
  - [Factory]: src/generators/ParserGeneratorFactory.js and src/index.js;
  - [Gen], [BaseGenerator], [SLRGenerator], [LR1Generator], [LALRGenerator]:
    the generator classes of src/generators;
  - [LLGenerator], [ParserState]: the LL(1) generator and the state object
    of the parser;
  - [Spec]: the wording of the specification for the properties studied;
  - [Notions], [MoreNotions], [GenNotions]: predicates used to state what
    the code does;
  - [Examples], [MoreExamples], [GenExamples]: concrete grammars, states,
    tables and parsers;
  - [RuntimeFacts], [FactoryFacts], [TableFacts], [GrammarFacts],
    [ClosureFacts], [MergeFacts]: what the code does, claim by claim;
  - [RuntimeMore], [GeneratorMore], [FactoryMore]: further properties of
    the parse loop, of the generators and of the factory;
  - [TableClaims], [MergeClaims]: the action table (shifts, reduces and
    conflicts) and the merging of states, over the lemmas of the modules
    before.

  JavaScript arrays are lists in array order (index 0 first, the top of a
  stack last).  A [Map] or a [Set] is a list in insertion order.  A thrown
  exception is the [Throw] outcome; a [while] loop is run with fuel and
  [OutOfFuel] stands for an iteration bound that was too small.  An object
  that JavaScript compares by reference (a production, an item) is told
  apart by its position or by its occurrence in a list. *)

From Stdlib Require Import List String Ascii ZArith Bool Arith Lia DecimalString Permutation.
Import ListNotations.
Set Warnings "-register-all".
Local Open Scope string_scope.
Local Open Scope list_scope.
Local Open Scope Z_scope.

(* ===================================================================== *)
(** ** JavaScript runtime notions *)
(* ===================================================================== *)

Module Js.

(** The exceptions the sources can raise.  [Error] is a plain [new Error],
    [ParserError] the class of src/errors/ParserError.js; the other three
    are raised by the runtime itself.  [UserError] is whatever a callback
    supplied by the caller throws. *)
Inductive JsError : Type :=
| TypeError (msg : string)
| ReferenceError (msg : string)
| RangeError (msg : string)
| Error (msg : string)
| ParserError (msg : string)
| UserError (msg : string).

Inductive outcome (A : Type) : Type :=
| Ok (a : A)
| Throw (e : JsError)
| OutOfFuel.
Arguments Ok {A} a.
Arguments Throw {A} e.
Arguments OutOfFuel {A}.

Definition bind {A B : Type} (c : outcome A) (k : A -> outcome B) : outcome B :=
  match c with
  | Ok a => k a
  | Throw e => Throw e
  | OutOfFuel => OutOfFuel
  end.

(** Semantic values and anything else the parser only passes around. *)
Inductive jsval : Type :=
| JUndef
| JNull
| JBool (b : bool)
| JNum (n : Z)
| JStr (s : string).

(** What a parse table, a default-action map and the state stack hold:
    numbers, arrays of such, or nothing. *)
Inductive tval : Type :=
| TUndef
| TNum (n : Z)
| TArr (l : list tval).

(** [!!v] *)
Definition truthy (v : tval) : bool :=
  match v with
  | TUndef => false
  | TNum n => negb (n =? 0)
  | TArr _ => true
  end.

(** [v] used as a property key that names an array index or a numeric
    key: a number is its own key, a one-element array prints as its
    element, everything else ("undefined", "", "1,2") names no index. *)
Fixpoint as_index (v : tval) : option Z :=
  match v with
  | TNum n => Some n
  | TArr (x :: nil) => as_index x
  | _ => None
  end.

(** [a[i]] on an array, [undefined] (here [None]) out of range. *)
Definition at_ {A : Type} (a : list A) (i : Z) : option A :=
  if i <? 0 then None else nth_error a (Z.to_nat i).

(** [o[k]] on an object whose own keys are numbers. *)
Fixpoint get_num {A : Type} (o : list (Z * A)) (k : Z) : option A :=
  match o with
  | [] => None
  | (k', v) :: o' => if k' =? k then Some v else get_num o' k
  end.

(** [a[i]] for a table value, [undefined] as [TUndef]. *)
Definition elem (v : tval) (i : nat) : tval :=
  match v with
  | TArr l => nth i l TUndef
  | _ => TUndef
  end.

(** The names every object literal [{...}] inherits from
    [Object.prototype]: [o[k]] is defined for them although [k] is not an
    own key of [o]. *)
Definition object_prototype_names : list string :=
  [ "constructor"; "hasOwnProperty"; "isPrototypeOf"; "propertyIsEnumerable";
    "toLocaleString"; "toString"; "valueOf"; "__proto__";
    "__defineGetter__"; "__defineSetter__"; "__lookupGetter__";
    "__lookupSetter__" ].

Definition inherited (k : string) : bool :=
  existsb (String.eqb k) object_prototype_names.

(** [array.join(sep)] on strings. *)
Fixpoint join (sep : string) (l : list string) : string :=
  match l with
  | [] => ""
  | [x] => x
  | x :: l' => (x ++ sep ++ join sep l')%string
  end.

(** Decimal printing of a number, as in [String(n)] and string
    concatenation. *)
Definition string_of_Z (n : Z) : string := NilZero.string_of_int (Z.to_int n).
Definition string_of_nat (n : nat) : string := NilZero.string_of_uint (Nat.to_uint n).

(** A table value joined to a string, as in ['state: ' + state]: an array
    prints its elements separated by commas, [undefined] inside an array
    as nothing. *)
Fixpoint tval_string (v : tval) : string :=
  match v with
  | TUndef => "undefined"
  | TNum n => string_of_Z n
  | TArr l => join "," (map (fun x => match x with
                                      | TUndef => ""
                                      | _ => tval_string x
                                      end) l)
  end.

End Js.

Export Js.

Notation "x <- c ;; k" := (bind c (fun x => k))
(at level 61, c at next level, right associativity).
Notation "c ;;; k" := (bind c (fun _ => k))
(at level 61, right associativity).

(* ===================================================================== *)
(** ** src/utils/constants.js *)
(* ===================================================================== *)

Module ParserActions.
Definition SHIFT : Z := 1.
Definition REDUCE : Z := 2.
Definition ACCEPT : Z := 3.
End ParserActions.

Module SpecialSymbols.
Definition EOF : string := "$end".
Definition ACCEPT : string := "$accept".
Definition ERROR : string := "error".
(** [SpecialSymbols] has no [EPSILON] member: [SpecialSymbols.EPSILON] is
    [undefined], which no symbol name (a string) is equal to. *)
Definition EPSILON : option string := None.
End SpecialSymbols.

Module ErrorCodes.
Definition TERROR : Z := 2.
Definition EOF : Z := 1.
End ErrorCodes.

(* ===================================================================== *)
(** ** src/core/Parser.js *)
(* ===================================================================== *)

Module Runtime.

(** A location object; [{}] has every field undefined. *)
Record Loc : Type := mkLoc {
  first_line : jsval;
  last_line : jsval;
  first_column : jsval;
  last_column : jsval;
  range : option (list jsval)
}.

Definition empty_loc : Loc := mkLoc JUndef JUndef JUndef JUndef None.

(** The second argument of [parseError]. *)
Record ErrHash : Type := mkHash {
  h_text : jsval;
  h_token : jsval;
  h_line : Z;
  h_loc : Loc;
  h_expected : list string;
  h_recoverable : bool
}.

(** The lexer is a collaborator: a state [L] with the members the parser
    reads.  [lex] returns the token number, [0] standing for any falsy
    result. *)
Record Lexer (L : Type) : Type := mkLexer {
  setInput : string -> L;
  lex : L -> outcome (Z * L);
  lx_yytext : L -> jsval;
  lx_yyleng : L -> Z;
  lx_yylineno : L -> Z;
  lx_yylloc : L -> Loc;
  lx_match : L -> jsval;
  showPosition : option (L -> string);
  ranges : bool
}.
Arguments setInput {L}.
Arguments lex {L}.
Arguments lx_yytext {L}.
Arguments lx_yyleng {L}.
Arguments lx_yylineno {L}.
Arguments lx_yylloc {L}.
Arguments lx_match {L}.
Arguments showPosition {L}.
Arguments ranges {L}.

(** What [performAction] receives: [this] is [yyval] (fields [$] and [_$]),
    then [yytext, yyleng, yylineno], the rule number [action[1]] and the two
    stacks as they are at the call. *)
Record ActionArgs : Type := mkArgs {
  a_val : jsval;
  a_loc : Loc;
  a_yytext : jsval;
  a_yyleng : Z;
  a_yylineno : Z;
  a_rule : tval;
  a_vstack : list jsval;
  a_lstack : list Loc
}.

(** What it leaves: its return value and [yyval] after the call. *)
Record ActionOut : Type := mkOut {
  o_ret : jsval;
  o_val : jsval;
  o_loc : Loc
}.

(** A parser after [init(dict)], with the members the caller may attach:
    [lexer] and [yy.parseError].  [table], [defaultActions] and
    [productions_] are the tables handed to [init], keyed by state and
    symbol numbers; a member that was never set is [None].  The semantic
    action reads the stacks and leaves them as they are. *)
Record Parser (L : Type) : Type := mkParser {
  table : list (list (Z * tval));
  defaultActions : list (Z * tval);
  performAction : option (ActionArgs -> outcome ActionOut);
  productions_ : list (Z * nat);
  terminals_ : option (list (Z * string));
  lexer : option (Lexer L);
  yy_parseError : option (string -> ErrHash -> outcome unit)
}.
Arguments table {L}.
Arguments defaultActions {L}.
Arguments performAction {L}.
Arguments productions_ {L}.
Arguments terminals_ {L}.
Arguments lexer {L}.
Arguments yy_parseError {L}.

(** The variables of [parse] that live across iterations of the loop. *)
Record PState (L : Type) : Type := mkPState {
  stack : list tval;
  vstack : list jsval;
  lstack : list Loc;
  symbol : option Z;
  preErrorSymbol : option Z;
  recovering : Z;
  yytext : jsval;
  yyleng : Z;
  yylineno : Z;
  yyloc : Loc;
  lexst : L
}.
Arguments stack {L}.
Arguments vstack {L}.
Arguments lstack {L}.
Arguments symbol {L}.
Arguments preErrorSymbol {L}.
Arguments recovering {L}.
Arguments yytext {L}.
Arguments yyleng {L}.
Arguments yylineno {L}.
Arguments yyloc {L}.
Arguments lexst {L}.

(** One turn of [while (true)]: go round again or [return]. *)
Inductive step (L : Type) : Type :=
| Next (st : PState L)
| Return (v : jsval).
Arguments Next {L} st.
Arguments Return {L} v.

(** The argument of [popStack]: [error_rule_depth] is a number, [false] or
    [undefined]. *)
Inductive depth : Type :=
| DUndef
| DFalse
| DNum (n : nat).

Section Parse.

Variable L : Type.
Variable this : Parser L.
Variable lexer_ : Lexer L.

Definition TERROR : Z := 2.
Definition EOF : Z := 1.

Definition nl : string := String (ascii_of_nat 10) EmptyString.

(** [stack[stack.length - k]] *)
Definition from_top {A : Type} (a : list A) (k : Z) : option A :=
  at_ a (Z.of_nat (List.length a) - k).

(** [popStack(n)]: the three [length] assignments.  With [n] undefined the
    first right-hand side is [NaN], which is not an array length. *)
Definition popStack (n : depth) (st : PState L) : outcome (PState L) :=
  match n with
  | DUndef => Throw (RangeError "Invalid array length")
  | DFalse => Ok st
  | DNum k =>
      if (List.length (stack st) <? 2 * k)%nat || (List.length (vstack st) <? k)%nat
         || (List.length (lstack st) <? k)%nat
      then Throw (RangeError "Invalid array length")
      else Ok (mkPState L
                 (firstn (List.length (stack st) - 2 * k) (stack st))
                 (firstn (List.length (vstack st) - k) (vstack st))
                 (firstn (List.length (lstack st) - k) (lstack st))
                 (symbol st) (preErrorSymbol st) (recovering st)
                 (yytext st) (yyleng st) (yylineno st) (yyloc st) (lexst st))
  end.

(** [table[state]] *)
Definition row_of (state : tval) : option (list (Z * tval)) :=
  match as_index state with
  | Some i => at_ (table this) i
  | None => None
  end.

(** [table[state] && table[state][symbol]] *)
Definition lookup_action (state : tval) (sym : Z) : tval :=
  match row_of state with
  | Some row => match get_num row sym with Some a => a | None => TUndef end
  | None => TUndef
  end.

(** [this.defaultActions[state]] *)
Definition default_of (state : tval) : tval :=
  match as_index state with
  | Some i => match get_num (defaultActions this) i with Some a => a | None => TUndef end
  | None => TUndef
  end.

(** [typeof action === 'undefined' || !action.length || !action[0]] *)
Definition no_action (action : tval) : bool :=
  match action with
  | TUndef => true
  | TNum _ => true
  | TArr [] => true
  | TArr (a0 :: _) => negb (truthy a0)
  end.

(** [action[0] instanceof Array && action.length > 1] *)
Definition multiple_actions (action : tval) : bool :=
  match action with
  | TArr (TArr _ :: _ :: _) => true
  | _ => false
  end.

(** [this.terminals_[k]] *)
Definition terminal_name (k : option Z) : outcome (option string) :=
  match terminals_ this with
  | None => Throw (TypeError "Cannot read properties of undefined")
  | Some names =>
      Ok (match k with
          | Some k => match get_num names k with
                      | Some "" => None
                      | r => r
                      end
          | None => None
          end)
  end.

(** [this.terminals_[symbol] || symbol] *)
Definition token_of (sym : option Z) : outcome jsval :=
  name <- terminal_name sym ;;
  Ok (match name, sym with
      | Some n, _ => JStr n
      | None, Some k => JNum k
      | None, None => JUndef
      end).

Definition show (v : jsval) : string :=
  match v with
  | JUndef => "undefined"
  | JNull => "null"
  | JBool true => "true"
  | JBool false => "false"
  | JNum n => string_of_Z n
  | JStr s => s
  end.

Fixpoint insert_key (k : Z) (ks : list Z) : list Z :=
  match ks with
  | [] => [k]
  | k' :: ks' => if k <=? k' then k :: ks else k' :: insert_key k ks'
  end.

(** A key that names an array index: these are the keys an object
    enumerates first, in ascending order. *)
Definition is_array_index (k : Z) : bool := (0 <=? k) && (k <=? 4294967294).

(** The keys of a row as [for (p in row)] visits them: the keys that name
    an array index in ascending order, then the other keys in the order in
    which they were added. *)
Definition for_in (row : list (Z * tval)) : list Z :=
  fold_right insert_key [] (filter is_array_index (map fst row))
  ++ filter (fun k => negb (is_array_index k)) (map fst row).

(** The loop that fills [expected]. *)
Fixpoint expected_of (keys : list Z) : outcome (list string) :=
  match keys with
  | [] => Ok []
  | p :: keys' =>
      name <- terminal_name (Some p) ;;
      rest <- expected_of keys' ;;
      Ok (match name with
          | Some n => if TERROR <? p then ("'" ++ n ++ "'")%string :: rest else rest
          | None => rest
          end)
  end.

(** [Parser.prototype.parseError]: the class has no [trace] member. *)
Definition default_parseError (str : string) (hash : ErrHash) : outcome unit :=
  if h_recoverable hash
  then Throw (TypeError "this.trace is not a function")
  else Throw (ParserError str).

(** [this.parseError] as [parse] installs it. *)
Definition parseError (str : string) (hash : ErrHash) : outcome unit :=
  match yy_parseError this with
  | Some f => f str hash
  | None => default_parseError str hash
  end.

(** [let error_rule_depth;] is never assigned. *)
Definition error_rule_depth : depth := DUndef.

(** [error_rule_depth !== false] *)
Definition not_false (d : depth) : bool :=
  match d with
  | DFalse => false
  | _ => true
  end.

(** The body of [if (typeof action === 'undefined' || ...)]: it leaves the
    new loop variables and the action found under [TERROR]. *)
Definition error_branch (state : tval) (st : PState L) : outcome (PState L * tval) :=
  errStr <-
    (if recovering st =? 0
     then
       expected <- expected_of (match row_of state with
                                | Some row => for_in row
                                | None => []
                                end) ;;
       errStr <-
         (match showPosition lexer_ with
          | Some showPos =>
              tok <- token_of (symbol st) ;;
              Ok ("Parse error on line " ++ string_of_Z (yylineno st + 1) ++ ":" ++ nl
                  ++ showPos (lexst st) ++ nl ++ "Expecting " ++ join ", " expected
                  ++ ", got '" ++ show tok ++ "'")%string
          | None =>
              tail <- (if match symbol st with Some k => k =? EOF | None => false end
                       then Ok "end of input"
                       else tok <- token_of (symbol st) ;; Ok ("'" ++ show tok ++ "'")%string) ;;
              Ok ("Parse error on line " ++ string_of_Z (yylineno st + 1)
                  ++ ": Unexpected " ++ tail)%string
          end) ;;
       tok <- token_of (symbol st) ;;
       parseError errStr
         (mkHash (lx_match lexer_ (lexst st)) tok (lx_yylineno lexer_ (lexst st))
                 (yyloc st) expected
                 (not_false error_rule_depth)) ;;;
       Ok errStr
     else Ok "") ;;
  match error_rule_depth with
  | DFalse =>
      Throw (ParserError
               (if String.eqb errStr ""
                then "Parsing halted. No suitable error recovery rule available."
                else errStr))
  | d =>
      st1 <- popStack d st ;;
      let preErr := match symbol st1 with
                    | Some k => if k =? TERROR then None else Some k
                    | None => None
                    end in
      let state1 := match from_top (stack st1) 1 with Some s => s | None => TUndef end in
      Ok (mkPState L (stack st1) (vstack st1) (lstack st1) (Some TERROR) preErr 3
                   (yytext st1) (yyleng st1) (yylineno st1) (yyloc st1) (lexst st1),
          lookup_action state1 TERROR)
  end.

(** [case ParserActions.SHIFT].  [yyloc] is declared [const]: the
    assignment [yyloc = lexer.yylloc] raises. *)
Definition do_shift (action : tval) (st : PState L) : outcome (step L) :=
  let stack1 := stack st ++ [match symbol st with Some k => TNum k | None => TUndef end] in
  let vstack1 := vstack st ++ [lx_yytext lexer_ (lexst st)] in
  let lstack1 := lstack st ++ [lx_yylloc lexer_ (lexst st)] in
  let stack2 := stack1 ++ [elem action 1] in
  match preErrorSymbol st with
  | Some k =>
      if k =? 0
      then Throw (TypeError "Assignment to constant variable.")
      else Ok (Next (mkPState L stack2 vstack1 lstack1 (Some k) None (recovering st)
                              (yytext st) (yyleng st) (yylineno st) (yyloc st) (lexst st)))
  | None => Throw (TypeError "Assignment to constant variable.")
  end.

(** [lstack[i].range[j]] *)
Definition range_at (l : Loc) (j : nat) : outcome jsval :=
  match range l with
  | Some r => Ok (nth j r JUndef)
  | None => Throw (TypeError "Cannot read properties of undefined")
  end.

(** The object literal assigned to [yyval._$], with [range] when the lexer
    asks for ranges. *)
Definition reduce_loc (len : nat) (st : PState L) : outcome Loc :=
  match from_top (lstack st) (Z.of_nat (if (len =? 0)%nat then 1%nat else len)),
        from_top (lstack st) 1 with
  | Some lo, Some hi =>
      if ranges lexer_
      then r0 <- range_at lo 0 ;;
           r1 <- range_at hi 1 ;;
           Ok (mkLoc (first_line lo) (last_line hi) (first_column lo) (last_column hi)
                     (Some [r0; r1]))
      else Ok (mkLoc (first_line lo) (last_line hi) (first_column lo) (last_column hi) None)
  | _, _ => Throw (TypeError "Cannot read properties of undefined")
  end.

(** The arguments of the call [this.performAction.apply(yyval, [...])]. *)
Definition action_args (action : tval) (len : nat) (loc : Loc) (st : PState L) : ActionArgs :=
  mkArgs (match from_top (vstack st) (Z.of_nat len) with Some v => v | None => JUndef end)
         loc (yytext st) (yyleng st) (yylineno st) (elem action 1) (vstack st) (lstack st).

(** [case ParserActions.REDUCE].  [stack], [vstack] and [lstack] are declared
    [const]: the assignment [stack = stack.slice(...)] raises. *)
Definition do_reduce (action : tval) (st : PState L) : outcome (step L) :=
  match match as_index (elem action 1) with
        | Some p => at_ (productions_ this) p
        | None => None
        end with
  | None => Throw (TypeError "Cannot read properties of undefined")
  | Some (lhs, len) =>
      loc <- reduce_loc len st ;;
      match performAction this with
      | None => Throw (TypeError "Cannot read properties of undefined (reading 'apply')")
      | Some f =>
          out <- f (action_args action len loc st) ;;
          match o_ret out with
          | JUndef =>
              if (len =? 0)%nat
              then
                let stack1 := stack st ++ [TNum lhs] in
                let vstack1 := vstack st ++ [o_val out] in
                let lstack1 := lstack st ++ [o_loc out] in
                match row_of (match from_top stack1 2 with Some s => s | None => TUndef end) with
                | None => Throw (TypeError "Cannot read properties of undefined")
                | Some row =>
                    let newState := match get_num row lhs with Some s => s | None => TUndef end in
                    Ok (Next (mkPState L (stack1 ++ [newState]) vstack1 lstack1
                                       (symbol st) (preErrorSymbol st) (recovering st)
                                       (yytext st) (yyleng st) (yylineno st) (yyloc st)
                                       (lexst st)))
                end
              else Throw (TypeError "Assignment to constant variable.")
          | r => Ok (Return r)
          end
      end
  end.

(** The two tests after the error branch and the [switch].  [state] is the
    top of the stack on both ways to this place; a missing [symbol] is
    [undefined] there. *)
Definition dispatch (action : tval) (st : PState L) : outcome (step L) :=
  match action with
  | TUndef => Throw (TypeError "Cannot read properties of undefined")
  | _ =>
      if multiple_actions action
      then Throw (ParserError
                    ("Parse Error: multiple actions possible at state: "
                     ++ tval_string (match from_top (stack st) 1 with
                                     | Some s => s
                                     | None => TUndef
                                     end)
                     ++ ", token: "
                     ++ match symbol st with
                        | Some k => string_of_Z k
                        | None => "undefined"
                        end)%string)
      else
        match elem action 0 with
        | TNum 1 => do_shift action st
        | TNum 2 => do_reduce action st
        | TNum 3 => Ok (Return (JBool true))
        | _ => Ok (Next st)
        end
  end.

(** The head of the loop: the current state, and the action taken from
    [defaultActions] or, after a token was read if none is pending, from the
    table. *)
Definition fetch (st : PState L) : outcome (tval * tval * PState L) :=
  let state := match from_top (stack st) 1 with Some s => s | None => TUndef end in
  if truthy (default_of state)
  then Ok (state, default_of state, st)
  else
    match symbol st with
    | Some k => Ok (state, lookup_action state k, st)
    | None =>
        r <- lex lexer_ (lexst st) ;;
        let k := if fst r =? 0 then EOF else fst r in
        Ok (state, lookup_action state k,
            mkPState L (stack st) (vstack st) (lstack st) (Some k) (preErrorSymbol st)
                     (recovering st) (yytext st) (yyleng st) (yylineno st) (yyloc st) (snd r))
    end.

(** One iteration of [while (true)]. *)
Definition iteration (st : PState L) : outcome (step L) :=
  f <- fetch st ;;
  let '(state, action, st1) := f in
  if no_action action
  then
    e <- error_branch state st1 ;;
    dispatch (snd e) (fst e)
  else dispatch action st1.

Fixpoint loop (fuel : nat) (st : PState L) : outcome jsval :=
  match fuel with
  | O => OutOfFuel
  | S fuel' =>
      match iteration st with
      | Ok (Next st') => loop fuel' st'
      | Ok (Return v) => Ok v
      | Throw e => Throw e
      | OutOfFuel => OutOfFuel
      end
  end.

(** The variables of [parse] on entry to the loop. *)
Definition initial (input : string) : PState L :=
  let l0 := setInput lexer_ input in
  mkPState L [TNum 0] [JNull] [lx_yylloc lexer_ l0] None None 0 (JStr "") 0 0
           (lx_yylloc lexer_ l0) l0.

End Parse.

(** [Parser.prototype.parse(input)].  [Object.create(this.lexer)] needs
    [this.lexer] to be an object. *)
Definition parse {L : Type} (this : Parser L) (fuel : nat) (input : string) : outcome jsval :=
  match lexer this with
  | None => Throw (TypeError "Object prototype may only be an Object or null: undefined")
  | Some lx => loop L this lx fuel (initial L lx input)
  end.

End Runtime.

(* ===================================================================== *)
(** ** src/generators/ParserGeneratorFactory.js and src/index.js *)
(* ===================================================================== *)

Module Factory.

Inductive GeneratorClass : Type :=
| LR0Generator
| SLRGenerator
| LALRGenerator
| LR1Generator
| LLGenerator.

(** What the expression [generatorMap[type]] evaluates to.  [generatorMap]
    is an object literal: besides its five own entries it answers for the
    members it inherits from [Object.prototype]. *)
Inductive Member : Type :=
| Class (c : GeneratorClass)
| ObjectFunction          (* [constructor]: the function [Object] *)
| ObjectPrototype         (* [__proto__]: the prototype object *)
| BuiltinMethod           (* [toString], [valueOf], ...: not constructors *)
| Undefined.

(** [type] is a string or [undefined] ([None], the key "undefined"). *)
Definition generatorMap (type : option string) : Member :=
  match type with
  | None => Undefined
  | Some t =>
      if String.eqb t "lr0" then Class LR0Generator
      else if String.eqb t "slr" then Class SLRGenerator
      else if String.eqb t "lalr" then Class LALRGenerator
      else if String.eqb t "lr1" then Class LR1Generator
      else if String.eqb t "ll" then Class LLGenerator
      else if String.eqb t "constructor" then ObjectFunction
      else if String.eqb t "__proto__" then ObjectPrototype
      else if inherited t then BuiltinMethod
      else Undefined
  end.

(** The value of [new GeneratorClass(grammar, options)]: an instance of one
    of the generator classes, or what [new Object(grammar, options)] gives.
    That is the grammar itself when the grammar is an object; for a grammar
    that is a string it is a wrapper of it and for [undefined] or [null] an
    empty object.  [GrammarItself] is exact for grammar objects and stands
    for the other two as well: in no case is the value a generator. *)
Inductive Created (G O : Type) : Type :=
| Instance (c : GeneratorClass) (grammar : G) (options : O)
| GrammarItself (grammar : G).   (* [new Object(grammar, options)] *)
Arguments Instance {G O} c grammar options.
Arguments GrammarItself {G O} grammar.

(** [ParserGeneratorFactory.createGenerator(type, grammar, options)];
    [options] is an object, [{}] when the caller gives none. *)
Definition createGenerator {G O : Type} (type : option string) (grammar : G) (options : O)
  : outcome (Created G O) :=
  match generatorMap type with
  | Class c => Ok (Instance c grammar options)
  | Undefined => Ok (Instance LALRGenerator grammar options)
  | ObjectFunction => Ok (GrammarItself grammar)
  | ObjectPrototype => Throw (TypeError "GeneratorClass is not a constructor")
  | BuiltinMethod => Throw (TypeError "GeneratorClass is not a constructor")
  end.

(** The generator [Jison(grammar, options)] creates: [options.type || 'lalr']. *)
Definition Jison_generator {G O : Type} (grammar : G) (type : option string) (options : O)
  : outcome (Created G O) :=
  createGenerator
    (Some (match type with
           | Some t => if String.eqb t "" then "lalr" else t
           | None => "lalr"
           end))
    grammar options.

(** The algorithm names the factory knows. *)
Definition known_types : list string := ["lr0"; "slr"; "lalr"; "lr1"; "ll"].

End Factory.

(* ===================================================================== *)
(** ** src/generators: data shared by the generator classes *)
(* ===================================================================== *)

Module Gen.

(** A production of the grammar object: [{ symbol, handle }]. *)
Record GProduction : Type := mkGProduction {
  g_symbol : string;
  g_handle : list string
}.

Inductive Assoc : Type :=
| LeftAssoc
| RightAssoc
| NonAssoc.

(** [grammar.bnf]; a member that is missing is [None]. *)
Record Bnf : Type := mkBnf {
  start : option string;
  g_productions : option (list GProduction);
  tokens : option (list string)
}.

(** The grammar object.  [ebnf] tells whether it has a (truthy) [ebnf]
    member.  [operators] is the optional precedence declaration of the
    grammar: one entry per level, lowest first; no generator reads it. *)
Record Grammar : Type := mkGrammar {
  bnf : option Bnf;
  ebnf : bool;
  operators : list (Assoc * list string)
}.

(** [processGrammar] also accepts the grammar as text. *)
Inductive GrammarInput : Type :=
| GrammarText (s : string)
| GrammarObject (g : Grammar).

(** An element of [this.productions].  [processGrammar] stores the pair
    [[symbol, handle]]; [processProductions] stores what it is given, an
    object [{ symbol, handle }]. *)
Inductive Production : Type :=
| PPair (lhs : string) (rhs : list string)
| PObj (symbol : string) (handle : list string).

(** [this.nonterminals]: a [Set] (BaseGenerator, SLRGenerator) or a plain
    object (LALRGenerator, LR1Generator, LLGenerator set [{}]). *)
Inductive NtStore : Type :=
| NtSet (members : list string)
| NtObj (keys : list string).

(** A [Map] from symbols to [Set]s of symbols, in insertion order. *)
Definition SetMap : Type := list (string * list string).

(** The members of a generator that preprocessing fills. *)
Record Base : Type := mkBase {
  productions : list Production;
  terminals : list string;
  nonterminals : NtStore;
  firstSets : SetMap;
  followSets : SetMap
}.

(** An LR item.  [production] names the production object the item refers
    to by its position in [this.productions]: JavaScript compares the
    objects by reference ([indexOf]), so two productions with equal text
    are still two productions. *)
Record Item : Type := mkItem {
  production : nat;
  dotPosition : nat;
  lookahead : list string
}.

(** A state: an array of items that may carry a [transitions] map, from
    symbols to [T]. *)
Record State (T : Type) : Type := mkState {
  items : list Item;
  transitions : option (list (string * T))
}.
Arguments mkState {T} items transitions.
Arguments items {T} s.
Arguments transitions {T} s.

(** What a transition maps a symbol to after [mergeStates]: still a state
    number in a state that was left alone, a [Set] of state numbers in a
    merged state. *)
Inductive Target : Type :=
| TOne (n : Z)
| TSet (l : list Z).

(** A table entry [[kind, arg]]. *)
Record Action : Type := mkAction {
  kind : Z;
  arg : Z
}.

(** A row of the table: the own entries of the object [stateTable].
    ([__proto__] cannot be an own key: a grammar that has it as a symbol is
    not covered.) *)
Definition Row : Type := list (string * Action).

(** What [stateTable[key]] evaluates to. *)
Inductive Cell : Type :=
| Own (a : Action)
| Inherited                (* a member of [Object.prototype] *)
| Absent.

(** An entry of [this.resolutions]: [[stateIndex, lookahead, action]]. *)
Definition Resolution : Type := (nat * string * Action)%type.

(** *** Sets and maps in insertion order *)

Definition set_has (s : list string) (x : string) : bool := existsb (String.eqb x) s.

Definition set_add (s : list string) (x : string) : list string :=
  if set_has s x then s else s ++ [x].

Fixpoint map_get {A : Type} (m : list (string * A)) (k : string) : option A :=
  match m with
  | [] => None
  | (k', v) :: m' => if String.eqb k' k then Some v else map_get m' k
  end.

Fixpoint map_set {A : Type} (m : list (string * A)) (k : string) (v : A) : list (string * A) :=
  match m with
  | [] => [(k, v)]
  | (k', v') :: m' => if String.eqb k' k then (k, v) :: m' else (k', v') :: map_set m' k v
  end.

(** [stateTable[key]]: an own entry, else what the prototype answers. *)
Definition row_get (row : Row) (key : string) : Cell :=
  match map_get row key with
  | Some a => Own a
  | None => if inherited key then Inherited else Absent
  end.

Fixpoint insert_str (x : string) (l : list string) : list string :=
  match l with
  | [] => [x]
  | y :: l' => if String.leb x y then x :: l else y :: insert_str x l'
  end.

(** [array.sort()] on strings: ascending by character code. *)
Definition sort (l : list string) : list string := fold_right insert_str [] l.

(** [array.map((x, i) => ...)] needs the positions. *)
Definition indexed {A : Type} (l : list A) : list (nat * A) :=
  combine (seq 0 (List.length l)) l.

(** [this.productions.indexOf(production)] for the production at position
    [p], [-1] if the array has no such position. *)
Definition indexOf (ps : list Production) (p : nat) : Z :=
  if (p <? List.length ps)%nat then Z.of_nat p else -1.

(** [resolveConflict(production, action)], [action] being what the row
    answered; the three classes have the same text: "prefer shift over
    reduce". *)
Definition resolveConflict (ps : list Production) (p : nat) (action : Cell) : Action :=
  match action with
  | Own a => if kind a =? ParserActions.SHIFT then a
             else mkAction ParserActions.REDUCE (indexOf ps p)
  | _ => mkAction ParserActions.REDUCE (indexOf ps p)
  end.

(** What [parseTable] accumulates while it fills a row: the row,
    [this.conflicts] and [this.resolutions]. *)
Record Building : Type := mkBuilding {
  row : Row;
  conflicts : nat;
  resolutions : list Resolution
}.

(** The body of [item.lookahead.forEach(lookahead => ...)], the same in the
    three classes. *)
Definition reduce_on (ps : list Production) (stateIndex : nat) (item : Item)
  (b : Building) (la : string) : Building :=
  match row_get (row b) la with
  | Absent =>
      mkBuilding (map_set (row b) la
                          (mkAction ParserActions.REDUCE (indexOf ps (production item))))
                 (conflicts b) (resolutions b)
  | existing =>
      mkBuilding (row b) (S (conflicts b))
                 (resolutions b
                  ++ [(stateIndex, la, resolveConflict ps (production item) existing)])
  end.

(** What [parseTable] returns and leaves in [this]. *)
Record Tables : Type := mkTables {
  table : list Row;
  t_conflicts : nat;
  t_resolutions : list Resolution
}.

(** [findDefaults(table)], the same in SLRGenerator and LALRGenerator:
    [Object.values(state)] are the own entries of the row. *)
Definition findDefaults (tbl : list Row) : list (nat * Action) :=
  flat_map (fun ir => match map snd (snd ir) with
                      | [a] => if kind a =? ParserActions.REDUCE then [(fst ir, a)] else []
                      | _ => []
                      end)
           (indexed tbl).

(** A [forEach] whose body may throw. *)
Fixpoint foldM {A S : Type} (f : S -> A -> outcome S) (l : list A) (s : S) : outcome S :=
  match l with
  | [] => Ok s
  | x :: l' => s' <- f s x ;; foldM f l' s'
  end.

End Gen.

(* ===================================================================== *)
(** ** BaseGenerator (second part of src/generators/SLRGenerator.js) *)
(* ===================================================================== *)

Module BaseGenerator.
Import Gen.

(** The constructor, up to the value the subclass gives [nonterminals]. *)
Definition new (nts : NtStore) : Base := mkBase [] [] nts [] [].

(** [validateGrammar(grammar)] *)
Definition validateGrammar (grammar : Grammar) : outcome unit :=
  match bnf grammar, ebnf grammar with
  | None, false => Throw (Error "Grammar must have either bnf or ebnf property")
  | _, _ => Ok tt
  end.

(** [parseGrammar(grammarString)] *)
Definition parseGrammar (grammarString : string) : outcome Grammar :=
  Throw (Error "parseGrammar() must be implemented by subclass").

(** [processTokens(tokens)] for an array of tokens. *)
Definition processTokens (this : Base) (toks : list string) : Base :=
  mkBase (productions this) toks (nonterminals this)
         (fold_left (fun fs t => map_set fs t [t]) toks (firstSets this))
         (followSets this).

(** [addProduction(production)] *)
Definition addProduction (this : Base) (p : Production) : Base :=
  mkBase (productions this ++ [p]) (terminals this) (nonterminals this)
         (firstSets this) (followSets this).

(** [processProductions(productions)]: the objects are stored as they are. *)
Definition processProductions (this : Base) (ps : list GProduction) : Base :=
  fold_left (fun g p => addProduction g (PObj (g_symbol p) (g_handle p))) ps this.

(** The body of [grammar.bnf.productions.forEach]: [this.nonterminals.add]
    is a method of [Set] only. *)
Definition collect (this : Base) (p : GProduction) : outcome Base :=
  match nonterminals this with
  | NtSet s =>
      Ok (addProduction
            (mkBase (productions this) (terminals this) (NtSet (set_add s (g_symbol p)))
                    (firstSets this) (followSets this))
            (PPair (g_symbol p) (g_handle p)))
  | NtObj _ => Throw (TypeError "this.nonterminals.add is not a function")
  end.

(** [this.nonterminals.forEach]: a method of [Set] only. *)
Definition nt_members (nts : NtStore) : outcome (list string) :=
  match nts with
  | NtSet s => Ok s
  | NtObj _ => Throw (TypeError "this.nonterminals.forEach is not a function")
  end.

(** [this.nonterminals.has(symbol)]: a method of [Set] only. *)
Definition nt_has (nts : NtStore) (sym : string) : outcome bool :=
  match nts with
  | NtSet s => Ok (set_has s sym)
  | NtObj _ => Throw (TypeError "this.nonterminals.has is not a function")
  end.

(** [processGrammar(grammar)] *)
Definition processGrammar (this : Base) (grammar : GrammarInput) : outcome Base :=
  g <- match grammar with
       | GrammarText s => parseGrammar s
       | GrammarObject g => Ok g
       end ;;
  validateGrammar g ;;;
  let this1 := match bnf g with
               | Some b => match tokens b with
                           | Some toks => processTokens this toks
                           | None => this
                           end
               | None => this
               end in
  this2 <- match bnf g with
           | Some b => match g_productions b with
                       | Some ps => foldM collect ps this1
                       | None => Ok this1
                       end
           | None => Ok this1
           end ;;
  nts <- nt_members (nonterminals this2) ;;
  Ok (mkBase (productions this2) (terminals this2) (nonterminals this2)
             (fold_left (fun fs n => map_set fs n []) nts (firstSets this2))
             (fold_left (fun fs n => map_set fs n []) nts (followSets this2))).

(** The loop shared by [computeRemainingFirst] and [computeProductionFirst]:
    the symbols that may begin [symbols], with [""] when all of them may
    vanish.  A symbol without FIRST set is skipped. *)
Fixpoint first_scan (fs : SetMap) (symbols : list string) (result : list string)
  : list string :=
  match symbols with
  | [] => set_add result ""
  | sym :: rest =>
      match map_get fs sym with
      | None => first_scan fs rest result
      | Some symbolFirst =>
          let result1 := fold_left
                           (fun r s => if String.eqb s "" then r else set_add r s)
                           symbolFirst result in
          if set_has symbolFirst "" then first_scan fs rest result1 else result1
      end
  end.

(** [computeRemainingFirst(symbols)] *)
Definition computeRemainingFirst (this : Base) (symbols : list string) : list string :=
  match symbols with
  | [] => [""]
  | _ => first_scan (firstSets this) symbols []
  end.

End BaseGenerator.

(* ===================================================================== *)
(** ** SLRGenerator (first part of src/generators/SLRGenerator.js) *)
(* ===================================================================== *)

Module SLRGenerator.
Import Gen.
Import BaseGenerator.

(** [new SLRGenerator(grammar)]: [this.nonterminals = new Set()]. *)
Definition new : Base := BaseGenerator.new (NtSet []).

(** [const [lhs, rhs] = production]: an array pair can be destructured, an
    object [{ symbol, handle }] or [undefined] cannot. *)
Definition destructure (p : option Production) : outcome (string * list string) :=
  match p with
  | Some (PPair lhs rhs) => Ok (lhs, rhs)
  | Some (PObj _ _) => Throw (TypeError "production is not iterable")
  | None => Throw (TypeError "undefined is not iterable")
  end.

(** [computeProductionFirst(handle)] *)
Definition computeProductionFirst (fs : SetMap) (handle : list string) : list string :=
  first_scan fs handle [].

(** The [for (const symbol of newSymbols)] loops of both fixpoints: add
    [news] to the set stored under [key]; tell whether it grew.  The set is
    needed only if there is something to look up. *)
Definition add_all (m : SetMap) (key : string) (news : list string)
  : outcome (SetMap * bool) :=
  match news with
  | [] => Ok (m, false)
  | _ =>
      match map_get m key with
      | None => Throw (TypeError "Cannot read properties of undefined (reading 'has')")
      | Some old =>
          let grown := fold_left set_add news old in
          Ok (map_set m key grown, negb (forallb (set_has old) news))
      end
  end.

(** One [this.productions.forEach] pass of [computeFirstSets]. *)
Definition first_pass (ps : list Production) (fs : SetMap) : outcome (SetMap * bool) :=
  foldM (fun acc p =>
           d <- destructure (Some p) ;;
           r <- add_all (fst acc) (fst d) (computeProductionFirst (fst acc) (snd d)) ;;
           Ok (fst r, snd acc || snd r))
        ps (fs, false).

Fixpoint first_loop (fuel : nat) (ps : list Production) (fs : SetMap) : outcome SetMap :=
  match fuel with
  | O => OutOfFuel
  | S fuel' =>
      r <- first_pass ps fs ;;
      if snd r then first_loop fuel' ps (fst r) else Ok (fst r)
  end.

(** [computeFirstSets()] *)
Definition computeFirstSets (fuel : nat) (this : Base) : outcome Base :=
  let fs1 := fold_left (fun fs t => map_set fs t [t]) (terminals this) (firstSets this) in
  nts <- nt_members (nonterminals this) ;;
  let fs2 := fold_left (fun fs n => map_set fs n []) nts fs1 in
  fs3 <- first_loop fuel (productions this) fs2 ;;
  Ok (mkBase (productions this) (terminals this) (nonterminals this) fs3 (followSets this)).

(** The body of [for (let i = 0; i < rhs.length; i++)] in
    [computeFollowSets], for the symbol at [i] and the symbols after it. *)
Definition follow_at (this : Base) (lhs sym : string) (trailer : list string)
  (acc : SetMap * bool) : outcome (SetMap * bool) :=
  isnt <- nt_has (nonterminals this) sym ;;
  if negb isnt then Ok acc
  else
    let trailerFirst := computeProductionFirst (firstSets this) trailer in
    r1 <- add_all (fst acc) sym (filter (fun s => negb (String.eqb s "")) trailerFirst) ;;
    if set_has trailerFirst "" || (List.length trailer =? 0)%nat
    then
      match map_get (fst r1) lhs with
      | None => Throw (TypeError "lhsFollow is not iterable")
      | Some lhsFollow =>
          r2 <- add_all (fst r1) sym lhsFollow ;;
          Ok (fst r2, snd acc || snd r1 || snd r2)
      end
    else Ok (fst r1, snd acc || snd r1).

Fixpoint follow_rhs (this : Base) (lhs : string) (rhs : list string)
  (acc : SetMap * bool) : outcome (SetMap * bool) :=
  match rhs with
  | [] => Ok acc
  | sym :: trailer =>
      acc1 <- follow_at this lhs sym trailer acc ;;
      follow_rhs this lhs trailer acc1
  end.

(** One [this.productions.forEach] pass of [computeFollowSets]. *)
Definition follow_pass (this : Base) (fo : SetMap) : outcome (SetMap * bool) :=
  foldM (fun acc p =>
           d <- destructure (Some p) ;;
           follow_rhs this (fst d) (snd d) acc)
        (productions this) (fo, false).

Fixpoint follow_loop (fuel : nat) (this : Base) (fo : SetMap) : outcome SetMap :=
  match fuel with
  | O => OutOfFuel
  | S fuel' =>
      r <- follow_pass this fo ;;
      if snd r then follow_loop fuel' this (fst r) else Ok (fst r)
  end.

(** [computeFollowSets()]; [grammar] is [this.grammar]. *)
Definition computeFollowSets (fuel : nat) (grammar : GrammarInput) (this : Base)
  : outcome Base :=
  nts <- nt_members (nonterminals this) ;;
  let fo1 := fold_left (fun fo n => map_set fo n []) nts (followSets this) in
  startSymbol <- match grammar with
                 | GrammarObject g =>
                     match bnf g with
                     | Some b => Ok (start b)
                     | None => Throw (TypeError "Cannot read properties of undefined (reading 'start')")
                     end
                 | GrammarText _ =>
                     Throw (TypeError "Cannot read properties of undefined (reading 'start')")
                 end ;;
  fo2 <- match startSymbol with
         | Some s =>
             match map_get fo1 s with
             | Some f => Ok (map_set fo1 s (set_add f "$"))
             | None => Throw (TypeError "Cannot read properties of undefined (reading 'add')")
             end
         | None => Throw (TypeError "Cannot read properties of undefined (reading 'add')")
         end ;;
  fo3 <- follow_loop fuel this fo2 ;;
  Ok (mkBase (productions this) (terminals this) (nonterminals this) (firstSets this) fo3).

(** [preprocess()] *)
Definition preprocess (fuel : nat) (grammar : GrammarInput) (this : Base) : outcome Base :=
  this1 <- processGrammar this grammar ;;
  this2 <- computeFirstSets fuel this1 ;;
  computeFollowSets fuel grammar this2.

(** [itemKey(item)] *)
Definition itemKey (this : Base) (item : Item) : outcome string :=
  d <- destructure (nth_error (productions this) (production item)) ;;
  Ok (fst d ++ "->" ++ join " " (snd d) ++ "|" ++ string_of_nat (dotPosition item)
      ++ "|" ++ join "," (sort (lookahead item)))%string.

(** [state.map(item => this.itemKey(item))] *)
Fixpoint itemKeys (this : Base) (state : list Item) : outcome (list string) :=
  match state with
  | [] => Ok []
  | i :: rest =>
      k <- itemKey this i ;;
      ks <- itemKeys this rest ;;
      Ok (k :: ks)
  end.

(** [stateKey(state)] *)
Definition stateKey (this : Base) (state : list Item) : outcome string :=
  ks <- itemKeys this state ;;
  Ok (join "|" (sort ks)).

(** The first argument of [hasItem]: an array or a [Set]. *)
Inductive Collection : Type :=
| JsArray (l : list Item)
| JsSet (l : list Item).

(** [array.some(i => this.itemKey(i) === this.itemKey(item))] *)
Fixpoint some_key (this : Base) (l : list Item) (item : Item) : outcome bool :=
  match l with
  | [] => Ok false
  | i :: rest =>
      k1 <- itemKey this i ;;
      k2 <- itemKey this item ;;
      if String.eqb k1 k2 then Ok true else some_key this rest item
  end.

(** [hasItem(state, item)]: [some] is a method of arrays; a [Set] has none. *)
Definition hasItem (this : Base) (state : Collection) (item : Item) : outcome bool :=
  match state with
  | JsArray l => some_key this l item
  | JsSet _ => Throw (TypeError "state.some is not a function")
  end.

(** [s !== SpecialSymbols.EPSILON] fails for no string. *)
Definition is_epsilon (s : string) : bool :=
  match SpecialSymbols.EPSILON with
  | Some e => String.eqb s e
  | None => false
  end.

(** The lookahead of [newItem], filled by [firstSet.forEach]. *)
Definition new_lookahead (firstSet : list string) (item : Item) : list string :=
  fold_left (fun la s => if is_epsilon s then fold_left set_add (lookahead item) la
                         else set_add la s)
            firstSet [].

(** The body of [.forEach(production => ...)] in [closure], for the
    production at position [p]. *)
Definition expand (this : Base) (firstSet : list string) (item : Item)
  (acc : list Item * list Item) (p : nat) : outcome (list Item * list Item) :=
  let newItem := mkItem p 0 (new_lookahead firstSet item) in
  itemKey this newItem ;;;
  present <- hasItem this (JsSet (fst acc)) newItem ;;
  if present then Ok acc else Ok (fst acc ++ [newItem], snd acc ++ [newItem]).

(** The positions of [this.productions.filter(p => p[0] === symbol)]. *)
Definition productions_of (this : Base) (sym : string) : list nat :=
  map fst (filter (fun ip => match snd ip with
                             | PPair lhs _ => String.eqb lhs sym
                             | PObj _ _ => false
                             end)
                  (indexed (productions this))).

(** The [while (queue.length > 0)] loop of [closure]; [closure] is the
    [Set] and [queue] the array. *)
Fixpoint closure_loop (fuel : nat) (this : Base) (closure queue : list Item)
  : outcome (list Item) :=
  match fuel with
  | O => OutOfFuel
  | S fuel' =>
      match queue with
      | [] => Ok closure
      | item :: rest =>
          d <- destructure (nth_error (productions this) (production item)) ;;
          match nth_error (snd d) (dotPosition item) with
          | None => closure_loop fuel' this closure rest
          | Some sym =>
              if String.eqb sym "" then closure_loop fuel' this closure rest
              else
                isnt <- nt_has (nonterminals this) sym ;;
                if negb isnt then closure_loop fuel' this closure rest
                else
                  let firstSet := computeRemainingFirst this
                                    (skipn (dotPosition item + 1) (snd d)) in
                  acc <- foldM (expand this firstSet item) (productions_of this sym)
                               (closure, rest) ;;
                  closure_loop fuel' this (fst acc) (snd acc)
          end
      end
  end.

(** [closure(items)].  The items handed to [closure] are distinct objects,
    so [new Set(items)] holds them all, in order. *)
Definition closure (fuel : nat) (this : Base) (its : list Item) : outcome (list Item) :=
  closure_loop fuel this its its.

(** The body of [state.forEach] in [computeTransitions]: the item with its
    dot moved over [symbol] joins the items filed under [symbol]. *)
Definition advance (this : Base) (tr : list (string * list Item)) (item : Item)
  : outcome (list (string * list Item)) :=
  d <- destructure (nth_error (productions this) (production item)) ;;
  match nth_error (snd d) (dotPosition item) with
  | None => Ok tr
  | Some sym =>
      if String.eqb sym "" then Ok tr
      else
        let nextItem := mkItem (production item) (dotPosition item + 1) (lookahead item) in
        Ok (map_set tr sym (match map_get tr sym with
                            | Some l => l ++ [nextItem]
                            | None => [nextItem]
                            end))
  end.

(** [computeTransitions(state)] *)
Definition computeTransitions (this : Base) (state : list Item)
  : outcome (list (string * list Item)) :=
  foldM (advance this) state [].

(** [state.transitions = state.transitions || new Map();
     state.transitions.set(symbol, nextStateIndex)] on [states[i]]. *)
Fixpoint set_transition (states : list (State Z)) (i : nat) (sym : string) (t : Z)
  : list (State Z) :=
  match states, i with
  | [], _ => []
  | st :: rest, O =>
      mkState (items st)
              (Some (map_set (match transitions st with Some m => m | None => [] end)
                             sym t))
      :: rest
  | st :: rest, S i' => st :: set_transition rest i' sym t
  end.

(** The body of [for (const [symbol, nextItems] of transitions)]. *)
Definition visit (fuel : nat) (this : Base) (i : nat)
  (acc : list (State Z) * list (string * nat)) (tr : string * list Item)
  : outcome (list (State Z) * list (string * nat)) :=
  nextState <- closure fuel this (snd tr) ;;
  key <- stateKey this nextState ;;
  let acc1 := match map_get (snd acc) key with
              | Some _ => acc
              | None => (fst acc ++ [mkState nextState None],
                         map_set (snd acc) key (List.length (fst acc)))
              end in
  match map_get (snd acc1) key with
  | Some idx => Ok (set_transition (fst acc1) i (fst tr) (Z.of_nat idx), snd acc1)
  | None => Ok acc1
  end.

(** The loop [for (let i = 0; i < states.length; i++)]. *)
Fixpoint collect_states (fuel : nat) (this : Base) (i : nat)
  (states : list (State Z)) (stateMap : list (string * nat))
  : outcome (list (State Z)) :=
  match fuel with
  | O => OutOfFuel
  | S fuel' =>
      match nth_error states i with
      | None => Ok states
      | Some state =>
          tr <- computeTransitions this (items state) ;;
          acc <- foldM (visit fuel' this i) tr (states, stateMap) ;;
          collect_states fuel' this (S i) (fst acc) (snd acc)
      end
  end.

(** [canonicalCollection()] *)
Definition canonicalCollection (fuel : nat) (this : Base) : outcome (list (State Z)) :=
  let initialItem := mkItem 0 0 [SpecialSymbols.EOF] in
  initialState <- closure fuel this [initialItem] ;;
  key <- stateKey this initialState ;;
  collect_states fuel this 0 [mkState initialState None] [(key, 0%nat)].

(** [resolveConflict(production, action)] *)
Definition resolveConflict (this : Base) : nat -> Cell -> Action :=
  Gen.resolveConflict (productions this).

(** The body of [state.forEach(item => ...)]: reduce actions of a complete
    item. *)
Definition reduce_item (this : Base) (stateIndex : nat) (b : Building) (item : Item)
  : outcome Building :=
  d <- destructure (nth_error (productions this) (production item)) ;;
  if (dotPosition item =? List.length (snd d))%nat
  then Ok (fold_left (reduce_on (productions this) stateIndex item) (lookahead item) b)
  else Ok b.

(** The shift actions: [stateTable[symbol] = [SHIFT, nextState]] for every
    transition. *)
Definition shift_row (st : State Z) : Row :=
  match transitions st with
  | Some tr => fold_left (fun r t => map_set r (fst t) (mkAction ParserActions.SHIFT (snd t)))
                         tr []
  | None => []
  end.

(** The body of [states.forEach((state, stateIndex) => ...)]. *)
Definition state_row (this : Base) (acc : Tables) (ist : nat * State Z) : outcome Tables :=
  b <- foldM (reduce_item this (fst ist)) (items (snd ist))
             (mkBuilding (shift_row (snd ist)) (t_conflicts acc) (t_resolutions acc)) ;;
  Ok (mkTables (table acc ++ [row b]) (conflicts b) (resolutions b)).

(** [parseTable(states)] on a generator that has counted no conflict yet. *)
Definition parseTable (this : Base) (states : list (State Z)) : outcome Tables :=
  foldM (state_row this) (indexed states) (mkTables [] 0 []).

(** [findDefaults(table)] *)
Definition findDefaults : list Row -> list (nat * Action) := Gen.findDefaults.

(** The generator after [buildTable()]. *)
Record Built : Type := mkBuilt {
  b_base : Base;
  b_states : list (State Z);
  b_tables : Tables;
  b_defaultActions : list (nat * Action)
}.

(** [buildTable()] *)
Definition buildTable (fuel : nat) (this : Base) : outcome Built :=
  states <- canonicalCollection fuel this ;;
  t <- parseTable this states ;;
  Ok (mkBuilt this states t (findDefaults (table t))).

(** [preprocess()] followed by [buildTable()], on a fresh generator. *)
Definition build (fuel : nat) (grammar : GrammarInput) : outcome Built :=
  this <- preprocess fuel grammar new ;;
  buildTable fuel this.

(** The body of [state.transitions.forEach((nextState) => ...)] in
    [removeUnreachableStates]; [acc] holds the [Set] [reachable] and the
    queue. *)
Definition mark (acc : list Z * list Z) (nextState : Z) : list Z * list Z :=
  if existsb (Z.eqb nextState) (fst acc) then acc
  else (fst acc ++ [nextState], snd acc ++ [nextState]).

(** The [while (queue.length > 0)] loop of [removeUnreachableStates]. *)
Fixpoint reach_loop (fuel : nat) (states : list (State Z)) (reachable queue : list Z)
  : outcome (list Z) :=
  match fuel with
  | O => OutOfFuel
  | S fuel' =>
      match queue with
      | [] => Ok reachable
      | stateIndex :: rest =>
          match at_ states stateIndex with
          | None => Throw (TypeError "Cannot read properties of undefined (reading 'transitions')")
          | Some state =>
              let acc := match transitions state with
                         | Some tr => fold_left mark (map snd tr) (reachable, rest)
                         | None => (reachable, rest)
                         end in
              reach_loop fuel' states (fst acc) (snd acc)
          end
      end
  end.

(** [this.states.filter((_, index) => reachable.has(index))] *)
Definition keep_reachable (states : list (State Z)) (reachable : list Z) : list (State Z) :=
  map snd (filter (fun ist => existsb (Z.eqb (Z.of_nat (fst ist))) reachable)
                  (indexed states)).

(** [removeUnreachableStates()]: the new value of [this.states]. *)
Definition removeUnreachableStates (fuel : nat) (states : list (State Z))
  : outcome (list (State Z)) :=
  reachable <- reach_loop fuel states [0] [0] ;;
  Ok (keep_reachable states reachable).

End SLRGenerator.

(* ===================================================================== *)
(** ** src/generators/LR1Generator.js *)
(* ===================================================================== *)

Module LR1Generator.
Import Gen.

(** The members the LR(1) methods read.  The constructor sets
    [this.nonterminals = {}]: [nonterminals] lists the own keys of that
    object.  The FIRST sets of this class mark "may vanish" with
    [SpecialSymbols.EPSILON], which is [undefined]: [None] in a set. *)
Record This : Type := mkThis {
  productions : list Production;
  nonterminals : list string;
  firstSets : list (string * list (option string))
}.

(** [new LR1Generator(grammar)] *)
Definition new : Base := BaseGenerator.new (NtObj []).

Definition oeqb (a b : option string) : bool :=
  match a, b with
  | Some x, Some y => String.eqb x y
  | None, None => true
  | _, _ => false
  end.

Definition oset_has (s : list (option string)) (x : option string) : bool :=
  existsb (oeqb x) s.

Definition oset_add (s : list (option string)) (x : option string) : list (option string) :=
  if oset_has s x then s else s ++ [x].

(** [item.production.handle]: only an object [{ symbol, handle }] has one. *)
Definition handle_of (p : option Production) : outcome (list string) :=
  match p with
  | Some (PObj _ h) => Ok h
  | Some (PPair _ _) => Throw (TypeError "Cannot read properties of undefined")
  | None => Throw (TypeError "Cannot read properties of undefined (reading 'handle')")
  end.

(** [this.nonterminals[symbol]] on the plain object. *)
Definition nt_index (this : This) (sym : string) : bool :=
  set_has (nonterminals this) sym || inherited sym.

Fixpoint first_scan (fs : list (string * list (option string))) (symbols : list string)
  (first : list (option string)) : list (option string) :=
  match symbols with
  | [] => oset_add first SpecialSymbols.EPSILON
  | sym :: rest =>
      match map_get fs sym with
      | None => first_scan fs rest first
      | Some symbolFirst =>
          let first1 := fold_left
                          (fun r s => if oeqb s SpecialSymbols.EPSILON then r else oset_add r s)
                          symbolFirst first in
          if oset_has symbolFirst SpecialSymbols.EPSILON
          then first_scan fs rest first1 else first1
      end
  end.

(** [computeRemainingFirst(symbols)] *)
Definition computeRemainingFirst (this : This) (symbols : list string)
  : list (option string) :=
  match symbols with
  | [] => [SpecialSymbols.EPSILON]
  | _ => first_scan (firstSets this) symbols []
  end.

(** [itemKey(item)] *)
Definition itemKey (this : This) (item : Item) : outcome string :=
  match nth_error (productions this) (production item) with
  | Some (PObj sym h) =>
      Ok (sym ++ "->" ++ join " " h ++ "|" ++ string_of_nat (dotPosition item)
          ++ "|" ++ join "," (sort (lookahead item)))%string
  | Some (PPair _ _) => Throw (TypeError "Cannot read properties of undefined (reading 'join')")
  | None => Throw (TypeError "Cannot read properties of undefined (reading 'symbol')")
  end.

Fixpoint itemKeys (this : This) (state : list Item) : outcome (list string) :=
  match state with
  | [] => Ok []
  | i :: rest =>
      k <- itemKey this i ;;
      ks <- itemKeys this rest ;;
      Ok (k :: ks)
  end.

(** [stateKey(state)] *)
Definition stateKey (this : This) (state : list Item) : outcome string :=
  ks <- itemKeys this state ;;
  Ok (join "|" (sort ks)).

Fixpoint some_key (this : This) (l : list Item) (item : Item) : outcome bool :=
  match l with
  | [] => Ok false
  | i :: rest =>
      k1 <- itemKey this i ;;
      k2 <- itemKey this item ;;
      if String.eqb k1 k2 then Ok true else some_key this rest item
  end.

(** [hasItem(state, item)] *)
Definition hasItem (this : This) (state : SLRGenerator.Collection) (item : Item)
  : outcome bool :=
  match state with
  | SLRGenerator.JsArray l => some_key this l item
  | SLRGenerator.JsSet _ => Throw (TypeError "state.some is not a function")
  end.

(** The lookahead of [newItem]: the symbols of [firstSet], and the
    lookahead of [item] where [firstSet] holds the marker. *)
Definition new_lookahead (firstSet : list (option string)) (item : Item) : list string :=
  fold_left (fun la s => match s with
                         | Some x => set_add la x
                         | None => fold_left set_add (lookahead item) la
                         end)
            firstSet [].

Definition expand (this : This) (firstSet : list (option string)) (item : Item)
  (acc : list Item * list Item) (p : nat) : outcome (list Item * list Item) :=
  let newItem := mkItem p 0 (new_lookahead firstSet item) in
  itemKey this newItem ;;;
  present <- hasItem this (SLRGenerator.JsSet (fst acc)) newItem ;;
  if present then Ok acc else Ok (fst acc ++ [newItem], snd acc ++ [newItem]).

(** The positions of [this.productions.filter(p => p.symbol === symbol)]. *)
Definition productions_of (this : This) (sym : string) : list nat :=
  map fst (filter (fun ip => match snd ip with
                             | PObj s _ => String.eqb s sym
                             | PPair _ _ => false
                             end)
                  (indexed (productions this))).

Fixpoint closure_loop (fuel : nat) (this : This) (closure queue : list Item)
  : outcome (list Item) :=
  match fuel with
  | O => OutOfFuel
  | S fuel' =>
      match queue with
      | [] => Ok closure
      | item :: rest =>
          h <- handle_of (nth_error (productions this) (production item)) ;;
          match nth_error h (dotPosition item) with
          | None => closure_loop fuel' this closure rest
          | Some sym =>
              if String.eqb sym "" || negb (nt_index this sym)
              then closure_loop fuel' this closure rest
              else
                let firstSet := computeRemainingFirst this (skipn (dotPosition item + 1) h) in
                acc <- foldM (expand this firstSet item) (productions_of this sym)
                             (closure, rest) ;;
                closure_loop fuel' this (fst acc) (snd acc)
          end
      end
  end.

(** [closure(items)] *)
Definition closure (fuel : nat) (this : This) (its : list Item) : outcome (list Item) :=
  closure_loop fuel this its its.

(** [resolveConflict(production, action)] *)
Definition resolveConflict (this : This) : nat -> Cell -> Action :=
  Gen.resolveConflict (productions this).

Definition reduce_item (this : This) (stateIndex : nat) (b : Building) (item : Item)
  : outcome Building :=
  h <- handle_of (nth_error (productions this) (production item)) ;;
  if (dotPosition item =? List.length h)%nat
  then Ok (fold_left (reduce_on (productions this) stateIndex item) (lookahead item) b)
  else Ok b.

Definition state_row (this : This) (acc : Tables) (ist : nat * State Z) : outcome Tables :=
  b <- foldM (reduce_item this (fst ist)) (items (snd ist))
             (mkBuilding (SLRGenerator.shift_row (snd ist))
                         (t_conflicts acc) (t_resolutions acc)) ;;
  Ok (mkTables (table acc ++ [row b]) (conflicts b) (resolutions b)).

(** [parseTable(states)] *)
Definition parseTable (this : This) (states : list (State Z)) : outcome Tables :=
  foldM (state_row this) (indexed states) (mkTables [] 0 []).

(** The body of [state.forEach] in [computeTransitions]. *)
Definition advance (this : This) (tr : list (string * list Item)) (item : Item)
  : outcome (list (string * list Item)) :=
  h <- handle_of (nth_error (productions this) (production item)) ;;
  match nth_error h (dotPosition item) with
  | None => Ok tr
  | Some sym =>
      if String.eqb sym "" then Ok tr
      else
        let nextItem := mkItem (production item) (dotPosition item + 1) (lookahead item) in
        Ok (map_set tr sym (match map_get tr sym with
                            | Some l => l ++ [nextItem]
                            | None => [nextItem]
                            end))
  end.

(** [computeTransitions(state)] *)
Definition computeTransitions (this : This) (state : list Item)
  : outcome (list (string * list Item)) :=
  foldM (advance this) state [].

(** The body of [for (const [symbol, nextItems] of transitions)]. *)
Definition visit (fuel : nat) (this : This) (i : nat)
  (acc : list (State Z) * list (string * nat)) (tr : string * list Item)
  : outcome (list (State Z) * list (string * nat)) :=
  nextState <- closure fuel this (snd tr) ;;
  key <- stateKey this nextState ;;
  let acc1 := match map_get (snd acc) key with
              | Some _ => acc
              | None => (fst acc ++ [mkState nextState None],
                         map_set (snd acc) key (List.length (fst acc)))
              end in
  match map_get (snd acc1) key with
  | Some idx =>
      Ok (SLRGenerator.set_transition (fst acc1) i (fst tr) (Z.of_nat idx), snd acc1)
  | None => Ok acc1
  end.

Fixpoint collect_states (fuel : nat) (this : This) (i : nat)
  (states : list (State Z)) (stateMap : list (string * nat))
  : outcome (list (State Z)) :=
  match fuel with
  | O => OutOfFuel
  | S fuel' =>
      match nth_error states i with
      | None => Ok states
      | Some state =>
          tr <- computeTransitions this (items state) ;;
          acc <- foldM (visit fuel' this i) tr (states, stateMap) ;;
          collect_states fuel' this (S i) (fst acc) (snd acc)
      end
  end.

(** [canonicalCollection()] *)
Definition canonicalCollection (fuel : nat) (this : This) : outcome (list (State Z)) :=
  let initialItem := mkItem 0 0 [SpecialSymbols.EOF] in
  initialState <- closure fuel this [initialItem] ;;
  key <- stateKey this initialState ;;
  collect_states fuel this 0 [mkState initialState None] [(key, 0%nat)].

(** [buildTable()]: [findDefaults] is a member neither of this class nor of
    BaseGenerator, so the third statement calls [undefined]. *)
Definition buildTable (fuel : nat) (this : This) : outcome (list (State Z) * Tables) :=
  states <- canonicalCollection fuel this ;;
  parseTable this states ;;;
  Throw (TypeError "this.findDefaults is not a function").

End LR1Generator.

(* ===================================================================== *)
(** ** src/generators/LALRGenerator.js *)
(* ===================================================================== *)

Module LALRGenerator.
Import Gen.

(** [new LALRGenerator(grammar)]: [this.nonterminals = {}]. *)
Definition new : Base := BaseGenerator.new (NtObj []).

(** The members the merging methods read: [this.productions],
    [this.grammar] and [this.states]. *)
Record This : Type := mkThis {
  productions : list Production;
  grammar : GrammarInput;
  states : list (State Z)
}.

(** [itemKey(item)], the text of SLRGenerator's. *)
Definition itemKey (this : This) (item : Item) : outcome string :=
  d <- SLRGenerator.destructure (nth_error (productions this) (production item)) ;;
  Ok (fst d ++ "->" ++ join " " (snd d) ++ "|" ++ string_of_nat (dotPosition item)
      ++ "|" ++ join "," (sort (lookahead item)))%string.

(** [state.some(i => this.itemKey(i) === this.itemKey(item))] on an array. *)
Fixpoint hasItem (this : This) (state : list Item) (item : Item) : outcome bool :=
  match state with
  | [] => Ok false
  | i :: rest =>
      k1 <- itemKey this i ;;
      k2 <- itemKey this item ;;
      if String.eqb k1 k2 then Ok true else hasItem this rest item
  end.

(** [this.grammar.bnf.start] *)
Definition grammar_start (this : This) : outcome (option string) :=
  match grammar this with
  | GrammarObject g =>
      match bnf g with
      | Some b => Ok (start b)
      | None => Throw (TypeError "Cannot read properties of undefined (reading 'start')")
      end
  | GrammarText _ => Throw (TypeError "Cannot read properties of undefined (reading 'start')")
  end.

(** [item.production[0]]: the first element of a pair; an object has no
    member [0]. *)
Definition production_0 (p : option Production) : outcome (option string) :=
  match p with
  | Some (PPair lhs _) => Ok (Some lhs)
  | Some (PObj _ _) => Ok None
  | None => Throw (TypeError "Cannot read properties of undefined (reading '0')")
  end.

(** The test of [getKernel]:
    [item.dotPosition > 0 || item.production[0] === this.grammar.bnf.start]. *)
Definition is_kernel (this : This) (item : Item) : outcome bool :=
  if (0 <? dotPosition item)%nat then Ok true
  else
    p0 <- production_0 (nth_error (productions this) (production item)) ;;
    s <- grammar_start this ;;
    Ok (LR1Generator.oeqb p0 s).

(** [getKernel(state)] *)
Fixpoint getKernel (this : This) (state : list Item) : outcome (list Item) :=
  match state with
  | [] => Ok []
  | item :: rest =>
      keep <- is_kernel this item ;;
      k <- getKernel this rest ;;
      Ok (if keep then item :: k else k)
  end.

(** The string [kernelKey] makes of one item:
    [`${item.production[0]}->${item.production.join(' ')}|${item.dotPosition}`];
    the pair [[lhs, rhs]] joins as [lhs], a space and [rhs] separated by
    commas. *)
Definition kernelItemKey (this : This) (item : Item) : outcome string :=
  match nth_error (productions this) (production item) with
  | Some (PPair lhs rhs) =>
      Ok (lhs ++ "->" ++ join " " [lhs; join "," rhs] ++ "|"
          ++ string_of_nat (dotPosition item))%string
  | Some (PObj _ _) => Throw (TypeError "item.production.join is not a function")
  | None => Throw (TypeError "Cannot read properties of undefined (reading '0')")
  end.

Fixpoint kernelItemKeys (this : This) (kernel : list Item) : outcome (list string) :=
  match kernel with
  | [] => Ok []
  | i :: rest =>
      k <- kernelItemKey this i ;;
      ks <- kernelItemKeys this rest ;;
      Ok (k :: ks)
  end.

(** [kernelKey(kernel)] *)
Definition kernelKey (this : This) (kernel : list Item) : outcome string :=
  ks <- kernelItemKeys this kernel ;;
  Ok (join "|" (sort ks)).







(** A state that is alone in its group is pushed as it is. *)
Definition keep (st : State Z) : State Target :=
  mkState (items st)
          (match transitions st with
           | Some tr => Some (map (fun t => (fst t, TOne (snd t))) tr)
           | None => None
           end).



(** The body of [state.forEach(item => ...)] in [parseTable]: the test is
    [item.dotPosition === item.production.length], and a pair [[lhs, rhs]]
    has length 2. *)
Definition reduce_item (ps : list Production) (stateIndex : nat) (b : Building) (item : Item)
  : outcome Building :=
  match nth_error ps (production item) with
  | Some (PPair _ _) =>
      if (dotPosition item =? 2)%nat
      then Ok (fold_left (reduce_on ps stateIndex item) (lookahead item) b)
      else Ok b
  | Some (PObj _ _) => Ok b
  | None => Throw (TypeError "Cannot read properties of undefined (reading 'length')")
  end.

(** The shift actions: the callback of [state.transitions.forEach] reads
    [nextStates], a name that is bound nowhere. *)
Definition shift_row (st : State Target) : outcome Row :=
  match transitions st with
  | Some (_ :: _) => Throw (ReferenceError "nextStates is not defined")
  | _ => Ok []
  end.

Definition state_row (ps : list Production) (acc : Tables) (ist : nat * State Target)
  : outcome Tables :=
  r <- shift_row (snd ist) ;;
  b <- foldM (reduce_item ps (fst ist)) (items (snd ist))
             (mkBuilding r (t_conflicts acc) (t_resolutions acc)) ;;
  Ok (mkTables (table acc ++ [row b]) (conflicts b) (resolutions b)).

(** [parseTable(states)] *)
Definition parseTable (ps : list Production) (sts : list (State Target)) : outcome Tables :=
  foldM (state_row ps) (indexed sts) (mkTables [] 0 []).

(** [resolveConflict(production, action)] *)
Definition resolveConflict (this : This) : nat -> Cell -> Action :=
  Gen.resolveConflict (productions this).

(** [findDefaults(table)] *)
Definition findDefaults : list Row -> list (nat * Action) := Gen.findDefaults.


(** The body of [nextStates.forEach(nextState => ...)] in
    [removeUnreachableStates]. *)
Definition mark (acc : list Z * list Z) (nextState : Z) : list Z * list Z :=
  if existsb (Z.eqb nextState) (fst acc) then acc
  else (fst acc ++ [nextState], snd acc ++ [nextState]).

(** The body of [state.transitions.forEach((nextStates) => ...)]: the
    value must be a [Set]; a number has no [forEach]. *)
Definition mark_all (acc : list Z * list Z) (nextStates : Target)
  : outcome (list Z * list Z) :=
  match nextStates with
  | TSet l => Ok (fold_left mark l acc)
  | TOne _ => Throw (TypeError "nextStates.forEach is not a function")
  end.

Fixpoint reach_loop (fuel : nat) (sts : list (State Target)) (reachable queue : list Z)
  : outcome (list Z) :=
  match fuel with
  | O => OutOfFuel
  | S fuel' =>
      match queue with
      | [] => Ok reachable
      | stateIndex :: rest =>
          match at_ sts stateIndex with
          | None => Throw (TypeError "Cannot read properties of undefined (reading 'transitions')")
          | Some state =>
              acc <- match transitions state with
                     | Some tr => foldM mark_all (map snd tr) (reachable, rest)
                     | None => Ok (reachable, rest)
                     end ;;
              reach_loop fuel' sts (fst acc) (snd acc)
          end
      end
  end.

(** [removeUnreachableStates()]: the new value of [this.states]. *)
Definition removeUnreachableStates (fuel : nat) (sts : list (State Target))
  : outcome (list (State Target)) :=
  reachable <- reach_loop fuel sts [0] [0] ;;
  Ok (map snd (filter (fun ist => existsb (Z.eqb (Z.of_nat (fst ist))) reachable)
                      (indexed sts))).

End LALRGenerator.

(* ===================================================================== *)
(** ** LLGenerator (src/generators/LLGenerator.js) *)
(* ===================================================================== *)

Module LLGenerator.
Import Gen.

(** [new LLGenerator(grammar)]: [this.nonterminals = {}]. *)
Definition new : Base := BaseGenerator.new (NtObj []).

(** The members the LL(1) methods read.  The methods use
    [production.symbol] and [production.handle]: [productions] holds
    objects.  [predictSets] is a [Map] keyed by the production objects,
    which are named by their position in [productions]. *)
Record This : Type := mkThis {
  productions : list GProduction;
  firstSets : list (string * list (option string));
  followSets : list (string * list string);
  predictSets : list (nat * list string)
}.

Fixpoint nmap_get {A : Type} (m : list (nat * A)) (k : nat) : option A :=
  match m with
  | [] => None
  | (k', v) :: m' => if (k' =? k)%nat then Some v else nmap_get m' k
  end.

Fixpoint nmap_set {A : Type} (m : list (nat * A)) (k : nat) (v : A) : list (nat * A) :=
  match m with
  | [] => [(k, v)]
  | (k', v') :: m' => if (k' =? k)%nat then (k, v) :: m' else (k', v') :: nmap_set m' k v
  end.

(** [computeProductionFirst(production)] *)
Definition computeProductionFirst (this : This) (p : GProduction) : list (option string) :=
  LR1Generator.first_scan (firstSets this) (g_handle p) [].

(** The body of [this.productions.forEach] in [computePredictSets]. *)
Definition predict_one (this : This) (acc : list (nat * list string))
  (ip : nat * GProduction) : outcome (list (nat * list string)) :=
  let firstSet := computeProductionFirst this (snd ip) in
  let predictSet := fold_left (fun ps s => match s with
                                           | Some x => set_add ps x
                                           | None => ps
                                           end)
                              firstSet [] in
  if LR1Generator.oset_has firstSet SpecialSymbols.EPSILON
  then
    match map_get (followSets this) (g_symbol (snd ip)) with
    | Some followSet => Ok (nmap_set acc (fst ip) (fold_left set_add followSet predictSet))
    | None => Throw (TypeError "Cannot read properties of undefined (reading 'forEach')")
    end
  else Ok (nmap_set acc (fst ip) predictSet).

(** [computePredictSets()]: the new value of [this.predictSets]. *)
Definition computePredictSets (this : This) : outcome (list (nat * list string)) :=
  foldM (predict_one this) (indexed (productions this)) (predictSets this).

(** [resolveConflict(production, existingProduction)] *)
Definition resolveConflict (production existingProduction : nat) : nat := production.

(** What [buildParseTable] accumulates: the table, a [Map] from symbols to
    [Map]s from terminals to productions, [this.conflicts] and
    [this.resolutions]. *)
Record Predictive : Type := mkPredictive {
  table : list (string * list (string * nat));
  conflicts : nat;
  resolutions : list (string * string * nat)
}.

(** The body of [predictSet.forEach(terminal => ...)] for the production at
    position [p] with left-hand side [sym]. *)
Definition enter (p : nat) (sym : string) (acc : Predictive) (terminal : string)
  : Predictive :=
  let table1 := match map_get (table acc) sym with
                | Some _ => table acc
                | None => map_set (table acc) sym []
                end in
  let symbolTable := match map_get table1 sym with Some m => m | None => [] end in
  match map_get symbolTable terminal with
  | Some existing =>
      mkPredictive table1 (S (conflicts acc))
                   (resolutions acc ++ [(sym, terminal, resolveConflict p existing)])
  | None =>
      mkPredictive (map_set table1 sym (map_set symbolTable terminal p))
                   (conflicts acc) (resolutions acc)
  end.

(** The body of [this.productions.forEach] in [buildParseTable]. *)
Definition enter_production (this : This) (acc : Predictive) (ip : nat * GProduction)
  : outcome Predictive :=
  match nmap_get (predictSets this) (fst ip) with
  | Some predictSet => Ok (fold_left (enter (fst ip) (g_symbol (snd ip))) predictSet acc)
  | None => Throw (TypeError "Cannot read properties of undefined (reading 'forEach')")
  end.

(** [buildParseTable()] on a generator that has counted no conflict yet. *)
Definition buildParseTable (this : This) : outcome Predictive :=
  foldM (enter_production this) (indexed (productions this)) (mkPredictive [] 0 []).

(** [buildTable()]: [findDefaults] is a member neither of this class nor of
    BaseGenerator. *)
Definition buildTable (this : This) : outcome Predictive :=
  buildParseTable this ;;;
  Throw (TypeError "this.findDefaults is not a function").

(** [table.get(symbol).get(terminal)] *)
Definition entry (tbl : list (string * list (string * nat))) (sym terminal : string)
  : option nat :=
  match map_get tbl sym with
  | Some m => map_get m terminal
  | None => None
  end.

End LLGenerator.

(* ===================================================================== *)
(** ** ParserState (src/core/ParserState.js) *)
(* ===================================================================== *)

Module ParserState.

Record t : Type := mk {
  stack : list tval;
  symbolStack : list tval;
  valueStack : list jsval;
  locationStack : list Runtime.Loc;
  recovering : Z;
  preErrorSymbol : option tval
}.

(** [new ParserState()] *)
Definition new : t := mk [TNum 0] [] [JNull] [] 0 None.

(** [getCurrentState()] *)
Definition getCurrentState (this : t) : option tval :=
  at_ (stack this) (Z.of_nat (List.length (stack this)) - 1).

Definition pushState (this : t) (state : tval) : t :=
  mk (stack this ++ [state]) (symbolStack this) (valueStack this) (locationStack this)
     (recovering this) (preErrorSymbol this).

Definition pushSymbol (this : t) (symbol : tval) : t :=
  mk (stack this) (symbolStack this ++ [symbol]) (valueStack this) (locationStack this)
     (recovering this) (preErrorSymbol this).

Definition pushValue (this : t) (value : jsval) : t :=
  mk (stack this) (symbolStack this) (valueStack this ++ [value]) (locationStack this)
     (recovering this) (preErrorSymbol this).

Definition pushLocation (this : t) (location : Runtime.Loc) : t :=
  mk (stack this) (symbolStack this) (valueStack this) (locationStack this ++ [location])
     (recovering this) (preErrorSymbol this).

(** [popStack(n)] for a count [n]: each of the three assignments to
    [length] needs a length that is not negative.  ([Throw] tells that the
    call raised, not which of the arrays were already cut.) *)
Definition popStack (this : t) (n : nat) : outcome t :=
  if (List.length (stack this) <? 2 * n)%nat
     || (List.length (valueStack this) <? n)%nat
     || (List.length (locationStack this) <? n)%nat
  then Throw (RangeError "Invalid array length")
  else Ok (mk (firstn (List.length (stack this) - 2 * n) (stack this))
              (symbolStack this)
              (firstn (List.length (valueStack this) - n) (valueStack this))
              (firstn (List.length (locationStack this) - n) (locationStack this))
              (recovering this) (preErrorSymbol this)).

Definition setRecovering (this : t) (value : Z) : t :=
  mk (stack this) (symbolStack this) (valueStack this) (locationStack this)
     value (preErrorSymbol this).

Definition setPreErrorSymbol (this : t) (symbol : tval) : t :=
  mk (stack this) (symbolStack this) (valueStack this) (locationStack this)
     (recovering this) (Some symbol).

Definition clearPreErrorSymbol (this : t) : t :=
  mk (stack this) (symbolStack this) (valueStack this) (locationStack this)
     (recovering this) None.

End ParserState.

(* ===================================================================== *)
(** ** The specification's wording of the properties under study *)
(* ===================================================================== *)

Module Spec.
Import Gen.









(** The default action the specification gives a row: [Reduce(p)] when
    every populated cell of the row is that one reduce action. *)
Definition default_action (r : Row) : option Action :=
  match map snd r with
  | [] => None
  | a :: rest =>
      if (kind a =? ParserActions.REDUCE)
         && forallb (fun b => (kind b =? kind a) && (arg b =? arg a)) rest
      then Some a
      else None
  end.

(** [defaults[stateIndex]] *)
Fixpoint defaults_get (d : list (nat * Action)) (i : nat) : option Action :=
  match d with
  | [] => None
  | (j, a) :: d' => if (j =? i)%nat then Some a else defaults_get d' i
  end.


End Spec.

(* ===================================================================== *)
(** ** Notions used to state what the code does *)
(* ===================================================================== *)

Module Notions.
Import Gen.
Import LALRGenerator.











End Notions.

(* ===================================================================== *)
(** ** Concrete grammars, states and parsers *)
(* ===================================================================== *)

Module Examples.
Import Gen.
Import Runtime.


(** The grammar of the test suite: [S -> a B; B -> b; B -> c]. *)
Definition simpleGrammar : GrammarInput :=
  GrammarObject
    (mkGrammar (Some (mkBnf (Some "S")
                            (Some [mkGProduction "S" ["a"; "B"];
                                   mkGProduction "B" ["b"];
                                   mkGProduction "B" ["c"]])
                            (Some ["a"; "b"; "c"])))
               false []).





(** The row of the state that holds [E -> E + E .] once its shift on [+]
    is entered. *)
Definition exprRow : Building :=
  mkBuilding [("+", mkAction ParserActions.SHIFT 3)] 0 [].


(** A lexer over a fixed list of token numbers. *)
Definition list_lexer (toks : list Z) : Lexer (list Z) :=
  mkLexer (list Z)
          (fun _ => toks)
          (fun l => match l with
                    | [] => Ok (0, [])
                    | t :: l' => Ok (t, l')
                    end)
          (fun _ => JStr "")
          (fun _ => 0)
          (fun _ => 0)
          (fun _ => empty_loc)
          (fun _ => JStr "")
          None
          false.

(** State 0 accepts on end of input. *)
Definition accepting_parser : Parser (list Z) :=
  mkParser (list Z)
           [[(1, TArr [TNum ParserActions.ACCEPT])]]
           [] None [] (Some [(1, "$end")]) (Some (list_lexer [])) None.

(** State 0 can shift the error token (2) and nothing else; the input is
    the token 5; [yy.parseError] returns. *)
Definition recovering_parser (cb : option (string -> ErrHash -> outcome unit))
  : Parser (list Z) :=
  mkParser (list Z)
           [[(2, TArr [TNum ParserActions.SHIFT; TNum 1])]; []]
           [] None [] (Some [(2, "error"); (5, "x")]) (Some (list_lexer [5])) cb.

(** State 0 has no action at all, for the error token either. *)
Definition hopeless_parser (cb : option (string -> ErrHash -> outcome unit))
  : Parser (list Z) :=
  mkParser (list Z) [[]] [] None [] (Some [(2, "error"); (5, "x")])
           (Some (list_lexer [5])) cb.

(** State 0 reduces the empty production 0 on end of input; the action of
    that production returns a value. *)
Definition early_action (a : ActionArgs) : outcome ActionOut :=
  Ok (mkOut (JStr "early") (a_val a) (a_loc a)).

Definition reducing_parser : Parser (list Z) :=
  mkParser (list Z)
           [[(1, TArr [TNum ParserActions.REDUCE; TNum 0])]]
           [] (Some early_action) [(3, 0%nat)] (Some [(1, "$end")])
           (Some (list_lexer [])) None.



(** Four LR(1) states over [S -> a A; A -> b]: states 2 and 3 hold the same
    item [A -> b .] under different lookaheads; state 1 goes to state 3. *)
Definition lr1_states : list (State Z) :=
  [ mkState [mkItem 0 0 ["$"]] (Some [("a", 1)]);
    mkState [mkItem 0 1 ["$"]] (Some [("b", 3)]);
    mkState [mkItem 1 1 ["x"]] None;
    mkState [mkItem 1 1 ["y"]] None ].

Definition lalr_this : LALRGenerator.This :=
  LALRGenerator.mkThis
    [PPair "S" ["a"; "A"]; PPair "A" ["b"]]
    (GrammarObject
       (mkGrammar (Some (mkBnf (Some "S")
                               (Some [mkGProduction "S" ["a"; "A"];
                                      mkGProduction "A" ["b"]])
                               (Some ["a"; "b"])))
                  false []))
    lr1_states.

(** What [mergeStates] makes of them: states 2 and 3 are one state with two
    items; the transition of state 1 still names state 3. *)
Definition lalr_merged : list (State Target) :=
  [ mkState [mkItem 0 0 ["$"]] (Some [("a", TOne 1)]);
    mkState [mkItem 0 1 ["$"]] (Some [("b", TOne 3)]);
    mkState [mkItem 1 1 ["x"]; mkItem 1 1 ["y"]] (Some []) ].

(** Two items with one core and two lookahead sets, the dot before a
    terminal. *)
Definition twin_items : list Item := [mkItem 0 0 ["x"]; mkItem 0 0 ["y"]].

Definition slr_this : Base :=
  mkBase [PPair "S" ["a"]] ["a"] (NtSet ["S"]) [("a", ["a"]); ("S", ["a"])] [("S", ["$"])].

Definition lr1_this : LR1Generator.This :=
  LR1Generator.mkThis [PObj "S" ["a"]] ["S"] [("a", [Some "a"])].

(** The two states of the collection of [S -> a]. *)
Definition slr_states : list (State Z) :=
  [ mkState [mkItem 0 0 ["$end"]] (Some [("a", 1)]);
    mkState [mkItem 0 1 ["$end"]] None ].


(** A table whose row 0 reduces by production 1 under two lookaheads. *)
Definition two_cell_table : list Row :=
  [[("b", mkAction ParserActions.REDUCE 1); ("c", mkAction ParserActions.REDUCE 1)]].

End Examples.

(* ===================================================================== *)
(** ** Further notions and examples *)
(* ===================================================================== *)

Module MoreNotions.
Import Gen.
Import Runtime.

(** The three stacks of [parse] are in step: under every value and
    location lies a symbol and a state, above the first state. *)
Definition in_step {L : Type} (st : PState L) : Prop :=
  (List.length (stack st) + 1 = 2 * List.length (vstack st))%nat
  /\ List.length (lstack st) = List.length (vstack st).

(** The loop variables after [n] completed turns of the loop, if the loop
    gets that far. *)
Fixpoint run {L : Type} (this : Parser L) (lx : Lexer L) (n : nat) (st : PState L)
  : option (PState L) :=
  match n with
  | O => Some st
  | S n' =>
      match iteration L this lx st with
      | Ok (Next st') => run this lx n' st'
      | _ => None
      end
  end.

(** What the lexer has been asked when the loop variables are [st]: nothing
    yet, or one token. *)
Definition at_most_one_token {L : Type} (lx : Lexer L) (input : string) (st : PState L)
  : Prop :=
  (symbol st = None /\ lexst st = setInput lx input)
  \/ (exists r, lex lx (setInput lx input) = Ok r
                /\ symbol st = Some (if fst r =? 0 then Runtime.EOF else fst r)
                /\ lexst st = snd r).

End MoreNotions.

Module MoreExamples.
Import Gen.
Import Runtime.
Import Examples.

(** State 0 shifts the token 5. *)
Definition shifting_parser : Parser (list Z) :=
  mkParser (list Z)
           [[(5, TArr [TNum ParserActions.SHIFT; TNum 1])]; []]
           [] None [] (Some [(5, "x")]) (Some (list_lexer [5])) None.

(** An action that returns nothing and leaves [yyval] alone. *)
Definition silent_action (a : ActionArgs) : outcome ActionOut :=
  Ok (mkOut JUndef (a_val a) (a_loc a)).

(** State 0 reduces production 0, of length 1, on end of input. *)
Definition popping_parser : Parser (list Z) :=
  mkParser (list Z)
           [[(1, TArr [TNum ParserActions.REDUCE; TNum 0])]]
           [] (Some silent_action) [(3, 1%nat)] (Some [(1, "$end")])
           (Some (list_lexer [])) None.

(** State 0 has the default action [[7]]. *)
Definition spinning_parser : Parser (list Z) :=
  mkParser (list Z) [[]] [(0, TArr [TNum 7])] None [] (Some []) (Some (list_lexer [])) None.

(** State 0 holds two actions in one cell. *)
Definition conflicting_parser : Parser (list Z) :=
  mkParser (list Z)
           [[(1, TArr [TArr [TNum 1; TNum 2]; TArr [TNum 2; TNum 0]])]]
           [] None [] (Some [(1, "$end")]) (Some (list_lexer [])) None.

(** State 0 reduces the empty production 0 on end of input and goes to
    state 1 under its left-hand side 3; the action returns nothing. *)
Definition stepping_parser : Parser (list Z) :=
  mkParser (list Z)
           [[(1, TArr [TNum ParserActions.REDUCE; TNum 0]); (3, TNum 1)]; []]
           [] (Some silent_action) [(3, 0%nat)] (Some [(1, "$end")])
           (Some (list_lexer [])) None.

(** Its loop variables after the first turn. *)
Definition after_step : PState (list Z) :=
  mkPState (list Z) [TNum 0; TNum 3; TNum 1] [JNull; JUndef]
           [empty_loc; empty_loc] (Some 1) None 0 (JStr "") 0 0 empty_loc [].

(** The loop variables of these parsers once the end of input was read. *)
Definition at_eof : PState (list Z) :=
  mkPState (list Z) [TNum 0] [JNull] [empty_loc] (Some 1) None 0 (JStr "") 0 0 empty_loc [].

End MoreExamples.

Module GenNotions.
Import Gen.

(** A symbol the FIRST computation passes over: it has no FIRST set, or
    its set holds the empty string. *)
Definition vanishes (fs : SetMap) (sym : string) : bool :=
  match map_get fs sym with
  | None => true
  | Some f => set_has f ""
  end.

(** The productions and the tokens of [grammar.bnf], empty when missing. *)
Definition productions_of_bnf (b : Bnf) : list GProduction :=
  match g_productions b with
  | Some ps => ps
  | None => []
  end.

Definition tokens_of_bnf (b : Bnf) : list string :=
  match tokens b with
  | Some toks => toks
  | None => []
  end.

(** The symbol after the dot of an item whose production is stored as a
    pair. *)
Definition after_dot (ps : list Production) (item : Item) : option string :=
  match nth_error ps (production item) with
  | Some (PPair _ rhs) => nth_error rhs (dotPosition item)
  | _ => None
  end.

(** The item with its dot moved one symbol on. *)
Definition moved (item : Item) : Item :=
  mkItem (production item) (dotPosition item + 1) (lookahead item).

Definition dot_before (ps : list Production) (sym : string) (item : Item) : bool :=
  match after_dot ps item with
  | Some s => String.eqb s sym
  | None => false
  end.

(** The items of the state that have their dot before [sym], moved over
    it, in the order of the state. *)
Definition movers (ps : list Production) (sym : string) (state : list Item) : list Item :=
  map moved (filter (dot_before ps sym) state).

(** Every transition of the state names a number from 0 below [n]. *)
Definition targets_below (n : nat) (st : State Z) : Prop :=
  match transitions st with
  | Some tr => Forall (fun e => 0 <= snd e < Z.of_nat n) tr
  | None => True
  end.

(** Every transition of the collection names a state of the collection. *)
Definition targets_in_range (states : list (State Z)) : Prop :=
  Forall (targets_below (List.length states)) states.

(** A state that holds one item, of production 0 under the lookahead of
    the initial item. *)
Definition chain_state (st : State Z) : Prop :=
  exists d, items st = [mkItem 0 d [SpecialSymbols.EOF]].

(** A state number that a walk along the transitions reaches from
    state 0. *)
Inductive reachable_from_0 (states : list (State Z)) : Z -> Prop :=
| reach_start : reachable_from_0 states 0
| reach_step (x y : Z) (st : State Z) (tr : list (string * Z)) (sym : string) :
    reachable_from_0 states x ->
    at_ states x = Some st ->
    transitions st = Some tr ->
    In (sym, y) tr ->
    reachable_from_0 states y.

(** The production at [ip] is a production of [A] whose predict set holds
    [t]. *)
Definition predicts (this : LLGenerator.This) (A t : string) (ip : nat * GProduction) : bool :=
  String.eqb (g_symbol (snd ip)) A
  && match LLGenerator.nmap_get (LLGenerator.predictSets this) (fst ip) with
     | Some ps => set_has ps t
     | None => false
     end.

(** The first such production among [l]. *)
Definition first_predicting (this : LLGenerator.This) (A t : string)
  (l : list (nat * GProduction)) : option nat :=
  option_map fst (find (predicts this A t) l).

(** Two items with the same production and the same dot. *)
Definition same_core (a b : Item) : Prop :=
  production a = production b /\ dotPosition a = dotPosition b.

(** The same item up to the order of its lookahead. *)
Definition same_item (a b : Item) : Prop :=
  same_core a b /\ Permutation (lookahead a) (lookahead b).

(** The shape [state_row] has in SLRGenerator and LR1Generator, over the
    body [f] of its [state.forEach]. *)
Definition row_step (f : nat -> Building -> Item -> outcome Building)
  (acc : Tables) (ist : nat * State Z) : outcome Tables :=
  b <- foldM (f (fst ist)) (items (snd ist))
             (mkBuilding (SLRGenerator.shift_row (snd ist))
                         (t_conflicts acc) (t_resolutions acc)) ;;
  Ok (mkTables (table acc ++ [row b]) (conflicts b) (resolutions b)).







(** The counter of conflicts agrees with the list of resolutions. *)
Definition counted (b : Building) : Prop := conflicts b = List.length (resolutions b).

(** A cell of the row of [st] that has a reason: the shift of a transition
    of [st], or the reduce of a complete item of [st] under one of its
    lookaheads. *)
Definition justified (ps : list Production) (st : State Z) (c : string * Action) : Prop :=
  (kind (snd c) = ParserActions.SHIFT
   /\ exists tr, transitions st = Some tr /\ In (fst c, arg (snd c)) tr)
  \/ (exists item lhs rhs,
         In item (items st)
         /\ nth_error ps (production item) = Some (PPair lhs rhs)
         /\ dotPosition item = List.length rhs
         /\ In (fst c) (lookahead item)
         /\ snd c = mkAction ParserActions.REDUCE (Z.of_nat (production item))).

End GenNotions.

Module GenExamples.
Import Gen.

(** The three generators whose constructor sets [this.nonterminals = {}]. *)
Definition object_store_generators : list Base :=
  [LALRGenerator.new; LR1Generator.new; LLGenerator.new].

(** [S -> A b; A -> (empty)] with the token [b]. *)
Definition bnf_S_Ab : Bnf :=
  mkBnf (Some "S") (Some [mkGProduction "S" ["A"; "b"]; mkGProduction "A" []]) (Some ["b"]).

Definition grammar_S_Ab : Grammar := mkGrammar (Some bnf_S_Ab) false [].

(** FIRST sets in which [A] may vanish. *)
Definition first_S_Ab : Base :=
  mkBase [PPair "S" ["A"; "b"]; PPair "A" []] ["b"] (NtSet ["S"; "A"])
         [("b", ["b"]); ("S", ["b"]); ("A", [""])] [].

(** An item of [S -> a] before its [a], and the transitions of the state
    that holds it. *)
Definition item_S_a : Item := mkItem 0 0 ["$end"].

Definition transitions_S_a : list (string * list Item) := [("a", [mkItem 0 1 ["$end"]])].

(** The table of the collection of [S -> a]. *)
Definition tables_S_a : Tables :=
  mkTables [[("a", mkAction ParserActions.SHIFT 1)];
            [("$end", mkAction ParserActions.REDUCE 0)]] 0 [].

(** An LL generator with two productions of [A] that both predict [a],
    and the table [buildParseTable] makes of them. *)
Definition ll_this : LLGenerator.This :=
  LLGenerator.mkThis [mkGProduction "A" ["a"]; mkGProduction "A" ["a"; "b"]] [] []
                     [(0%nat, ["a"]); (1%nat, ["a"])].

Definition ll_table : LLGenerator.Predictive :=
  LLGenerator.mkPredictive [("A", [("a", 0%nat)])] 1 [("A", "a", 1%nat)].

(** The SLR generator after [processGrammar] on [S -> a], and after
    [computeFirstSets]. *)
Definition processed_S_a : Base :=
  mkBase [PPair "S" ["a"]] ["a"] (NtSet ["S"]) [("a", ["a"]); ("S", [])] [("S", [])].

Definition first_S_a : Base :=
  mkBase [PPair "S" ["a"]] ["a"] (NtSet ["S"]) [("a", ["a"]); ("S", ["a"])] [("S", [])].

End GenExamples.

(* ===================================================================== *)
(** ** Facts about the parse loop *)
(* ===================================================================== *)

Module RuntimeFacts.
Import Runtime.
Import Examples.

Section Loop.

Variable L : Type.
Variable this : Parser L.
Variable lx : Lexer L.

(** Reading the next action leaves the three stacks alone. *)
Lemma fetch_stacks (st st1 : PState L) (state action : tval) :
  fetch L this lx st = Ok (state, action, st1) ->
  stack st1 = stack st /\ vstack st1 = vstack st /\ lstack st1 = lstack st.
Proof.
  unfold fetch.
  destruct (truthy _).
  - intros H; inversion H; subst; auto.
  - destruct (symbol st).
    + intros H; inversion H; subst; auto.
    + destruct (lex lx (lexst st)) as [r | e |]; simpl; intros H;
        inversion H; subst; simpl; auto.
Qed.

(** An action whose first element is a nonzero number is neither missing
    nor a list of alternatives. *)
Lemma numbered_action (action : tval) (n : Z) :
  elem action 0 = TNum n -> n <> 0 ->
  no_action action = false /\ multiple_actions action = false
  /\ action <> TUndef.
Proof.
  destruct action as [| m | l]; simpl; try discriminate.
  destruct l as [| a0 l']; simpl; try discriminate.
  intros -> Hn. simpl.
  repeat split; try discriminate.
  apply negb_false_iff, negb_true_iff, Z.eqb_neq, Hn.
Qed.

(** One turn of the loop on an action that is present is its dispatch. *)
Lemma iteration_dispatch (st st1 : PState L) (state action : tval) :
  fetch L this lx st = Ok (state, action, st1) ->
  no_action action = false ->
  iteration L this lx st = dispatch L this lx action st1.
Proof.
  intros Hf Hn. unfold iteration. rewrite Hf. simpl. rewrite Hn. reflexivity.
Qed.

Lemma dispatch_numbered (st : PState L) (action : tval) (n : Z) :
  elem action 0 = TNum n -> n <> 0 ->
  dispatch L this lx action st =
  match n with
  | 1 => do_shift L lx action st
  | 2 => do_reduce L this lx action st
  | 3 => Ok (Return (JBool true))
  | _ => Ok (Next st)
  end.
Proof.
  intros He Hn.
  destruct (numbered_action action n He Hn) as (_ & Hm & Hu).
  unfold dispatch. rewrite Hm, He.
  destruct action; [contradiction | reflexivity | reflexivity].
Qed.

(** The error branch never hands control back to the loop: whatever the
    callback does, [popStack(error_rule_depth)] is reached with an undefined
    depth. *)
Lemma error_branch_never_returns (state : tval) (st : PState L) (r : PState L * tval) :
  error_branch L this lx state st <> Ok r.
Proof.
  unfold error_branch, error_rule_depth.
  match goal with
  | |- bind ?c _ <> _ => destruct c as [s | e |]
  end; simpl; discriminate.
Qed.

Lemma iteration_without_action (st st1 : PState L) (state action : tval) (s : step L) :
  fetch L this lx st = Ok (state, action, st1) ->
  no_action action = true ->
  iteration L this lx st <> Ok s.
Proof.
  intros Hf Hn. unfold iteration. rewrite Hf. simpl. rewrite Hn.
  destruct (error_branch L this lx state st1) as [r | e |] eqn:E; simpl;
    try discriminate.
  exfalso. exact (error_branch_never_returns _ _ _ E).
Qed.

(** C7 (as amended).  When the action the loop dispatches is Accept, [parse]
    returns the boolean [true], whatever the value stack holds. *)
Theorem accept_returns_true (st st1 : PState L) (state action : tval) (fuel : nat) :
  fetch L this lx st = Ok (state, action, st1) ->
  elem action 0 = TNum ParserActions.ACCEPT ->
  loop L this lx (S fuel) st = Ok (JBool true).
Proof.
  intros Hf He.
  assert (Hn : ParserActions.ACCEPT <> 0) by discriminate.
  destruct (numbered_action action _ He Hn) as (Hna & _ & _).
  simpl. rewrite (iteration_dispatch st st1 state action Hf Hna).
  rewrite (dispatch_numbered st1 action _ He Hn). reflexivity.
Qed.

(** C9.  On a Reduce of a production the parser knows, with the locations
    it combines on the stack, the semantic action is called on the value and
    location stacks as they stand, nothing popped; a value other than
    [undefined] that it returns is at once the result of [parse], and an
    exception it raises leaves [parse]. *)
Theorem reduce_calls_action_before_pop
  (st st1 : PState L) (state action : tval) (fuel : nat)
  (p : Z) (lhs : Z) (len : nat) (loc : Loc) (f : ActionArgs -> outcome ActionOut) :
  fetch L this lx st = Ok (state, action, st1) ->
  elem action 0 = TNum ParserActions.REDUCE ->
  as_index (elem action 1) = Some p ->
  at_ (productions_ this) p = Some (lhs, len) ->
  reduce_loc L lx len st1 = Ok loc ->
  performAction this = Some f ->
  let args := action_args L action len loc st1 in
  a_vstack args = vstack st /\ a_lstack args = lstack st
  /\ a_rule args = elem action 1
  /\ (forall out, f args = Ok out -> o_ret out <> JUndef ->
                  loop L this lx (S fuel) st = Ok (o_ret out))
  /\ (forall e, f args = Throw e -> loop L this lx (S fuel) st = Throw e).
Proof.
  intros Hf He Hp Hprod Hloc Hact args.
  assert (Hn : ParserActions.REDUCE <> 0) by discriminate.
  destruct (numbered_action action _ He Hn) as (Hna & _ & _).
  destruct (fetch_stacks st st1 state action Hf) as (_ & Hv & Hl).
  assert (Hiter : iteration L this lx st =
                  bind (f args)
                       (fun out =>
                          match o_ret out with
                          | JUndef => do_reduce L this lx action st1
                          | r => Ok (Return r)
                          end)).
  { rewrite (iteration_dispatch st st1 state action Hf Hna).
    rewrite (dispatch_numbered st1 action _ He Hn).
    unfold ParserActions.REDUCE, do_reduce.
    rewrite Hp, Hprod, Hloc. simpl. rewrite Hact.
    fold args. destruct (f args) as [out | e |] eqn:E; simpl; try reflexivity.
    destruct (o_ret out); reflexivity. }
  repeat split.
  - exact Hv.
  - exact Hl.
  - intros out Hout Hret. simpl. rewrite Hiter, Hout. simpl.
    destruct (o_ret out); try reflexivity. contradiction.
  - intros e Hout. simpl. rewrite Hiter, Hout. reflexivity.
Qed.

End Loop.

(** Witness of [accept_returns_true]: the accepting parser on empty input. *)
Lemma accept_returns_true_witness :
  loop (list Z) accepting_parser (list_lexer []) 1 (initial (list Z) (list_lexer []) "")
  = Ok (JBool true).
Proof.
  apply (accept_returns_true (list Z) accepting_parser (list_lexer [])
           (initial (list Z) (list_lexer []) "")
           (mkPState (list Z) [TNum 0] [JNull] [empty_loc] (Some 1) None 0 (JStr "") 0 0
                     empty_loc [])
           (TNum 0) (TArr [TNum ParserActions.ACCEPT]) 0%nat).
  - reflexivity.
  - reflexivity.
Defined.

(** C7, counterexample.  On empty input the accepting parser dispatches
    Accept in state 0 while the top of the value stack is [null]; [parse]
    returns [true], not that value. *)
Lemma accept_does_not_return_top :
  let st := initial (list Z) (list_lexer []) "" in
  (exists st1, fetch (list Z) accepting_parser (list_lexer []) st
               = Ok (TNum 0, TArr [TNum ParserActions.ACCEPT], st1))
  /\ from_top (vstack st) 1 = Some JNull
  /\ parse accepting_parser 1 "" = Ok (JBool true)
  /\ JBool true <> JNull.
Proof.
  repeat split.
  - eexists. reflexivity.
  - discriminate.
Qed.

(** Witness of [reduce_calls_action_before_pop]: the reducing parser on
    empty input. *)
Lemma reduce_calls_action_before_pop_witness :
  loop (list Z) reducing_parser (list_lexer []) 1 (initial (list Z) (list_lexer []) "")
  = Ok (JStr "early").
Proof.
  pose proof (reduce_calls_action_before_pop (list Z) reducing_parser (list_lexer [])
                (initial (list Z) (list_lexer []) "")
                (mkPState (list Z) [TNum 0] [JNull] [empty_loc] (Some 1) None 0 (JStr "") 0 0
                          empty_loc [])
                (TNum 0) (TArr [TNum ParserActions.REDUCE; TNum 0]) 0%nat
                0 3 0%nat (mkLoc JUndef JUndef JUndef JUndef None) early_action
                eq_refl eq_refl eq_refl eq_refl eq_refl eq_refl) as H.
  destruct H as (_ & _ & _ & Hret & _).
  apply (Hret (mkOut (JStr "early") JUndef (mkLoc JUndef JUndef JUndef JUndef None))).
  - reflexivity.
  - discriminate.
Defined.

(** C6, the failing input.  State 0 has a Shift under the error token, the
    lookahead 5 has no action there and the recovery counter is 0: the
    error is reported to [parseError], and when that returns the parser
    neither shifts the error token nor goes on; it raises a [RangeError]
    from [popStack].  With the [parseError] of the class it raises a
    [TypeError] instead.  Where no state on the stack can shift the error
    token the outcome is the same: no [ParserError] is raised. *)
Theorem error_recovery_throws (fuel : nat) :
  lookup_action (list Z) (recovering_parser None) (TNum 0) TERROR
  = TArr [TNum ParserActions.SHIFT; TNum 1]
  /\ parse (recovering_parser (Some (fun _ _ => Ok tt))) (S fuel) ""
     = Throw (RangeError "Invalid array length")
  /\ parse (recovering_parser None) (S fuel) ""
     = Throw (TypeError "this.trace is not a function")
  /\ lookup_action (list Z) (hopeless_parser None) (TNum 0) TERROR = TUndef
  /\ parse (hopeless_parser (Some (fun _ _ => Ok tt))) (S fuel) ""
     = Throw (RangeError "Invalid array length")
  /\ parse (hopeless_parser None) (S fuel) ""
     = Throw (TypeError "this.trace is not a function").
Proof.
  repeat split.
Qed.

End RuntimeFacts.

(* ===================================================================== *)
(** ** Facts about the generator factory *)
(* ===================================================================== *)

Module FactoryFacts.
Import Factory.

Section Create.

Variables G O : Type.
Variable grammar : G.
Variable options : O.

(** The five known names select their class. *)
Lemma known_type_selects_class (t : string) :
  In t known_types ->
  exists c, createGenerator (Some t) grammar options = Ok (Instance c grammar options).
Proof.
  unfold known_types. simpl.
  intros [<- | [<- | [<- | [<- | [<- | []]]]]]; eexists; reflexivity.
Qed.

(** A name that is neither known nor inherited from [Object.prototype], and
    the missing name, fall back to LALR. *)
Lemma unknown_type_falls_back (type : option string) :
  (forall t, type = Some t -> ~ In t known_types /\ inherited t = false) ->
  createGenerator type grammar options = Ok (Instance LALRGenerator grammar options).
Proof.
  destruct type as [t |]; [| reflexivity].
  intros H. destruct (H t eq_refl) as (Hk & Hi).
  unfold createGenerator, generatorMap.
  unfold known_types in Hk. simpl in Hk.
  repeat match goal with
         | |- context [String.eqb t ?s] =>
             destruct (String.eqb_spec t s) as [-> | _];
             [ try (exfalso; apply Hk; tauto); try discriminate Hi | ]
         end.
  rewrite Hi. reflexivity.
Qed.

(** C10, the failing inputs.  "constructor" and "toString" are not among
    the five algorithm names, yet [createGenerator] does not fall back to
    LALR for them: the map answers with what it inherits.  For
    "constructor" the result is the grammar itself, for "toString" the call
    fails. *)
Theorem inherited_type_defeats_fallback :
  ~ In "constructor" known_types
  /\ ~ In "toString" known_types
  /\ createGenerator (Some "constructor") grammar options = Ok (GrammarItself grammar)
  /\ createGenerator (Some "toString") grammar options
     = Throw (TypeError "GeneratorClass is not a constructor")
  /\ Jison_generator grammar (Some "constructor") options = Ok (GrammarItself grammar).
Proof.
  unfold known_types. simpl.
  repeat split; try reflexivity; intuition discriminate.
Qed.

End Create.

End FactoryFacts.

(* ===================================================================== *)
(** ** Facts about maps, rows and loops with exceptions *)
(* ===================================================================== *)

Module GenLemmas.
Import Gen.

Lemma map_get_In {A : Type} (m : list (string * A)) (k : string) (v : A) :
  map_get m k = Some v -> In (k, v) m.
Proof.
  induction m as [| [k' v'] m IH]; simpl; [discriminate |].
  destruct (String.eqb_spec k' k) as [-> | _].
  - intros H; inversion H; subst; auto.
  - auto.
Qed.

Lemma map_set_In {A : Type} (m : list (string * A)) (k0 k : string) (v0 v : A) :
  In (k, v) (map_set m k0 v0) -> (k = k0 /\ v = v0) \/ In (k, v) m.
Proof.
  induction m as [| [k' v'] m IH]; simpl.
  - intros [H | []]; inversion H; auto.
  - destruct (String.eqb_spec k' k0) as [-> | _]; simpl.
    + intros [H | H]; [inversion H; auto | auto].
    + intros [H | H]; [auto | destruct (IH H); auto].
Qed.



Lemma map_set_values {A : Type} (P : A -> Prop) (m : list (string * A)) (k : string) (v : A) :
  Forall (fun c => P (snd c)) m -> P v -> Forall (fun c => P (snd c)) (map_set m k v).
Proof.
  intros Hm Hv. apply Forall_forall. intros [k1 v1] Hin.
  destruct (map_set_In _ _ _ _ _ Hin) as [[_ ->] | Hold]; simpl; auto.
  rewrite Forall_forall in Hm. exact (Hm _ Hold).
Qed.

(** An invariant of a [forEach] whose body may throw. *)
Lemma foldM_invariant {A S : Type} (P : S -> Prop) (f : S -> A -> outcome S) (l : list A) :
  (forall s x s', P s -> f s x = Ok s' -> P s') ->
  forall s s', P s -> foldM f l s = Ok s' -> P s'.
Proof.
  intros Hstep. induction l as [| x l IH]; simpl; intros s s' Hs H.
  - inversion H; subst; auto.
  - destruct (f s x) as [s1 | e |] eqn:E; simpl in H; try discriminate.
    exact (IH s1 s' (Hstep _ _ _ Hs E) H).
Qed.

(** The same with the elements the body meets. *)
Lemma foldM_invariant_in {A S : Type} (P : S -> Prop) (f : S -> A -> outcome S) (l : list A) :
  (forall s x s', In x l -> P s -> f s x = Ok s' -> P s') ->
  forall s s', P s -> foldM f l s = Ok s' -> P s'.
Proof.
  induction l as [| x l IH]; simpl; intros Hstep s s' Hs H.
  - inversion H; subst; auto.
  - destruct (f s x) as [s1 | e |] eqn:E; simpl in H; try discriminate.
    apply (IH (fun s0 y s0' Hy => Hstep s0 y s0' (or_intror Hy)) s1 s'); auto.
    apply (Hstep s x s1); auto.
Qed.

Lemma fold_left_invariant {A S : Type} (P : S -> Prop) (f : S -> A -> S) (l : list A) :
  (forall s x, P s -> P (f s x)) -> forall s, P s -> P (fold_left f l s).
Proof.
  intros Hstep. induction l as [| x l IH]; simpl; auto.
Qed.

(** [indexed] pairs every element with its position. *)
Lemma combine_seq_In {A : Type} (l : list A) (s i : nat) (x : A) :
  In (i, x) (combine (seq s (List.length l)) l) <->
  (s <= i)%nat /\ nth_error l (i - s) = Some x.
Proof.
  revert s. induction l as [| y l IH]; intros s; simpl.
  - split; [tauto |]. intros (_ & H). destruct (i - s)%nat; discriminate.
  - rewrite IH. split.
    + intros [H | (Hle & H)].
      * inversion H; subst. rewrite Nat.sub_diag. simpl. auto.
      * replace (i - s)%nat with (S (i - S s)) by lia. simpl. split; [lia | auto].
    + intros (Hle & H).
      destruct (Nat.eq_dec s i) as [-> | Hne].
      * rewrite Nat.sub_diag in H. simpl in H. inversion H; subst. auto.
      * right. split; [lia |].
        replace (i - s)%nat with (S (i - S s)) in H by lia. exact H.
Qed.

Lemma indexed_In {A : Type} (l : list A) (i : nat) (x : A) :
  In (i, x) (indexed l) <-> nth_error l i = Some x.
Proof.
  unfold indexed. rewrite combine_seq_In, Nat.sub_0_r. split; [tauto |].
  intros H; split; [lia | auto].
Qed.

End GenLemmas.

(* ===================================================================== *)
(** ** Facts about the action table *)
(* ===================================================================== *)

Module TableFacts.
Import Gen.
Import GenLemmas.
Import Notions.
Import Examples.












(** C8 (as amended).  [findDefaults] records an action for a state exactly
    when the row of the state has a single entry and that entry is a
    Reduce; the action recorded is that entry. *)
Theorem findDefaults_sole_reduce (tbl : list Row) (i : nat) (a : Action) :
  In (i, a) (findDefaults tbl) <->
  exists key, nth_error tbl i = Some [(key, a)] /\ kind a = ParserActions.REDUCE.
Proof.
  unfold findDefaults. rewrite in_flat_map. split.
  - intros ([j r] & Hin & H). apply indexed_In in Hin. simpl in H.
    destruct r as [| [k a1] [| c r]]; simpl in H; try contradiction.
    destruct (Z.eqb_spec (kind a1) ParserActions.REDUCE) as [Hk | _];
      simpl in H; [| contradiction].
    destruct H as [H | []]. inversion H; subst. exists k. auto.
  - intros (key & Hn & Hk). exists (i, [(key, a)]). split.
    + apply indexed_In. exact Hn.
    + simpl. rewrite Hk. simpl. auto.
Qed.

(** Witness of [findDefaults_sole_reduce]: state 1 of the table of
    [S -> a]. *)
Lemma findDefaults_sole_reduce_witness :
  In (1%nat, mkAction 2 0)
     (findDefaults [[("a", mkAction 1 1)]; [("$end", mkAction 2 0)]]).
Proof.
  apply (proj2 (findDefaults_sole_reduce _ 1%nat (mkAction 2 0))).
  exists "$end". split; reflexivity.
Defined.

(** C8, counterexample.  Row 0 holds the same Reduce under [b] and under
    [c] and nothing else: one distinct reduce action, no Shift, no Accept.
    [findDefaults] records no default for it. *)
Lemma same_reduce_twice_has_no_default :
  Spec.default_action [("b", mkAction ParserActions.REDUCE 1);
                       ("c", mkAction ParserActions.REDUCE 1)]
  = Some (mkAction ParserActions.REDUCE 1)
  /\ findDefaults two_cell_table = []
  /\ SLRGenerator.findDefaults two_cell_table = []
  /\ LALRGenerator.findDefaults two_cell_table = []
  /\ Spec.defaults_get (findDefaults two_cell_table) 0 = None.
Proof.
  repeat split.
Qed.

End TableFacts.

(* ===================================================================== *)
(** ** Facts about grammar preprocessing *)
(* ===================================================================== *)

Module GrammarFacts.
Import Gen.
Import GenLemmas.
Import BaseGenerator.
Import Notions.
Import Examples.


(** With the plain object that LALRGenerator, LR1Generator and LLGenerator
    put in [this.nonterminals], the loop goes through only when there is
    nothing to loop over. *)
Lemma collect_object (ps : list GProduction) (this this' : Base) (k : list string) :
  nonterminals this = NtObj k ->
  foldM collect ps this = Ok this' ->
  this' = this.
Proof.
  intros Hk. destruct ps as [| p ps]; simpl.
  - intros H; inversion H; auto.
  - unfold collect at 1. rewrite Hk. simpl. discriminate.
Qed.

(** A generator whose constructor set [this.nonterminals = {}] never gets
    through [processGrammar]. *)
Lemma processGrammar_object_store (g : GrammarInput) (k : list string) (r : Base) :
  processGrammar (BaseGenerator.new (NtObj k)) g <> Ok r.
Proof.
  unfold processGrammar.
  destruct g as [s | g]; simpl; [discriminate |].
  destruct (validateGrammar g) as [[] | e |]; simpl; try discriminate.
  set (this1 := match bnf g with
                | Some b => match tokens b with
                            | Some toks => processTokens (BaseGenerator.new (NtObj k)) toks
                            | None => BaseGenerator.new (NtObj k)
                            end
                | None => BaseGenerator.new (NtObj k)
                end).
  assert (H1 : nonterminals this1 = NtObj k).
  { subst this1. destruct (bnf g) as [b |]; [destruct (tokens b) |]; reflexivity. }
  match goal with
  | |- bind ?c _ <> _ => destruct c as [this2 | e |] eqn:E
  end; simpl; try discriminate.
  assert (H2 : nonterminals this2 = NtObj k).
  { destruct (bnf g) as [b |]; [destruct (g_productions b) as [ps |] |].
    - rewrite (collect_object ps this1 this2 k H1 E). exact H1.
    - inversion E; subst; exact H1.
    - inversion E; subst; exact H1. }
  rewrite H2. simpl. discriminate.
Qed.



(** Without productions the SLR build stops in [computeFollowSets]: the
    start symbol has no FOLLOW set to add [$] to. *)
Lemma build_of_empty_grammar_throws (g : Grammar) (b : Bnf) (fuel : nat) :
  bnf g = Some b ->
  g_productions b = Some [] \/ g_productions b = None ->
  SLRGenerator.build (S fuel) (GrammarObject g)
  = Throw (TypeError "Cannot read properties of undefined (reading 'add')").
Proof.
  intros Hb Hp.
  unfold SLRGenerator.build, SLRGenerator.preprocess, processGrammar, validateGrammar.
  simpl. rewrite Hb. simpl.
  assert (E : match g_productions b with
              | Some ps =>
                  foldM collect ps
                        match tokens b with
                        | Some toks => processTokens SLRGenerator.new toks
                        | None => SLRGenerator.new
                        end
              | None =>
                  Ok match tokens b with
                     | Some toks => processTokens SLRGenerator.new toks
                     | None => SLRGenerator.new
                     end
              end
              = Ok match tokens b with
                   | Some toks => processTokens SLRGenerator.new toks
                   | None => SLRGenerator.new
                   end).
  { destruct Hp as [-> | ->]; reflexivity. }
  rewrite E. clear E.
  destruct (tokens b) as [toks |]; simpl;
    unfold SLRGenerator.computeFollowSets; simpl; rewrite Hb;
    destruct (start b); reflexivity.
Qed.

(** Without start symbol the SLR build never completes. *)
Lemma build_without_start_fails (g : Grammar) (b : Bnf) (fuel : nat) (r : SLRGenerator.Built) :
  bnf g = Some b ->
  start b = None ->
  SLRGenerator.build fuel (GrammarObject g) <> Ok r.
Proof.
  intros Hb Hs. unfold SLRGenerator.build, SLRGenerator.preprocess.
  destruct (processGrammar _ _) as [this1 | e |]; simpl; try discriminate.
  destruct (SLRGenerator.computeFirstSets fuel this1) as [this2 | e |]; simpl;
    try discriminate.
  unfold SLRGenerator.computeFollowSets.
  destruct (nt_members _) as [nts | e |]; simpl; try discriminate.
  rewrite Hb, Hs. simpl. discriminate.
Qed.


End GrammarFacts.

(* ===================================================================== *)
(** ** Facts about closure *)
(* ===================================================================== *)

Module ClosureFacts.
Import Gen.
Import GenLemmas.
Import Examples.

(** [closure] hands [hasItem] its [Set]: the test that guards the only
    place where an item is added never answers. *)
Lemma slr_expand_throws (this : Base) (fs : list string) (item : Item)
  (acc r : list Item * list Item) (p : nat) :
  SLRGenerator.expand this fs item acc p <> Ok r.
Proof.
  unfold SLRGenerator.expand.
  destruct (SLRGenerator.itemKey _ _) as [k | e |]; simpl; discriminate.
Qed.

Lemma lr1_expand_throws (this : LR1Generator.This) (fs : list (option string)) (item : Item)
  (acc r : list Item * list Item) (p : nat) :
  LR1Generator.expand this fs item acc p <> Ok r.
Proof.
  unfold LR1Generator.expand.
  destruct (LR1Generator.itemKey _ _) as [k | e |]; simpl; discriminate.
Qed.

(** A loop whose body never completes completes only over nothing. *)
Lemma foldM_throwing {A S : Type} (f : S -> A -> outcome S) (l : list A) (s r : S) :
  (forall s x r, f s x <> Ok r) -> foldM f l s = Ok r -> l = [] /\ r = s.
Proof.
  intros Hf. destruct l as [| x l]; simpl.
  - intros H; inversion H; auto.
  - destruct (f s x) as [s1 | e |] eqn:E; simpl; try discriminate.
    exfalso. exact (Hf _ _ _ E).
Qed.

(** When [closure] returns, it returns the items it was given. *)
Lemma slr_closure_loop_returns_closure (this : Base) (fuel : nat) :
  forall c q st, SLRGenerator.closure_loop fuel this c q = Ok st -> st = c.
Proof.
  induction fuel as [| fuel IH]; simpl; intros c q st; [discriminate |].
  destruct q as [| item rest]; [intros H; inversion H; auto |].
  destruct (SLRGenerator.destructure _) as [d | e |]; simpl; try discriminate.
  destruct (nth_error (snd d) (dotPosition item)) as [sym |]; [| apply IH].
  destruct (String.eqb sym ""); [apply IH |].
  destruct (BaseGenerator.nt_has _ _) as [isnt | e |]; simpl; try discriminate.
  destruct isnt; simpl; [| apply IH].
  destruct (foldM _ _ _) as [acc | e |] eqn:E; simpl; try discriminate.
  apply foldM_throwing in E; [| intros; apply slr_expand_throws].
  destruct E as (_ & ->). simpl. apply IH.
Qed.

Lemma lr1_closure_loop_returns_closure (this : LR1Generator.This) (fuel : nat) :
  forall c q st, LR1Generator.closure_loop fuel this c q = Ok st -> st = c.
Proof.
  induction fuel as [| fuel IH]; simpl; intros c q st; [discriminate |].
  destruct q as [| item rest]; [intros H; inversion H; auto |].
  destruct (LR1Generator.handle_of _) as [h | e |]; simpl; try discriminate.
  destruct (nth_error h (dotPosition item)) as [sym |]; [| apply IH].
  destruct (_ || _); [apply IH |].
  destruct (foldM _ _ _) as [acc | e |] eqn:E; simpl; try discriminate.
  apply foldM_throwing in E; [| intros; apply lr1_expand_throws].
  destruct E as (_ & ->). simpl. apply IH.
Qed.








(** On the grammar of the test suite [closure] meets the nonterminal [B]
    after the dot and stops on the [TypeError] of [hasItem]: the build does
    not complete. *)
Lemma simpleGrammar_does_not_build (fuel : nat) :
  SLRGenerator.build (5 + fuel) simpleGrammar
  = Throw (TypeError "state.some is not a function").
Proof.
  reflexivity.
Qed.

End ClosureFacts.

(* ===================================================================== *)
(** ** Facts about the merging of states *)
(* ===================================================================== *)

Module MergeFacts.
Import Gen.
Import GenLemmas.
Import LALRGenerator.
Import Notions.
Import Examples.













End MergeFacts.

(* ===================================================================== *)
(** ** More on the parse loop and on ParserState *)
(* ===================================================================== *)

Module RuntimeMore.
Import Runtime.
Import MoreNotions.
Import Examples.
Import MoreExamples.
Import RuntimeFacts.

Section Loop.

Variable L : Type.
Variable this : Parser L.
Variable lx : Lexer L.

(** Reading the next action changes at most the pending symbol and the
    lexer. *)
Lemma fetch_frame (st st1 : PState L) (state action : tval) :
  fetch L this lx st = Ok (state, action, st1) ->
  preErrorSymbol st1 = preErrorSymbol st /\ recovering st1 = recovering st
  /\ yytext st1 = yytext st
  /\ ((st1 = st)
      \/ (symbol st = None
          /\ exists r, lex lx (lexst st) = Ok r
                       /\ symbol st1 = Some (if fst r =? 0 then EOF else fst r)
                       /\ lexst st1 = snd r)).
Proof.
  unfold fetch.
  destruct (truthy _).
  - intros H; inversion H; subst; auto.
  - destruct (symbol st) eqn:Es.
    + intros H; inversion H; subst; auto.
    + destruct (lex lx (lexst st)) as [r | e |] eqn:El; simpl; intros H;
        inversion H; subst; simpl.
      repeat split; auto. right. split; auto. exists r. auto.
Qed.

(** Read twice, the action is the same: the pending symbol stays. *)
Lemma fetch_again (st st1 : PState L) (state action : tval) :
  fetch L this lx st = Ok (state, action, st1) ->
  fetch L this lx st1 = Ok (state, action, st1).
Proof.
  unfold fetch.
  destruct (truthy (default_of L this
                      match from_top (stack st) 1 with Some s => s | None => TUndef end))
    eqn:Et.
  - intros H; inversion H; subst. rewrite Et. reflexivity.
  - destruct (symbol st) eqn:Es.
    + intros H; inversion H; subst. rewrite Et, Es. reflexivity.
    + destruct (lex lx (lexst st)) as [r | e |] eqn:El; simpl; intros H;
        inversion H; subst; simpl. rewrite Et. reflexivity.
Qed.

Lemma other_kind {A : Type} (n : Z) (a b c d : A) :
  n <> 1 -> n <> 2 -> n <> 3 ->
  match n with 1 => a | 2 => b | 3 => c | _ => d end = d.
Proof.
  intros H1 H2 H3.
  destruct n as [| p | p]; try reflexivity.
  destruct p as [[p | p |] | [p | p |] |]; try reflexivity; contradiction.
Qed.

(** What a turn that goes round again did to the loop variables: nothing,
    or it pushed one symbol and one state, one value and one location. *)
Lemma dispatch_next (action : tval) (st st' : PState L) :
  dispatch L this lx action st = Ok (Next st') ->
  recovering st' = recovering st /\ lexst st' = lexst st /\ yytext st' = yytext st
  /\ ((stack st' = stack st /\ vstack st' = vstack st /\ lstack st' = lstack st)
      \/ (exists a b v l, stack st' = stack st ++ [a; b]
                          /\ vstack st' = vstack st ++ [v]
                          /\ lstack st' = lstack st ++ [l]))
  /\ (preErrorSymbol st = None -> preErrorSymbol st' = None /\ symbol st' = symbol st).
Proof.
  assert (Hsame : forall s : PState L,
             recovering s = recovering s /\ lexst s = lexst s /\ yytext s = yytext s
             /\ ((stack s = stack s /\ vstack s = vstack s /\ lstack s = lstack s)
                 \/ (exists a b v l, stack s = stack s ++ [a; b]
                                     /\ vstack s = vstack s ++ [v]
                                     /\ lstack s = lstack s ++ [l]))
             /\ (preErrorSymbol s = None -> preErrorSymbol s = None /\ symbol s = symbol s)).
  { intros s. refine (conj eq_refl (conj eq_refl (conj eq_refl (conj _ _)))); auto. }
  unfold dispatch.
  destruct action as [| n | l]; try discriminate.
  - simpl. intros H; inversion H; subst. apply Hsame.
  - destruct (multiple_actions (TArr l)); try discriminate.
    destruct (elem (TArr l) 0) as [| n | l0] eqn:Ee.
    + intros H; inversion H; subst. apply Hsame.
    + destruct (Z.eq_dec n 1) as [-> | N1].
      * unfold do_shift.
        destruct (preErrorSymbol st) as [k |] eqn:Ep; try discriminate.
        destruct (k =? 0); try discriminate.
        intros H; inversion H; subst; simpl.
        refine (conj eq_refl (conj eq_refl (conj eq_refl (conj _ _)))).
        -- right. repeat eexists. rewrite <- app_assoc. reflexivity.
        -- discriminate.
      * destruct (Z.eq_dec n 2) as [-> | N2].
        -- unfold do_reduce.
           destruct (match as_index (elem (TArr l) 1) with
                     | Some p => at_ (productions_ this) p
                     | None => None
                     end) as [[lhs len] |]; try discriminate.
           destruct (reduce_loc L lx len st) as [loc | e |]; simpl; try discriminate.
           destruct (performAction this) as [f |]; try discriminate.
           destruct (f _) as [out | e |]; simpl; try discriminate.
           destruct (o_ret out); try discriminate.
           destruct (len =? 0)%nat; try discriminate.
           destruct (row_of _ _ _) as [row |]; try discriminate.
           intros H; inversion H; subst; simpl.
           refine (conj eq_refl (conj eq_refl (conj eq_refl (conj _ _)))).
           ++ right. repeat eexists. rewrite <- app_assoc. reflexivity.
           ++ auto.
        -- destruct (Z.eq_dec n 3) as [-> | N3]; [discriminate |].
           rewrite (other_kind n _ _ _ (Ok (Next st)) N1 N2 N3).
           intros H; inversion H; subst. apply Hsame.
    + intros H; inversion H; subst. apply Hsame.
Qed.

(** A turn of the loop either leaves through dispatch or does not complete. *)
Lemma iteration_next (st st' : PState L) :
  iteration L this lx st = Ok (Next st') ->
  exists state action st1,
    fetch L this lx st = Ok (state, action, st1)
    /\ no_action action = false
    /\ dispatch L this lx action st1 = Ok (Next st').
Proof.
  intros H.
  destruct (fetch L this lx st) as [[[state action] st1] | e |] eqn:Ef;
    try (unfold iteration in H; rewrite Ef in H; simpl in H; discriminate).
  exists state, action, st1. split; [reflexivity |].
  destruct (no_action action) eqn:En.
  - exfalso. exact (iteration_without_action L this lx st st1 state action _ Ef En H).
  - split; [reflexivity |].
    rewrite <- (iteration_dispatch L this lx st st1 state action Ef En). exact H.
Qed.

(** X1.  No Shift completes while no symbol is set aside for recovery: the loop
    assigns to the constant [yyloc]. *)
Theorem shift_raises (st st1 : PState L) (state action : tval) (fuel : nat) :
  fetch L this lx st = Ok (state, action, st1) ->
  elem action 0 = TNum ParserActions.SHIFT ->
  preErrorSymbol st = None ->
  exists msg, loop L this lx (S fuel) st = Throw (TypeError msg).
Proof.
  intros Hf He Hp.
  assert (Hn : ParserActions.SHIFT <> 0) by discriminate.
  destruct (numbered_action action _ He Hn) as (Hna & _ & _).
  destruct (fetch_frame st st1 state action Hf) as (Hp1 & _).
  simpl. rewrite (iteration_dispatch L this lx st st1 state action Hf Hna).
  rewrite (dispatch_numbered L this lx st1 action _ He Hn).
  unfold ParserActions.SHIFT, do_shift. rewrite Hp1, Hp. eexists. reflexivity.
Qed.

(** X2.  A Reduce of a production with a right-hand side that is not empty
    never completes when the action returns nothing: the loop assigns to
    the constant [stack]. *)
Theorem reduce_of_nonempty_raises
  (st st1 : PState L) (state action : tval) (fuel : nat)
  (p lhs : Z) (len : nat) (loc : Loc) (f : ActionArgs -> outcome ActionOut)
  (out : ActionOut) :
  fetch L this lx st = Ok (state, action, st1) ->
  elem action 0 = TNum ParserActions.REDUCE ->
  as_index (elem action 1) = Some p ->
  at_ (productions_ this) p = Some (lhs, S len) ->
  reduce_loc L lx (S len) st1 = Ok loc ->
  performAction this = Some f ->
  f (action_args L action (S len) loc st1) = Ok out ->
  o_ret out = JUndef ->
  exists msg, loop L this lx (S fuel) st = Throw (TypeError msg).
Proof.
  intros Hf He Hp Hprod Hloc Hact Hout Hret.
  assert (Hn : ParserActions.REDUCE <> 0) by discriminate.
  destruct (numbered_action action _ He Hn) as (Hna & _ & _).
  simpl. rewrite (iteration_dispatch L this lx st st1 state action Hf Hna).
  rewrite (dispatch_numbered L this lx st1 action _ He Hn).
  unfold ParserActions.REDUCE, do_reduce.
  rewrite Hp, Hprod, Hloc. simpl. rewrite Hact, Hout. simpl. rewrite Hret.
  eexists. reflexivity.
Qed.

Lemma in_step_kept (st st' : PState L) :
  iteration L this lx st = Ok (Next st') ->
  in_step st -> in_step st'.
Proof.
  intros H (H1 & H2).
  destruct (iteration_next st st' H) as (state & action & st1 & Hf & _ & Hd).
  destruct (fetch_stacks L this lx st st1 state action Hf) as (Es & Ev & El).
  destruct (dispatch_next action st1 st' Hd) as (_ & _ & _ & Hst & _).
  unfold in_step.
  destruct Hst as [(-> & -> & ->) | (a & b & v & l & -> & -> & ->)];
    rewrite Es, Ev, El; [auto |].
  rewrite !length_app. simpl. lia.
Qed.

(** X3.  Every turn of the loop that goes round again keeps the three stacks in
    step: it pushes nothing, or one symbol and one state with one value and
    one location. *)
Theorem stacks_stay_in_step (st st' : PState L) :
  iteration L this lx st = Ok (Next st') ->
  in_step st -> in_step st'.
Proof.
  exact (in_step_kept st st').
Qed.

(** X4.  An action whose first element is a number other than 0, 1, 2 and 3
    changes nothing, so the loop meets it again for ever. *)
Theorem unknown_action_spins (st st1 : PState L) (state action : tval) (n : Z) :
  fetch L this lx st = Ok (state, action, st1) ->
  elem action 0 = TNum n ->
  n <> 0 -> n <> ParserActions.SHIFT -> n <> ParserActions.REDUCE ->
  n <> ParserActions.ACCEPT ->
  forall fuel, loop L this lx fuel st = OutOfFuel.
Proof.
  intros Hf He H0 H1 H2 H3 fuel.
  destruct (numbered_action action _ He H0) as (Hna & _ & _).
  assert (Hit : forall s, fetch L this lx s = Ok (state, action, st1) ->
                          iteration L this lx s = Ok (Next st1)).
  { intros s Hs. rewrite (iteration_dispatch L this lx s st1 state action Hs Hna).
    rewrite (dispatch_numbered L this lx st1 action _ He H0).
    apply other_kind; assumption. }
  pose proof (fetch_again st st1 state action Hf) as Hf1.
  destruct fuel as [| fuel]; [reflexivity |].
  simpl. rewrite (Hit st Hf). clear Hf.
  induction fuel as [| fuel IH]; [reflexivity |].
  simpl. rewrite (Hit st1 Hf1). exact IH.
Qed.

(** X5.  A cell that holds several actions, the first of them an array, stops
    the parse with a [ParserError]. *)
Theorem conflicting_cell_raises
  (st st1 : PState L) (state : tval) (a0 : list tval) (a1 : tval) (rest : list tval)
  (fuel : nat) :
  fetch L this lx st = Ok (state, TArr (TArr a0 :: a1 :: rest), st1) ->
  exists msg, loop L this lx (S fuel) st = Throw (ParserError msg).
Proof.
  intros Hf. simpl.
  rewrite (iteration_dispatch L this lx st st1 state _ Hf eq_refl).
  eexists. reflexivity.
Qed.

(** X6.  Once the action is missing (no entry, an empty entry, or one that
    starts with 0), [parse] returns no value, whatever the error callback
    does. *)
Theorem missing_action_never_returns
  (st st1 : PState L) (state action : tval) (fuel : nat) (v : jsval) :
  fetch L this lx st = Ok (state, action, st1) ->
  no_action action = true ->
  loop L this lx fuel st <> Ok v.
Proof.
  intros Hf Hn. destruct fuel as [| fuel]; simpl; [discriminate |].
  destruct (iteration L this lx st) as [[s | s] | e |] eqn:E; try discriminate;
    exfalso; exact (iteration_without_action L this lx st st1 state action _ Hf Hn E).
Qed.

(** X7.  However long the loop runs on an input, error recovery is never
    active and the lexer is asked for one token at most. *)
Theorem loop_reads_one_token (input : string) (n : nat) (st : PState L) :
  run this lx n (initial L lx input) = Some st ->
  recovering st = 0 /\ preErrorSymbol st = None /\ yytext st = JStr ""
  /\ at_most_one_token lx input st /\ in_step st.
Proof.
  assert (Hgen : forall n s,
             (recovering s = 0 /\ preErrorSymbol s = None /\ yytext s = JStr ""
              /\ at_most_one_token lx input s /\ in_step s) ->
             run this lx n s = Some st ->
             recovering st = 0 /\ preErrorSymbol st = None /\ yytext st = JStr ""
             /\ at_most_one_token lx input st /\ in_step st).
  { clear n. induction n as [| n IH]; simpl; intros s Hs H.
    - inversion H; subst; exact Hs.
    - destruct (iteration L this lx s) as [[s' | v] | e |] eqn:E; try discriminate.
      apply (IH s'); [| exact H].
      destruct Hs as (Hr & Hp & Hy & Ht & Hi).
      destruct (iteration_next s s' E) as (state & action & s1 & Hf & _ & Hd).
      destruct (fetch_frame s s1 state action Hf) as (Hp1 & Hr1 & Hy1 & Hcase).
      destruct (dispatch_next action s1 s' Hd) as (Hr' & Hl' & Hy' & _ & Hpre).
      rewrite Hp1, Hp in Hpre. destruct (Hpre eq_refl) as (Hp' & Hs').
      repeat split.
      + rewrite Hr', Hr1. exact Hr.
      + exact Hp'.
      + rewrite Hy', Hy1. exact Hy.
      + unfold at_most_one_token. rewrite Hs', Hl'.
        destruct Hcase as [-> | (Hnone & r & Hlex & Hsym & Hlst)]; [exact Ht |].
        destruct Ht as [(_ & Hl0) | (r0 & _ & Hsome & _)].
        * right. exists r. rewrite <- Hl0. auto.
        * rewrite Hnone in Hsome. discriminate.
      + exact (proj1 (in_step_kept s s' E Hi)).
      + exact (proj2 (in_step_kept s s' E Hi)). }
  intros H. apply (Hgen n (initial L lx input)); [| exact H].
  unfold initial, at_most_one_token, in_step. simpl. repeat split; auto.
Qed.

End Loop.

(** Witness of [shift_raises]: the shifting parser on the token 5. *)
Lemma shift_raises_witness :
  exists msg,
    loop (list Z) shifting_parser (list_lexer [5]) 1 (initial (list Z) (list_lexer [5]) "")
    = Throw (TypeError msg).
Proof.
  apply (shift_raises (list Z) shifting_parser (list_lexer [5])
           (initial (list Z) (list_lexer [5]) "")
           (mkPState (list Z) [TNum 0] [JNull] [empty_loc] (Some 5) None 0 (JStr "") 0 0
                     empty_loc [])
           (TNum 0) (TArr [TNum ParserActions.SHIFT; TNum 1]) 0%nat);
    reflexivity.
Defined.

(** Witness of [reduce_of_nonempty_raises]: the popping parser. *)
Lemma reduce_of_nonempty_raises_witness :
  exists msg,
    loop (list Z) popping_parser (list_lexer []) 1 (initial (list Z) (list_lexer []) "")
    = Throw (TypeError msg).
Proof.
  apply (reduce_of_nonempty_raises (list Z) popping_parser (list_lexer [])
           (initial (list Z) (list_lexer []) "") at_eof
           (TNum 0) (TArr [TNum ParserActions.REDUCE; TNum 0]) 0%nat
           0 3 0%nat empty_loc silent_action (mkOut JUndef JNull empty_loc));
    reflexivity.
Defined.

(** Witness of [stacks_stay_in_step]: the first turn of the stepping
    parser. *)
Lemma stacks_stay_in_step_witness : in_step after_step.
Proof.
  apply (stacks_stay_in_step (list Z) stepping_parser (list_lexer [])
           (initial (list Z) (list_lexer []) "") after_step).
  - reflexivity.
  - unfold in_step. simpl. split; reflexivity.
Defined.

(** Witness of [unknown_action_spins]: the default action [[7]]. *)
Lemma unknown_action_spins_witness :
  loop (list Z) spinning_parser (list_lexer []) 9 (initial (list Z) (list_lexer []) "")
  = OutOfFuel.
Proof.
  apply (unknown_action_spins (list Z) spinning_parser (list_lexer [])
           (initial (list Z) (list_lexer []) "") (initial (list Z) (list_lexer []) "")
           (TNum 0) (TArr [TNum 7]) 7);
    try reflexivity; discriminate.
Defined.

(** Witness of [conflicting_cell_raises]: two actions under end of input. *)
Lemma conflicting_cell_raises_witness :
  exists msg,
    loop (list Z) conflicting_parser (list_lexer []) 1 (initial (list Z) (list_lexer []) "")
    = Throw (ParserError msg).
Proof.
  apply (conflicting_cell_raises (list Z) conflicting_parser (list_lexer [])
           (initial (list Z) (list_lexer []) "") at_eof (TNum 0)
           [TNum 1; TNum 2] (TArr [TNum 2; TNum 0]) [] 0%nat).
  reflexivity.
Defined.

(** Witness of [missing_action_never_returns]: the token 5 in state 0 of
    the recovering parser. *)
Lemma missing_action_never_returns_witness :
  loop (list Z) (recovering_parser None) (list_lexer [5]) 3
       (initial (list Z) (list_lexer [5]) "")
  <> Ok (JBool true).
Proof.
  apply (missing_action_never_returns (list Z) (recovering_parser None) (list_lexer [5])
           (initial (list Z) (list_lexer [5]) "")
           (mkPState (list Z) [TNum 0] [JNull] [empty_loc] (Some 5) None 0 (JStr "") 0 0
                     empty_loc [])
           (TNum 0) TUndef 3%nat (JBool true));
    reflexivity.
Defined.

(** Witness of [loop_reads_one_token]: the stepping parser after one
    turn. *)
Lemma loop_reads_one_token_witness :
  recovering after_step = 0 /\ preErrorSymbol after_step = None
  /\ yytext after_step = JStr ""
  /\ at_most_one_token (list_lexer []) "" after_step /\ in_step after_step.
Proof.
  apply (loop_reads_one_token (list Z) stepping_parser (list_lexer []) "" 1%nat after_step).
  reflexivity.
Defined.

(** X8.  [popStack(n)] takes back what [n] shifts pushed: of [Parser.parse], two
    entries of the state stack and one of each other stack per shift; of
    [ParserState], the same, leaving the symbol stack as it is.  It raises
    a [RangeError], and only that, when a stack is too short. *)
Theorem popStack_undoes_pushes :
  (forall (L : Type) (st : PState L) (n : nat)
          (pairs : list tval) (values : list jsval) (locations : list Loc),
      List.length pairs = (2 * n)%nat ->
      List.length values = n ->
      List.length locations = n ->
      popStack L (DNum n)
               (mkPState L (stack st ++ pairs) (vstack st ++ values) (lstack st ++ locations)
                         (symbol st) (preErrorSymbol st) (recovering st)
                         (yytext st) (yyleng st) (yylineno st) (yyloc st) (lexst st))
      = Ok st)
  /\ (forall (s : ParserState.t) (n : nat)
             (pairs : list tval) (values : list jsval) (locations : list Loc),
         List.length pairs = (2 * n)%nat ->
         List.length values = n ->
         List.length locations = n ->
         ParserState.popStack
           (ParserState.mk (ParserState.stack s ++ pairs) (ParserState.symbolStack s)
                           (ParserState.valueStack s ++ values)
                           (ParserState.locationStack s ++ locations)
                           (ParserState.recovering s) (ParserState.preErrorSymbol s))
           n
         = Ok s)
  /\ (forall (s : ParserState.t) (n : nat),
         (exists msg, ParserState.popStack s n = Throw (RangeError msg))
         <-> (List.length (ParserState.stack s) < 2 * n
              \/ List.length (ParserState.valueStack s) < n
              \/ List.length (ParserState.locationStack s) < n)%nat)
  /\ (forall (s s' : ParserState.t) (n : nat),
         ParserState.popStack s n = Ok s' ->
         ParserState.symbolStack s' = ParserState.symbolStack s
         /\ (List.length (ParserState.stack s') + 2 * n
             = List.length (ParserState.stack s))%nat
         /\ (List.length (ParserState.valueStack s') + n
             = List.length (ParserState.valueStack s))%nat).
Proof.
  assert (Hcut : forall (A : Type) (l m : list A) (k : nat),
             List.length m = k -> firstn (List.length (l ++ m) - k) (l ++ m) = l).
  { intros A l m k Hm. rewrite length_app, Hm, Nat.add_sub.
    rewrite firstn_app, Nat.sub_diag, firstn_all. simpl. apply app_nil_r. }
  assert (Hlt : forall (A : Type) (l m : list A) (k : nat),
             List.length m = k -> (List.length (l ++ m) <? k)%nat = false).
  { intros A l m k Hm. apply Nat.ltb_ge. rewrite length_app. lia. }
  split; [| split; [| split]].
  - intros L st n pairs values locations Hp Hv Hl. unfold popStack.
    cbn [stack vstack lstack symbol preErrorSymbol recovering yytext yyleng yylineno
         yyloc lexst].
    rewrite (Hlt _ (stack st) pairs _ Hp), (Hlt _ (vstack st) values _ Hv),
      (Hlt _ (lstack st) locations _ Hl). cbn [orb].
    rewrite (Hcut _ (stack st) pairs _ Hp), (Hcut _ (vstack st) values _ Hv),
      (Hcut _ (lstack st) locations _ Hl).
    destruct st; reflexivity.
  - intros s n pairs values locations Hp Hv Hl. unfold ParserState.popStack.
    cbn [ParserState.stack ParserState.symbolStack ParserState.valueStack
         ParserState.locationStack ParserState.recovering ParserState.preErrorSymbol].
    rewrite (Hlt _ (ParserState.stack s) pairs _ Hp),
      (Hlt _ (ParserState.valueStack s) values _ Hv),
      (Hlt _ (ParserState.locationStack s) locations _ Hl). cbn [orb].
    rewrite (Hcut _ (ParserState.stack s) pairs _ Hp),
      (Hcut _ (ParserState.valueStack s) values _ Hv),
      (Hcut _ (ParserState.locationStack s) locations _ Hl).
    destruct s; reflexivity.
  - intros s n. unfold ParserState.popStack.
    destruct (Nat.ltb_spec (List.length (ParserState.stack s)) (2 * n));
      destruct (Nat.ltb_spec (List.length (ParserState.valueStack s)) n);
      destruct (Nat.ltb_spec (List.length (ParserState.locationStack s)) n);
      simpl; split;
      try (intros _; eexists; reflexivity);
      try (intros _; lia);
      try (intros [msg Hm]; discriminate);
      try (intros [? | [? | ?]]; lia).
  - intros s s' n. unfold ParserState.popStack.
    destruct (Nat.ltb_spec (List.length (ParserState.stack s)) (2 * n));
      destruct (Nat.ltb_spec (List.length (ParserState.valueStack s)) n);
      destruct (Nat.ltb_spec (List.length (ParserState.locationStack s)) n);
      simpl; try discriminate.
    intros H'. inversion H'; subst; simpl. rewrite !length_firstn. repeat split; lia.
Qed.

(** Witness of [popStack_undoes_pushes]: one shift on a fresh state. *)
Lemma popStack_undoes_pushes_witness :
  ParserState.popStack
    (ParserState.pushLocation
       (ParserState.pushValue
          (ParserState.pushState (ParserState.pushState ParserState.new (TNum 5)) (TNum 1))
          (JStr "x"))
       empty_loc)
    1
  = Ok ParserState.new.
Proof.
  apply (proj1 (proj2 popStack_undoes_pushes) ParserState.new 1%nat
           [TNum 5; TNum 1] [JStr "x"] [empty_loc]); reflexivity.
Defined.

End RuntimeMore.

(* ===================================================================== *)
(** ** Further facts about the generators *)
(* ===================================================================== *)

Module GeneratorMore.
Import Gen.
Import BaseGenerator.
Import GenLemmas.
Import GenNotions.
Import Examples.
Import GenExamples.

Lemma set_has_In (s : list string) (x : string) : set_has s x = true <-> In x s.
Proof.
  unfold set_has. rewrite existsb_exists. split.
  - intros (y & Hy & E). apply String.eqb_eq in E. subst; auto.
  - intros H. exists x. split; auto. apply String.eqb_refl.
Qed.

Lemma set_has_false (s : list string) (x : string) : set_has s x = false <-> ~ In x s.
Proof.
  rewrite <- set_has_In. destruct (set_has s x); split; congruence.
Qed.

Lemma set_add_In (s : list string) (x y : string) : In y (set_add s x) <-> In y s \/ y = x.
Proof.
  unfold set_add. destruct (set_has s x) eqn:E.
  - apply set_has_In in E. split; [auto | intros [H | ->]; auto].
  - rewrite in_app_iff. simpl. split.
    + intros [H | [H | []]]; auto.
    + intros [H | ->]; auto.
Qed.

Lemma map_get_set_eq {A : Type} (m : list (string * A)) (k : string) (v : A) :
  map_get (map_set m k v) k = Some v.
Proof.
  induction m as [| [k' v'] m IH]; simpl.
  - rewrite String.eqb_refl. reflexivity.
  - destruct (String.eqb_spec k' k) as [-> | Hne]; simpl.
    + rewrite String.eqb_refl. reflexivity.
    + destruct (String.eqb_spec k' k); [contradiction | exact IH].
Qed.

Lemma map_get_set_neq {A : Type} (m : list (string * A)) (k k' : string) (v : A) :
  k <> k' -> map_get (map_set m k v) k' = map_get m k'.
Proof.
  intros Hne. induction m as [| [k1 v1] m IH]; simpl.
  - destruct (String.eqb_spec k k'); [contradiction | reflexivity].
  - destruct (String.eqb_spec k1 k) as [-> | Hne1]; simpl.
    + destruct (String.eqb_spec k k'); [contradiction | reflexivity].
    + destruct (String.eqb_spec k1 k'); [reflexivity | exact IH].
Qed.

Lemma fold_map_set_get {A : Type} (f : string -> A) (l : list string) :
  forall m k, map_get (fold_left (fun fs t => map_set fs t (f t)) l m) k
              = if set_has l k then Some (f k) else map_get m k.
Proof.
  induction l as [| x l IH]; intros m k; simpl; [reflexivity |].
  rewrite IH. unfold set_has. simpl. fold (set_has l k).
  destruct (set_has l k); [rewrite orb_true_r; reflexivity |].
  rewrite orb_false_r.
  destruct (String.eqb_spec k x) as [-> | Hne].
  - apply map_get_set_eq.
  - apply map_get_set_neq. congruence.
Qed.

(** *** FIRST of a sequence of symbols *)

Lemma scan_step_In (symbolFirst : list string) :
  forall result s,
    In s (fold_left (fun r s => if String.eqb s "" then r else set_add r s) symbolFirst result)
    <-> In s result \/ (In s symbolFirst /\ s <> "").
Proof.
  induction symbolFirst as [| x l IH]; intros result s; simpl.
  - tauto.
  - rewrite IH. destruct (String.eqb_spec x "") as [-> | Hne].
    + split.
      * intros [H | (H & Hs)]; auto.
      * intros [H | ([<- | H] & Hs)]; auto. contradiction.
    + rewrite set_add_In. split.
      * intros [[H | ->] | (H & Hs)]; auto.
      * intros [H | ([<- | H] & Hs)]; auto.
Qed.

Lemma first_scan_empty (fs : SetMap) :
  forall symbols result,
    ~ In "" result ->
    (In "" (first_scan fs symbols result) <-> forallb (vanishes fs) symbols = true).
Proof.
  induction symbols as [| sym rest IH]; intros result Hno; simpl.
  - rewrite set_add_In. tauto.
  - unfold vanishes at 1. destruct (map_get fs sym) as [f |]; [| apply IH; exact Hno].
    assert (Hno1 : ~ In "" (fold_left (fun r s => if String.eqb s "" then r else set_add r s)
                                      f result)).
    { rewrite scan_step_In. intros [H | (_ & H)]; auto. }
    destruct (set_has f ""); simpl.
    + apply IH. exact Hno1.
    + split; [contradiction | discriminate].
Qed.

Lemma first_scan_spec (fs : SetMap) :
  forall symbols result s,
    s <> "" ->
    (In s (first_scan fs symbols result)
     <-> In s result
         \/ exists pre sym post set,
              symbols = pre ++ sym :: post
              /\ forallb (vanishes fs) pre = true
              /\ map_get fs sym = Some set
              /\ In s set).
Proof.
  induction symbols as [| sym0 rest IH]; intros result s Hs; simpl.
  - rewrite set_add_In. split.
    + intros [H | H]; [auto | contradiction].
    + intros [H | (pre & sym & post & set & E & _)]; auto.
      destruct pre; discriminate.
  - destruct (map_get fs sym0) as [f |] eqn:Ef.
    + assert (Hstep : forall r1,
                 (In s r1 \/ exists pre sym post set,
                      rest = pre ++ sym :: post /\ forallb (vanishes fs) pre = true
                      /\ map_get fs sym = Some set /\ In s set) ->
                 set_has f "" = true ->
                 (In s r1 <-> In s result \/ (In s f /\ s <> "")) ->
                 In s result
                 \/ exists pre sym post set,
                      sym0 :: rest = pre ++ sym :: post /\ forallb (vanishes fs) pre = true
                      /\ map_get fs sym = Some set /\ In s set).
      { intros r1 [H | (pre & sym & post & set & E & Hp & Hg & Hin)] Hv Hr1.
        - apply Hr1 in H. destruct H as [H | (H & _)]; auto.
          right. exists [], sym0, rest, f. auto.
        - right. exists (sym0 :: pre), sym, post, set. subst rest. simpl.
          unfold vanishes at 1. rewrite Ef, Hv. auto. }
      destruct (set_has f "") eqn:Hv.
      * rewrite (IH _ s Hs). split.
        -- intros H. exact (Hstep _ H eq_refl (scan_step_In f result s)).
        -- intros [H | (pre & sym & post & set & E & Hp & Hg & Hin)].
           ++ left. apply scan_step_In. auto.
           ++ destruct pre as [| p0 pre]; simpl in E; inversion E; subst.
              ** left. apply scan_step_In. right. split; congruence.
              ** right. exists pre, sym, post, set. simpl in Hp.
                 apply andb_true_iff in Hp. tauto.
      * rewrite scan_step_In. split.
        -- intros [H | (H & _)]; auto. right. exists [], sym0, rest, f. auto.
        -- intros [H | (pre & sym & post & set & E & Hp & Hg & Hin)]; auto.
           destruct pre as [| p0 pre]; simpl in E; inversion E; subst.
           ++ right. split; congruence.
           ++ simpl in Hp. unfold vanishes at 1 in Hp. rewrite Ef, Hv in Hp. discriminate.
    + rewrite (IH _ s Hs). split.
      * intros [H | (pre & sym & post & set & E & Hp & Hg & Hin)]; auto.
        right. exists (sym0 :: pre), sym, post, set. subst rest. simpl.
        unfold vanishes at 1. rewrite Ef. auto.
      * intros [H | (pre & sym & post & set & E & Hp & Hg & Hin)]; auto.
        destruct pre as [| p0 pre]; simpl in E; inversion E; subst.
        -- congruence.
        -- right. exists pre, sym, post, set. simpl in Hp.
           apply andb_true_iff in Hp. tauto.
Qed.

(** X9.  [computeRemainingFirst(symbols)] of BaseGenerator and
    [computeProductionFirst(handle)] of SLRGenerator compute the same set.
    It holds the empty string exactly when every symbol of the sequence
    has no FIRST set or a FIRST set with the empty string; it holds another
    string exactly when that string is in the FIRST set of a symbol before
    which all symbols are of that kind. *)
Theorem first_of_sequence (this : Base) (symbols : list string) :
  computeRemainingFirst this symbols
  = SLRGenerator.computeProductionFirst (firstSets this) symbols
  /\ (In "" (computeRemainingFirst this symbols)
      <-> forallb (vanishes (firstSets this)) symbols = true)
  /\ (forall s,
        s <> "" ->
        (In s (computeRemainingFirst this symbols)
         <-> exists pre sym post set,
              symbols = pre ++ sym :: post
              /\ forallb (vanishes (firstSets this)) pre = true
              /\ map_get (firstSets this) sym = Some set
              /\ In s set)).
Proof.
  assert (E : computeRemainingFirst this symbols
              = SLRGenerator.computeProductionFirst (firstSets this) symbols).
  { destruct symbols; reflexivity. }
  rewrite E. unfold SLRGenerator.computeProductionFirst.
  split; [reflexivity | split].
  - apply first_scan_empty. simpl. tauto.
  - intros s Hs. rewrite (first_scan_spec _ _ _ _ Hs). simpl. tauto.
Qed.

(** Witness of [first_of_sequence]: [b] begins [A b] when [A] may vanish. *)
Lemma first_of_sequence_witness : In "b" (computeRemainingFirst first_S_Ab ["A"; "b"]).
Proof.
  apply (proj2 (proj2 (first_of_sequence first_S_Ab ["A"; "b"])) "b").
  - discriminate.
  - exists ["A"], "b", [], ["b"]. simpl. auto.
Defined.

(** *** What [processGrammar] leaves in the generator *)

Lemma collect_sets (ps : list GProduction) :
  forall (this this' : Base) (s : list string),
    nonterminals this = NtSet s ->
    foldM collect ps this = Ok this' ->
    nonterminals this' = NtSet (fold_left set_add (map g_symbol ps) s)
    /\ firstSets this' = firstSets this
    /\ followSets this' = followSets this.
Proof.
  induction ps as [| p ps IH]; intros this this' s Hs H; simpl in *.
  - inversion H; subst. auto.
  - unfold collect at 1 in H. rewrite Hs in H. simpl in H.
    apply IH with (s := set_add s (g_symbol p)) in H; [| reflexivity].
    exact H.
Qed.

Lemma fold_set_add_In (l : list string) :
  forall s x, In x (fold_left set_add l s) <-> In x s \/ In x l.
Proof.
  induction l as [| y l IH]; intros s x; simpl.
  - tauto.
  - rewrite IH, set_add_In. split.
    + intros [[H | ->] | H]; auto.
    + intros [H | [<- | H]]; auto.
Qed.

(** X10.  After [processGrammar] on an SLR generator: every left-hand side is a
    nonterminal with an empty FIRST set and an empty FOLLOW set, also when
    it is listed among the tokens; a token that is no left-hand side has
    itself as FIRST set and no FOLLOW set; no other symbol has a set. *)
Theorem processGrammar_initial_sets (g : Grammar) (b : Bnf) (this' : Base) :
  bnf g = Some b ->
  processGrammar SLRGenerator.new (GrammarObject g) = Ok this' ->
  (forall p, In p (productions_of_bnf b) ->
             map_get (firstSets this') (g_symbol p) = Some []
             /\ map_get (followSets this') (g_symbol p) = Some []
             /\ nt_has (nonterminals this') (g_symbol p) = Ok true)
  /\ (forall t, In t (tokens_of_bnf b) ->
                ~ In t (map g_symbol (productions_of_bnf b)) ->
                map_get (firstSets this') t = Some [t]
                /\ map_get (followSets this') t = None
                /\ nt_has (nonterminals this') t = Ok false)
  /\ (forall k, ~ In k (tokens_of_bnf b) ->
                ~ In k (map g_symbol (productions_of_bnf b)) ->
                map_get (firstSets this') k = None
                /\ map_get (followSets this') k = None).
Proof.
  intros Hb H. unfold processGrammar in H. simpl in H.
  unfold validateGrammar in H. rewrite Hb in H. simpl in H.
  set (this1 := match tokens b with
                | Some toks => processTokens SLRGenerator.new toks
                | None => SLRGenerator.new
                end) in H.
  assert (H1 : nonterminals this1 = NtSet []
               /\ followSets this1 = []
               /\ forall k, map_get (firstSets this1) k
                            = if set_has (tokens_of_bnf b) k then Some [k] else None).
  { unfold this1, tokens_of_bnf. destruct (tokens b) as [toks |]; simpl.
    - repeat split. intros k.
      apply (fold_map_set_get (fun t => [t]) toks [] k).
    - repeat split. }
  destruct H1 as (Hn1 & Hfo1 & Hfs1).
  assert (H2 : exists this2,
             foldM collect (productions_of_bnf b) this1 = Ok this2
             /\ nts <- nt_members (nonterminals this2) ;;
                Ok (mkBase (productions this2) (terminals this2) (nonterminals this2)
                           (fold_left (fun fs n => map_set fs n []) nts (firstSets this2))
                           (fold_left (fun fs n => map_set fs n []) nts (followSets this2)))
                = Ok this').
  { unfold productions_of_bnf. destruct (g_productions b) as [ps |].
    - destruct (foldM collect ps this1) as [this2 | e |] eqn:E; simpl in H; try discriminate.
      exists this2. auto.
    - exists this1. simpl in *. auto. }
  destruct H2 as (this2 & Hc & Hfin).
  destruct (collect_sets _ _ _ _ Hn1 Hc) as (Hn2 & Hfs2 & Hfo2).
  rewrite Hn2 in Hfin. simpl in Hfin. inversion Hfin; subst this'; clear Hfin. simpl.
  rewrite Hfs2, Hfo2, Hfo1.
  set (nts := fold_left set_add (map g_symbol (productions_of_bnf b)) []).
  assert (Hnts : forall k, set_has nts k = true <-> In k (map g_symbol (productions_of_bnf b))).
  { intros k. rewrite set_has_In. unfold nts. rewrite fold_set_add_In. simpl. tauto. }
  assert (Hget : forall (m : SetMap) k,
             map_get (fold_left (fun fs n => map_set fs n []) nts m) k
             = if set_has nts k then Some [] else map_get m k).
  { intros m k. apply (fold_map_set_get (fun _ => @nil string) nts m k). }
  split; [| split].
  - intros p Hp.
    assert (Hk : set_has nts (g_symbol p) = true) by (apply Hnts, in_map, Hp).
    rewrite !Hget, Hk. auto.
  - intros t Ht Hnot.
    assert (Hk : set_has nts t = false).
    { destruct (set_has nts t) eqn:E; auto. apply Hnts in E. contradiction. }
    rewrite !Hget, Hk, Hfs1. apply set_has_In in Ht. rewrite Ht. auto.
  - intros k Hk Hnot.
    assert (Hk1 : set_has nts k = false).
    { destruct (set_has nts k) eqn:E; auto. apply Hnts in E. contradiction. }
    rewrite !Hget, Hk1, Hfs1. apply set_has_false in Hk. rewrite Hk. auto.
Qed.

(** Witness of [processGrammar_initial_sets]: [S -> A b; A -> (empty)]. *)
Lemma processGrammar_initial_sets_witness :
  map_get (firstSets (mkBase [PPair "S" ["A"; "b"]; PPair "A" []] ["b"] (NtSet ["S"; "A"])
                             [("b", ["b"]); ("S", []); ("A", [])] [("S", []); ("A", [])]))
          "S"
  = Some [].
Proof.
  apply (proj1 (processGrammar_initial_sets grammar_S_Ab bnf_S_Ab _ eq_refl eq_refl)
           (mkGProduction "S" ["A"; "b"])).
  simpl. auto.
Defined.

(** X11.  [processGrammar] raises on a grammar given as text, and on an object
    with neither [bnf] nor [ebnf]; on a generator whose constructor set
    [this.nonterminals = {}] (LALRGenerator, LR1Generator, LLGenerator) it
    raises a [TypeError] on every other grammar. *)
Theorem processGrammar_raises (this : Base) :
  (forall s, processGrammar this (GrammarText s)
             = Throw (Error "parseGrammar() must be implemented by subclass"))
  /\ (forall g, bnf g = None -> ebnf g = false ->
                processGrammar this (GrammarObject g)
                = Throw (Error "Grammar must have either bnf or ebnf property"))
  /\ (forall g, In this object_store_generators ->
                bnf g <> None \/ ebnf g = true ->
                exists msg, processGrammar this (GrammarObject g) = Throw (TypeError msg)).
Proof.
  split; [| split].
  - reflexivity.
  - intros g Hb He. unfold processGrammar, validateGrammar. simpl. rewrite Hb, He. reflexivity.
  - intros g Hin Hg.
    assert (Hthis : this = BaseGenerator.new (NtObj [])).
    { simpl in Hin. destruct Hin as [<- | [<- | [<- | []]]]; reflexivity. }
    subst this. unfold processGrammar, validateGrammar. simpl.
    destruct (bnf g) as [b |] eqn:Hb.
    + simpl. destruct (tokens b) as [toks |]; destruct (g_productions b) as [[| p ps] |];
        simpl; eexists; reflexivity.
    + destruct Hg as [Hg | Hg]; [congruence |]. rewrite Hg. simpl. eexists; reflexivity.
Qed.

(** Witness of [processGrammar_raises]: the LALR generator on [S -> A b]. *)
Lemma processGrammar_raises_witness :
  exists msg, processGrammar LALRGenerator.new (GrammarObject grammar_S_Ab)
              = Throw (TypeError msg).
Proof.
  apply (proj2 (proj2 (processGrammar_raises LALRGenerator.new)) grammar_S_Ab).
  - simpl. auto.
  - left. discriminate.
Defined.

(** X12.  [buildTable()] of LR1Generator and of LLGenerator never completes:
    once the table is made, the call of [this.findDefaults], a method
    neither class has, raises a [TypeError]. *)
Theorem buildTable_without_findDefaults :
  (forall fuel this r, LR1Generator.buildTable fuel this <> Ok r)
  /\ (forall this r, LLGenerator.buildTable this <> Ok r)
  /\ (forall fuel this states t,
        LR1Generator.canonicalCollection fuel this = Ok states ->
        LR1Generator.parseTable this states = Ok t ->
        exists msg, LR1Generator.buildTable fuel this = Throw (TypeError msg))
  /\ (forall this t,
        LLGenerator.buildParseTable this = Ok t ->
        exists msg, LLGenerator.buildTable this = Throw (TypeError msg)).
Proof.
  split; [| split; [| split]].
  - intros fuel this r. unfold LR1Generator.buildTable.
    destruct (LR1Generator.canonicalCollection fuel this) as [sts | e |]; simpl;
      try discriminate.
    destruct (LR1Generator.parseTable this sts); simpl; discriminate.
  - intros this r. unfold LLGenerator.buildTable.
    destruct (LLGenerator.buildParseTable this); simpl; discriminate.
  - intros fuel this states t Hc Hp. unfold LR1Generator.buildTable.
    rewrite Hc. simpl. rewrite Hp. simpl. eexists; reflexivity.
  - intros this t Hp. unfold LLGenerator.buildTable. rewrite Hp. simpl.
    eexists; reflexivity.
Qed.

(** Witness of [buildTable_without_findDefaults]: LR(1) on [S -> a]. *)
Lemma buildTable_without_findDefaults_witness :
  exists msg, LR1Generator.buildTable 5 lr1_this = Throw (TypeError msg).
Proof.
  apply (proj1 (proj2 (proj2 buildTable_without_findDefaults)) 5%nat lr1_this
           [ mkState [mkItem 0 0 ["$end"]] (Some [("a", 1)]);
             mkState [mkItem 0 1 ["$end"]] None ]
           (mkTables [[("a", mkAction ParserActions.SHIFT 1)];
                      [("$end", mkAction ParserActions.REDUCE 0)]] 0 []));
    reflexivity.
Defined.

(** *** Transitions of a state *)

Lemma map_set_keys {A : Type} (m : list (string * A)) (k : string) (v : A) :
  map fst (map_set m k v)
  = match map_get m k with
    | Some _ => map fst m
    | None => map fst m ++ [k]
    end.
Proof.
  induction m as [| [k' v'] m IH]; simpl; [reflexivity |].
  destruct (String.eqb_spec k' k) as [-> | Hne]; simpl; [reflexivity |].
  rewrite IH. destruct (map_get m k); reflexivity.
Qed.

Lemma map_get_None_keys {A : Type} (m : list (string * A)) (k : string) :
  map_get m k = None <-> ~ In k (map fst m).
Proof.
  induction m as [| [k' v'] m IH]; simpl; [tauto |].
  destruct (String.eqb_spec k' k) as [-> | Hne].
  - split; [discriminate | tauto].
  - rewrite IH. tauto.
Qed.

Lemma map_set_NoDup {A : Type} (m : list (string * A)) (k : string) (v : A) :
  NoDup (map fst m) -> NoDup (map fst (map_set m k v)).
Proof.
  intros Hnd. rewrite map_set_keys. destruct (map_get m k) eqn:E; [exact Hnd |].
  apply map_get_None_keys in E.
  apply NoDup_app; auto.
  - constructor; [simpl; tauto | constructor].
  - intros a Ha [<- | []]. contradiction.
Qed.

Lemma NoDup_map_get {A : Type} (m : list (string * A)) (k : string) (v : A) :
  NoDup (map fst m) -> In (k, v) m -> map_get m k = Some v.
Proof.
  induction m as [| [k' v'] m IH]; simpl; [tauto |].
  intros Hnd [H | H].
  - inversion H; subst. rewrite String.eqb_refl. reflexivity.
  - inversion Hnd; subst.
    destruct (String.eqb_spec k' k) as [-> | _]; [| auto].
    exfalso. apply H2. apply (in_map fst _ _ H).
Qed.

Lemma movers_app (ps : list Production) (sym : string) (done : list Item) (item : Item) :
  movers ps sym (done ++ [item])
  = movers ps sym done ++ (if dot_before ps sym item then [moved item] else []).
Proof.
  unfold movers. rewrite filter_app, map_app. simpl.
  destruct (dot_before ps sym item); reflexivity.
Qed.

Lemma advance_grouped (this : Base) (done : list Item) (tr0 tr1 : list (string * list Item))
  (item : Item) :
  (NoDup (map fst tr0)
   /\ map_get tr0 "" = None
   /\ forall sym, sym <> "" ->
                  map_get tr0 sym = match movers (productions this) sym done with
                                    | [] => None
                                    | l => Some l
                                    end) ->
  SLRGenerator.advance this tr0 item = Ok tr1 ->
  NoDup (map fst tr1)
  /\ map_get tr1 "" = None
  /\ forall sym, sym <> "" ->
                 map_get tr1 sym = match movers (productions this) sym (done ++ [item]) with
                                   | [] => None
                                   | l => Some l
                                   end.
Proof.
  intros (Hnd & He & Hg) H. unfold SLRGenerator.advance in H.
  assert (Hdot : forall sym, dot_before (productions this) sym item
                             = match after_dot (productions this) item with
                               | Some s => String.eqb s sym
                               | None => false
                               end) by reflexivity.
  unfold after_dot in Hdot.
  destruct (nth_error (productions this) (production item)) as [[lhs rhs | sy h] |];
    simpl in H; try discriminate.
  destruct (nth_error rhs (dotPosition item)) as [s |] eqn:En.
  - destruct (String.eqb_spec s "") as [-> | Hs].
    + inversion H; subst tr1. refine (conj Hnd (conj He _)).
      intros sym Hsym. rewrite movers_app, Hdot.
      destruct (String.eqb_spec "" sym); [congruence |].
      rewrite app_nil_r. auto.
    + inversion H; subst tr1; clear H. split; [apply map_set_NoDup; exact Hnd | split].
      * rewrite map_get_set_neq; auto.
      * intros sym Hsym. rewrite movers_app, Hdot.
        destruct (String.eqb_spec s sym) as [-> | Hne].
        -- rewrite map_get_set_eq, (Hg sym Hsym).
           destruct (movers (productions this) sym done); reflexivity.
        -- rewrite map_get_set_neq by exact Hne. rewrite app_nil_r. auto.
  - inversion H; subst tr1. refine (conj Hnd (conj He _)).
    intros sym Hsym. rewrite movers_app, Hdot, app_nil_r. auto.
Qed.

Lemma advance_all_grouped (this : Base) (state : list Item) :
  forall (done : list Item) (tr0 tr : list (string * list Item)),
    (NoDup (map fst tr0)
     /\ map_get tr0 "" = None
     /\ forall sym, sym <> "" ->
                    map_get tr0 sym = match movers (productions this) sym done with
                                      | [] => None
                                      | l => Some l
                                      end) ->
    foldM (SLRGenerator.advance this) state tr0 = Ok tr ->
    NoDup (map fst tr)
    /\ map_get tr "" = None
    /\ forall sym, sym <> "" ->
                   map_get tr sym = match movers (productions this) sym (done ++ state) with
                                     | [] => None
                                     | l => Some l
                                     end.
Proof.
  induction state as [| item state IH]; intros done tr0 tr H0 H; simpl in H.
  - inversion H; subst. rewrite app_nil_r. exact H0.
  - destruct (SLRGenerator.advance this tr0 item) as [tr1 | e |] eqn:E; simpl in H;
      try discriminate.
    replace (done ++ item :: state) with ((done ++ [item]) ++ state)
      by (rewrite <- app_assoc; reflexivity).
    apply (IH _ tr1 tr); [| exact H].
    apply (advance_grouped this done tr0 tr1 item H0 E).
Qed.

(** X13.  [computeTransitions(state)] of SLRGenerator files, under every symbol
    but the empty string that follows the dot of an item of the state,
    exactly the items with their dot before that symbol, each with the dot
    moved over it and its lookahead kept, in the order of the state; no
    symbol is filed twice and nothing else is filed. *)
Theorem computeTransitions_groups (this : Base) (state : list Item)
  (tr : list (string * list Item)) :
  SLRGenerator.computeTransitions this state = Ok tr ->
  NoDup (map fst tr)
  /\ forall sym its,
       In (sym, its) tr
       <-> sym <> "" /\ its <> [] /\ its = movers (productions this) sym state.
Proof.
  intros H. unfold SLRGenerator.computeTransitions in H.
  destruct (advance_all_grouped this state [] [] tr) as (Hnd & He & Hg);
    [refine (conj (NoDup_nil _) (conj eq_refl _)); intros sym _; reflexivity | exact H |].
  simpl in Hg. split; [exact Hnd |].
  intros sym its. split.
  - intros Hin. pose proof (NoDup_map_get _ _ _ Hnd Hin) as Hget.
    destruct (String.eqb_spec sym "") as [-> | Hs]; [congruence |].
    rewrite (Hg sym Hs) in Hget.
    destruct (movers (productions this) sym state) as [| x l]; inversion Hget; subst.
    repeat split; auto. discriminate.
  - intros (Hs & Hne & ->). apply map_get_In. rewrite (Hg sym Hs).
    destruct (movers (productions this) sym state); [contradiction | reflexivity].
Qed.

(** Witness of [computeTransitions_groups]: the initial state of [S -> a]. *)
Lemma computeTransitions_groups_witness :
  NoDup (map fst transitions_S_a)
  /\ forall sym its,
       In (sym, its) transitions_S_a
       <-> sym <> "" /\ its <> [] /\ its = movers (productions slr_this) sym [item_S_a].
Proof.
  apply (computeTransitions_groups slr_this [item_S_a] transitions_S_a).
  reflexivity.
Defined.

(** *** The collection of states *)

Lemma set_transition_length (sts : list (State Z)) :
  forall i sym t, List.length (SLRGenerator.set_transition sts i sym t) = List.length sts.
Proof.
  induction sts as [| st sts IH]; intros [| i] sym t; simpl; auto.
Qed.

Lemma set_transition_items (P : list Item -> Prop) (sts : list (State Z)) :
  forall i sym t,
    Forall (fun st => P (items st)) sts ->
    Forall (fun st => P (items st)) (SLRGenerator.set_transition sts i sym t).
Proof.
  induction sts as [| st sts IH]; intros [| i] sym t H; simpl; auto;
    inversion H; subst; constructor; auto.
Qed.

Lemma set_transition_below (n : nat) (sts : list (State Z)) :
  forall i sym t,
    0 <= t < Z.of_nat n ->
    Forall (targets_below n) sts ->
    Forall (targets_below n) (SLRGenerator.set_transition sts i sym t).
Proof.
  induction sts as [| st sts IH]; intros [| i] sym t Ht H; simpl; auto;
    inversion H; subst; constructor; auto.
  unfold targets_below in *. simpl.
  apply (map_set_values (fun v => 0 <= v < Z.of_nat n)); auto.
  destruct (transitions st); auto.
Qed.

Lemma targets_below_mono (n m : nat) (st : State Z) :
  (n <= m)%nat -> targets_below n st -> targets_below m st.
Proof.
  unfold targets_below. intros Hle. destruct (transitions st); auto.
  apply Forall_impl. intros e He. lia.
Qed.

(** What a turn of [for (const [symbol, nextItems] of transitions)] does to
    the states and the map of their keys. *)
Lemma visit_step (acc acc' : list (State Z) * list (string * nat)) (i : nat) (sym : string)
  (nextState : list Item) (key : string) :
  match map_get (snd (match map_get (snd acc) key with
                      | Some _ => acc
                      | None => (fst acc ++ [mkState nextState None],
                                 map_set (snd acc) key (List.length (fst acc)))
                      end)) key with
  | Some idx =>
      Ok (SLRGenerator.set_transition
            (fst (match map_get (snd acc) key with
                  | Some _ => acc
                  | None => (fst acc ++ [mkState nextState None],
                             map_set (snd acc) key (List.length (fst acc)))
                  end)) i sym (Z.of_nat idx),
          snd (match map_get (snd acc) key with
               | Some _ => acc
               | None => (fst acc ++ [mkState nextState None],
                          map_set (snd acc) key (List.length (fst acc)))
               end))
  | None => Ok (match map_get (snd acc) key with
                | Some _ => acc
                | None => (fst acc ++ [mkState nextState None],
                           map_set (snd acc) key (List.length (fst acc)))
                end)
  end = Ok acc' ->
  ((0 < List.length (fst acc))%nat
   /\ (forall k idx, In (k, idx) (snd acc) -> (idx < List.length (fst acc))%nat)
   /\ targets_in_range (fst acc) ->
   (0 < List.length (fst acc'))%nat
   /\ (forall k idx, In (k, idx) (snd acc') -> (idx < List.length (fst acc'))%nat)
   /\ targets_in_range (fst acc'))
  /\ (forall P : list Item -> Prop,
         P nextState ->
         Forall (fun st => P (items st)) (fst acc) ->
         Forall (fun st => P (items st)) (fst acc')).
Proof.
  destruct acc as [sts m]. simpl.
  destruct (map_get m key) as [idx |] eqn:E; simpl.
  - rewrite E. intros H. inversion H; subst acc'; clear H. simpl. split.
    + intros (Hlen & Hmap & Hrange). rewrite set_transition_length.
      refine (conj Hlen (conj Hmap _)).
      unfold targets_in_range. rewrite set_transition_length.
      apply set_transition_below; auto.
      apply map_get_In in E. apply Hmap in E. lia.
    + intros P _ HP. apply set_transition_items. exact HP.
  - rewrite map_get_set_eq. intros H. inversion H; subst acc'; clear H. simpl. split.
    + intros (Hlen & Hmap & Hrange). rewrite set_transition_length, length_app. simpl.
      split; [lia | split].
      * intros k idx Hin. apply map_set_In in Hin.
        destruct Hin as [[_ ->] | Hin]; [lia |]. apply Hmap in Hin. lia.
      * unfold targets_in_range. rewrite set_transition_length, length_app. simpl.
        apply set_transition_below; [lia |].
        apply Forall_app. split.
        -- revert Hrange. unfold targets_in_range. apply Forall_impl.
           intros st. apply targets_below_mono. lia.
        -- constructor; [exact I | constructor].
    + intros P Hn HP. apply set_transition_items.
      apply Forall_app. split; [exact HP |]. constructor; [exact Hn | constructor].
Qed.

Lemma slr_visit_inv (fuel : nat) (this : Base) (i : nat)
  (acc acc' : list (State Z) * list (string * nat)) (tr : string * list Item) :
  SLRGenerator.visit fuel this i acc tr = Ok acc' ->
  ((0 < List.length (fst acc))%nat
   /\ (forall k idx, In (k, idx) (snd acc) -> (idx < List.length (fst acc))%nat)
   /\ targets_in_range (fst acc) ->
   (0 < List.length (fst acc'))%nat
   /\ (forall k idx, In (k, idx) (snd acc') -> (idx < List.length (fst acc'))%nat)
   /\ targets_in_range (fst acc'))
  /\ (forall P : list Item -> Prop,
         P (snd tr) ->
         Forall (fun st => P (items st)) (fst acc) ->
         Forall (fun st => P (items st)) (fst acc')).
Proof.
  unfold SLRGenerator.visit. intros H.
  destruct (SLRGenerator.closure fuel this (snd tr)) as [nextState | e |] eqn:Ec;
    simpl in H; try discriminate.
  destruct (SLRGenerator.stateKey this nextState) as [key | e |] eqn:Ek;
    simpl in H; try discriminate.
  apply ClosureFacts.slr_closure_loop_returns_closure in Ec. subst nextState.
  exact (visit_step acc acc' i (fst tr) (snd tr) key H).
Qed.

Lemma lr1_visit_inv (fuel : nat) (this : LR1Generator.This) (i : nat)
  (acc acc' : list (State Z) * list (string * nat)) (tr : string * list Item) :
  LR1Generator.visit fuel this i acc tr = Ok acc' ->
  ((0 < List.length (fst acc))%nat
   /\ (forall k idx, In (k, idx) (snd acc) -> (idx < List.length (fst acc))%nat)
   /\ targets_in_range (fst acc) ->
   (0 < List.length (fst acc'))%nat
   /\ (forall k idx, In (k, idx) (snd acc') -> (idx < List.length (fst acc'))%nat)
   /\ targets_in_range (fst acc'))
  /\ (forall P : list Item -> Prop,
         P (snd tr) ->
         Forall (fun st => P (items st)) (fst acc) ->
         Forall (fun st => P (items st)) (fst acc')).
Proof.
  unfold LR1Generator.visit. intros H.
  destruct (LR1Generator.closure fuel this (snd tr)) as [nextState | e |] eqn:Ec;
    simpl in H; try discriminate.
  destruct (LR1Generator.stateKey this nextState) as [key | e |] eqn:Ek;
    simpl in H; try discriminate.
  apply ClosureFacts.lr1_closure_loop_returns_closure in Ec. subst nextState.
  exact (visit_step acc acc' i (fst tr) (snd tr) key H).
Qed.

(** The transitions of a state with one item. *)
Lemma slr_transitions_of_one (this : Base) (it : Item) (tr : list (string * list Item)) :
  SLRGenerator.computeTransitions this [it] = Ok tr ->
  forall e, In e tr -> snd e = [moved it].
Proof.
  unfold SLRGenerator.computeTransitions. simpl. unfold SLRGenerator.advance.
  destruct (SLRGenerator.destructure (nth_error (productions this) (production it)))
    as [d | e |]; simpl; try discriminate.
  destruct (nth_error (snd d) (dotPosition it)) as [s |]; simpl.
  - destruct (String.eqb s ""); simpl; intros H; inversion H; subst; simpl.
    + tauto.
    + intros e [<- | []]. reflexivity.
  - intros H; inversion H; subst. simpl. tauto.
Qed.

Lemma lr1_transitions_of_one (this : LR1Generator.This) (it : Item)
  (tr : list (string * list Item)) :
  LR1Generator.computeTransitions this [it] = Ok tr ->
  forall e, In e tr -> snd e = [moved it].
Proof.
  unfold LR1Generator.computeTransitions. simpl. unfold LR1Generator.advance.
  destruct (LR1Generator.handle_of (nth_error (LR1Generator.productions this) (production it)))
    as [h | e |]; simpl; try discriminate.
  destruct (nth_error h (dotPosition it)) as [s |]; simpl.
  - destruct (String.eqb s ""); simpl; intros H; inversion H; subst; simpl.
    + tauto.
    + intros e [<- | []]. reflexivity.
  - intros H; inversion H; subst. simpl. tauto.
Qed.

Lemma chain_items_moved (it : Item) :
  (exists d, [it] = [mkItem 0 d [SpecialSymbols.EOF]]) ->
  exists d, [moved it] = [mkItem 0 d [SpecialSymbols.EOF]].
Proof.
  intros (d & E). inversion E; subst. exists (d + 1)%nat. reflexivity.
Qed.

Lemma slr_collect_inv (this : Base) (fuel : nat) :
  forall i states stateMap result,
    (0 < List.length states)%nat ->
    (forall k idx, In (k, idx) stateMap -> (idx < List.length states)%nat) ->
    targets_in_range states ->
    Forall chain_state states ->
    SLRGenerator.collect_states fuel this i states stateMap = Ok result ->
    (0 < List.length result)%nat /\ targets_in_range result /\ Forall chain_state result.
Proof.
  induction fuel as [| fuel IH]; intros i states stateMap result Hlen Hmap Hr Hc H;
    simpl in H; [discriminate |].
  destruct (nth_error states i) as [state |] eqn:En.
  - destruct (SLRGenerator.computeTransitions this (items state)) as [tr | e |] eqn:Et;
      simpl in H; try discriminate.
    destruct (foldM (SLRGenerator.visit fuel this i) tr (states, stateMap))
      as [acc | e |] eqn:Ef; simpl in H; try discriminate.
    assert (Hstate : chain_state state).
    { rewrite Forall_forall in Hc. apply Hc. eapply nth_error_In; eauto. }
    destruct Hstate as (d & Hd). rewrite Hd in Et.
    pose proof (slr_transitions_of_one this _ tr Et) as Hone.
    assert (Hinv : ((0 < List.length (fst acc))%nat
                    /\ (forall k idx, In (k, idx) (snd acc) ->
                                      (idx < List.length (fst acc))%nat)
                    /\ targets_in_range (fst acc))
                   /\ Forall chain_state (fst acc)).
    { apply (foldM_invariant_in
               (fun a => ((0 < List.length (fst a))%nat
                          /\ (forall k idx, In (k, idx) (snd a) ->
                                            (idx < List.length (fst a))%nat)
                          /\ targets_in_range (fst a))
                         /\ Forall chain_state (fst a))
               (SLRGenerator.visit fuel this i) tr) with (s := (states, stateMap));
        [| simpl; auto | exact Ef].
      intros a e a' He (Ha & Hca) Hv.
      destruct (slr_visit_inv _ _ _ _ _ _ Hv) as (H1 & H2). split; [auto |].
      apply (H2 (fun its => exists d, its = [mkItem 0 d [SpecialSymbols.EOF]])); auto.
      rewrite (Hone e He). apply chain_items_moved. exists d. reflexivity. }
    destruct Hinv as ((Hl & Hm & Ht) & Hch).
    apply (IH (S i) (fst acc) (snd acc) result); auto.
  - inversion H; subst. auto.
Qed.

Lemma lr1_collect_inv (this : LR1Generator.This) (fuel : nat) :
  forall i states stateMap result,
    (0 < List.length states)%nat ->
    (forall k idx, In (k, idx) stateMap -> (idx < List.length states)%nat) ->
    targets_in_range states ->
    Forall chain_state states ->
    LR1Generator.collect_states fuel this i states stateMap = Ok result ->
    (0 < List.length result)%nat /\ targets_in_range result /\ Forall chain_state result.
Proof.
  induction fuel as [| fuel IH]; intros i states stateMap result Hlen Hmap Hr Hc H;
    simpl in H; [discriminate |].
  destruct (nth_error states i) as [state |] eqn:En.
  - destruct (LR1Generator.computeTransitions this (items state)) as [tr | e |] eqn:Et;
      simpl in H; try discriminate.
    destruct (foldM (LR1Generator.visit fuel this i) tr (states, stateMap))
      as [acc | e |] eqn:Ef; simpl in H; try discriminate.
    assert (Hstate : chain_state state).
    { rewrite Forall_forall in Hc. apply Hc. eapply nth_error_In; eauto. }
    destruct Hstate as (d & Hd). rewrite Hd in Et.
    pose proof (lr1_transitions_of_one this _ tr Et) as Hone.
    assert (Hinv : ((0 < List.length (fst acc))%nat
                    /\ (forall k idx, In (k, idx) (snd acc) ->
                                      (idx < List.length (fst acc))%nat)
                    /\ targets_in_range (fst acc))
                   /\ Forall chain_state (fst acc)).
    { apply (foldM_invariant_in
               (fun a => ((0 < List.length (fst a))%nat
                          /\ (forall k idx, In (k, idx) (snd a) ->
                                            (idx < List.length (fst a))%nat)
                          /\ targets_in_range (fst a))
                         /\ Forall chain_state (fst a))
               (LR1Generator.visit fuel this i) tr) with (s := (states, stateMap));
        [| simpl; auto | exact Ef].
      intros a e a' He (Ha & Hca) Hv.
      destruct (lr1_visit_inv _ _ _ _ _ _ Hv) as (H1 & H2). split; [auto |].
      apply (H2 (fun its => exists d, its = [mkItem 0 d [SpecialSymbols.EOF]])); auto.
      rewrite (Hone e He). apply chain_items_moved. exists d. reflexivity. }
    destruct Hinv as ((Hl & Hm & Ht) & Hch).
    apply (IH (S i) (fst acc) (snd acc) result); auto.
  - inversion H; subst. auto.
Qed.

Lemma slr_collection_inv (this : Base) (fuel : nat) (states : list (State Z)) :
  SLRGenerator.canonicalCollection fuel this = Ok states ->
  (0 < List.length states)%nat /\ targets_in_range states /\ Forall chain_state states.
Proof.
  unfold SLRGenerator.canonicalCollection. intros H.
  destruct (SLRGenerator.closure fuel this [mkItem 0 0 [SpecialSymbols.EOF]])
    as [initialState | e |] eqn:Ec; simpl in H; try discriminate.
  destruct (SLRGenerator.stateKey this initialState) as [key | e |] eqn:Ek;
    simpl in H; try discriminate.
  apply ClosureFacts.slr_closure_loop_returns_closure in Ec. subst initialState.
  apply (slr_collect_inv this fuel _ _ _ _) with (5 := H); simpl.
  - lia.
  - intros k idx [E | []]. inversion E; subst. lia.
  - constructor; [exact I | constructor].
  - constructor; [exists 0%nat; reflexivity | constructor].
Qed.

Lemma lr1_collection_inv (this : LR1Generator.This) (fuel : nat) (states : list (State Z)) :
  LR1Generator.canonicalCollection fuel this = Ok states ->
  (0 < List.length states)%nat /\ targets_in_range states /\ Forall chain_state states.
Proof.
  unfold LR1Generator.canonicalCollection. intros H.
  destruct (LR1Generator.closure fuel this [mkItem 0 0 [SpecialSymbols.EOF]])
    as [initialState | e |] eqn:Ec; simpl in H; try discriminate.
  destruct (LR1Generator.stateKey this initialState) as [key | e |] eqn:Ek;
    simpl in H; try discriminate.
  apply ClosureFacts.lr1_closure_loop_returns_closure in Ec. subst initialState.
  apply (lr1_collect_inv this fuel _ _ _ _) with (5 := H); simpl.
  - lia.
  - intros k idx [E | []]. inversion E; subst. lia.
  - constructor; [exact I | constructor].
  - constructor; [exists 0%nat; reflexivity | constructor].
Qed.

(** X14.  A collection that [canonicalCollection()] of SLRGenerator or of
    LR1Generator returns is not empty, and every transition in it names a
    state of the collection. *)
Theorem collection_targets_are_states
  (this : Base) (this1 : LR1Generator.This) (fuel : nat) (states : list (State Z)) :
  SLRGenerator.canonicalCollection fuel this = Ok states
  \/ LR1Generator.canonicalCollection fuel this1 = Ok states ->
  states <> [] /\ targets_in_range states.
Proof.
  intros [H | H].
  - destruct (slr_collection_inv _ _ _ H) as (Hl & Hr & _).
    split; [intros ->; simpl in Hl; lia | exact Hr].
  - destruct (lr1_collection_inv _ _ _ H) as (Hl & Hr & _).
    split; [intros ->; simpl in Hl; lia | exact Hr].
Qed.

(** Witness of [collection_targets_are_states]: the collection of [S -> a]. *)
Lemma collection_targets_are_states_witness : slr_states <> [] /\ targets_in_range slr_states.
Proof.
  apply (collection_targets_are_states slr_this lr1_this 5%nat slr_states).
  left. reflexivity.
Defined.

(** X15.  Every state of a collection that [canonicalCollection()] of
    SLRGenerator or of LR1Generator returns holds exactly one item: an item
    of the first production, under the lookahead of the initial item.  No
    item of another production is ever in a state. *)
Theorem collection_holds_first_production_only
  (this : Base) (this1 : LR1Generator.This) (fuel : nat) (states : list (State Z)) :
  SLRGenerator.canonicalCollection fuel this = Ok states
  \/ LR1Generator.canonicalCollection fuel this1 = Ok states ->
  Forall chain_state states.
Proof.
  intros [H | H].
  - apply (slr_collection_inv _ _ _ H).
  - apply (lr1_collection_inv _ _ _ H).
Qed.

(** Witness of [collection_holds_first_production_only]: LR(1) on
    [S -> a]. *)
Lemma collection_holds_first_production_only_witness : Forall chain_state slr_states.
Proof.
  apply (collection_holds_first_production_only slr_this lr1_this 5%nat slr_states).
  right. reflexivity.
Defined.

(** *** The action table *)

Lemma reduce_on_counted (ps : list Production) (i : nat) (item : Item) (b : Building)
  (la : string) :
  counted b -> counted (reduce_on ps i item b la).
Proof.
  unfold counted, reduce_on. destruct (row_get (row b) la); simpl; auto;
    rewrite length_app; simpl; lia.
Qed.

Lemma reduce_on_keeps (ps : list Production) (i : nat) (item : Item) (b : Building)
  (la k : string) (a : Action) :
  map_get (row b) k = Some a -> map_get (row (reduce_on ps i item b la)) k = Some a.
Proof.
  intros Hk. unfold reduce_on. destruct (row_get (row b) la) eqn:E; simpl; auto.
  rewrite map_get_set_neq; auto.
  intros ->. unfold row_get in E. rewrite Hk in E. discriminate.
Qed.

Lemma slr_reduce_item_keeps (this : Base) (i : nat) (b b' : Building) (item : Item) :
  SLRGenerator.reduce_item this i b item = Ok b' ->
  (counted b -> counted b')
  /\ forall k a, map_get (row b) k = Some a -> map_get (row b') k = Some a.
Proof.
  unfold SLRGenerator.reduce_item.
  destruct (SLRGenerator.destructure (nth_error (productions this) (production item)))
    as [d | e |]; simpl; try discriminate.
  destruct (dotPosition item =? List.length (snd d))%nat; intros H; inversion H; subst; auto.
  split.
  - apply fold_left_invariant. intros s x. apply reduce_on_counted.
  - intros k a. apply (fold_left_invariant (fun b0 => map_get (row b0) k = Some a)).
    intros s x. apply reduce_on_keeps.
Qed.

Lemma lr1_reduce_item_keeps (this : LR1Generator.This) (i : nat) (b b' : Building)
  (item : Item) :
  LR1Generator.reduce_item this i b item = Ok b' ->
  (counted b -> counted b')
  /\ forall k a, map_get (row b) k = Some a -> map_get (row b') k = Some a.
Proof.
  unfold LR1Generator.reduce_item.
  destruct (LR1Generator.handle_of (nth_error (LR1Generator.productions this)
                                              (production item)))
    as [h | e |]; simpl; try discriminate.
  destruct (dotPosition item =? List.length h)%nat; intros H; inversion H; subst; auto.
  split.
  - apply fold_left_invariant. intros s x. apply reduce_on_counted.
  - intros k a. apply (fold_left_invariant (fun b0 => map_get (row b0) k = Some a)).
    intros s x. apply reduce_on_keeps.
Qed.

Lemma lalr_reduce_item_counted (ps : list Production) (i : nat) (b b' : Building)
  (item : Item) :
  LALRGenerator.reduce_item ps i b item = Ok b' -> counted b -> counted b'.
Proof.
  unfold LALRGenerator.reduce_item.
  destruct (nth_error ps (production item)) as [[lhs rhs | sy h] |]; try discriminate.
  - destruct (dotPosition item =? 2)%nat; intros H; inversion H; subst; auto.
    apply fold_left_invariant. intros s x. apply reduce_on_counted.
  - intros H; inversion H; subst; auto.
Qed.

(** A [states.forEach] that pushes one row per state. *)
Lemma rows_grow {X : Type} (g : Tables -> X -> outcome Tables) (l : list X) :
  (forall acc x acc',
      g acc x = Ok acc' ->
      (exists r, table acc' = table acc ++ [r])
      /\ (t_conflicts acc = List.length (t_resolutions acc) ->
          t_conflicts acc' = List.length (t_resolutions acc'))) ->
  forall acc t,
    foldM g l acc = Ok t ->
    (exists more, table t = table acc ++ more /\ List.length more = List.length l)
    /\ (t_conflicts acc = List.length (t_resolutions acc) ->
        t_conflicts t = List.length (t_resolutions t)).
Proof.
  intros Hg. induction l as [| x l IH]; intros acc t H; simpl in H.
  - inversion H; subst. split; [exists []; rewrite app_nil_r; auto | auto].
  - destruct (g acc x) as [acc1 | e |] eqn:E; simpl in H; try discriminate.
    destruct (Hg _ _ _ E) as ((r & Hr) & Hc).
    destruct (IH _ _ H) as ((more & Hm & Hl) & Hc1).
    split.
    + exists (r :: more). rewrite Hm, Hr, <- app_assoc. simpl. auto.
    + auto.
Qed.

Lemma row_step_grows (f : nat -> Building -> Item -> outcome Building) :
  (forall i b item b', f i b item = Ok b' -> counted b -> counted b') ->
  forall acc x acc',
    row_step f acc x = Ok acc' ->
    (exists r, table acc' = table acc ++ [r])
    /\ (t_conflicts acc = List.length (t_resolutions acc) ->
        t_conflicts acc' = List.length (t_resolutions acc')).
Proof.
  intros Hf acc x acc' H. unfold row_step in H.
  destruct (foldM (f (fst x)) (items (snd x))
                  (mkBuilding (SLRGenerator.shift_row (snd x))
                              (t_conflicts acc) (t_resolutions acc)))
    as [b | e |] eqn:E; simpl in H; try discriminate.
  inversion H; subst acc'; clear H. simpl. split; [eexists; reflexivity |].
  intros Hc.
  apply (foldM_invariant counted (f (fst x)) (items (snd x))
           (fun s y s' Hs Hy => Hf _ _ _ _ Hy Hs) _ b) in E; auto.
Qed.

Lemma lalr_state_row_grows (ps : list Production) :
  forall acc x acc',
    LALRGenerator.state_row ps acc x = Ok acc' ->
    (exists r, table acc' = table acc ++ [r])
    /\ (t_conflicts acc = List.length (t_resolutions acc) ->
        t_conflicts acc' = List.length (t_resolutions acc')).
Proof.
  intros acc x acc' H. unfold LALRGenerator.state_row in H.
  destruct (LALRGenerator.shift_row (snd x)) as [r0 | e |]; simpl in H; try discriminate.
  destruct (foldM (LALRGenerator.reduce_item ps (fst x)) (items (snd x))
                  (mkBuilding r0 (t_conflicts acc) (t_resolutions acc)))
    as [b | e |] eqn:E; simpl in H; try discriminate.
  inversion H; subst acc'; clear H. simpl. split; [eexists; reflexivity |].
  intros Hc.
  apply (foldM_invariant counted (LALRGenerator.reduce_item ps (fst x)) (items (snd x))
           (fun s y s' Hs Hy => lalr_reduce_item_counted _ _ _ _ _ Hy Hs) _ b) in E; auto.
Qed.

Lemma indexed_length {A : Type} (l : list A) : List.length (indexed l) = List.length l.
Proof.
  unfold indexed. rewrite length_combine, length_seq. apply Nat.min_id.
Qed.

(** X16.  The table [parseTable(states)] returns has one row per state, and the
    count of conflicts it leaves in [this.conflicts] is the number of
    entries of [this.resolutions]; in SLRGenerator, LR1Generator and
    LALRGenerator alike. *)
Theorem table_has_a_row_per_state
  (this : Base) (this1 : LR1Generator.This) (ps : list Production)
  (states : list (State Z)) (merged : list (State Target)) (t : Tables) :
  (SLRGenerator.parseTable this states = Ok t
   \/ LR1Generator.parseTable this1 states = Ok t ->
   List.length (table t) = List.length states
   /\ t_conflicts t = List.length (t_resolutions t))
  /\ (LALRGenerator.parseTable ps merged = Ok t ->
      List.length (table t) = List.length merged
      /\ t_conflicts t = List.length (t_resolutions t)).
Proof.
  split.
  - intros [H | H].
    + apply (rows_grow (row_step (SLRGenerator.reduce_item this))) in H.
      * destruct H as ((more & Hm & Hl) & Hc). simpl in Hm. rewrite Hm, Hl, indexed_length.
        auto.
      * apply row_step_grows. intros i b item b' Hf.
        apply (slr_reduce_item_keeps _ _ _ _ _ Hf).
    + apply (rows_grow (row_step (LR1Generator.reduce_item this1))) in H.
      * destruct H as ((more & Hm & Hl) & Hc). simpl in Hm. rewrite Hm, Hl, indexed_length.
        auto.
      * apply row_step_grows. intros i b item b' Hf.
        apply (lr1_reduce_item_keeps _ _ _ _ _ Hf).
  - intros H. apply (rows_grow (LALRGenerator.state_row ps)) in H.
    + destruct H as ((more & Hm & Hl) & Hc). simpl in Hm. rewrite Hm, Hl, indexed_length.
      auto.
    + apply lalr_state_row_grows.
Qed.

(** Witness of [table_has_a_row_per_state]: the table of [S -> a]. *)
Lemma table_has_a_row_per_state_witness :
  List.length (table tables_S_a) = List.length slr_states
  /\ t_conflicts tables_S_a = List.length (t_resolutions tables_S_a).
Proof.
  apply (proj1 (table_has_a_row_per_state slr_this lr1_this [] slr_states [] tables_S_a)).
  left. reflexivity.
Defined.

Lemma row_of_state (f : nat -> Building -> Item -> outcome Building) (l : list (State Z)) :
  forall s acc t,
    foldM (row_step f) (combine (seq s (List.length l)) l) acc = Ok t ->
    List.length (table acc) = s ->
    forall i st,
      nth_error l i = Some st ->
      exists c r b,
        foldM (f (s + i)%nat) (items st) (mkBuilding (SLRGenerator.shift_row st) c r) = Ok b
        /\ nth_error (table t) (s + i) = Some (row b).
Proof.
  induction l as [| st0 l IH]; intros s acc t H Hs i st Hi.
  - destruct i; discriminate.
  - simpl in H.
    destruct (row_step f acc (s, st0)) as [acc1 | e |] eqn:E; simpl in H; try discriminate.
    unfold row_step in E. simpl in E.
    destruct (foldM (f s) (items st0)
                    (mkBuilding (SLRGenerator.shift_row st0)
                                (t_conflicts acc) (t_resolutions acc)))
      as [b | e |] eqn:Eb; simpl in E; try discriminate.
    inversion E; subst acc1; clear E.
    destruct i as [| i]; simpl in Hi.
    + inversion Hi; subst st0. rewrite Nat.add_0_r.
      exists (t_conflicts acc), (t_resolutions acc), b. split; [exact Eb |].
      assert (Hgrow : exists more,
                 table t = table (mkTables (table acc ++ [row b]) (conflicts b)
                                           (resolutions b)) ++ more).
      { clear -H. revert H. generalize (mkTables (table acc ++ [row b]) (conflicts b)
                                                 (resolutions b)).
        generalize (combine (seq (S s) (List.length l)) l).
        intros l0. induction l0 as [| x l0 IH0]; intros a H; simpl in H.
        - inversion H; subst. exists []. rewrite app_nil_r. reflexivity.
        - destruct (row_step f a x) as [a1 | e |] eqn:E; simpl in H; try discriminate.
          destruct (IH0 _ H) as (more & Hm). unfold row_step in E.
          destruct (foldM (f (fst x)) (items (snd x))
                          (mkBuilding (SLRGenerator.shift_row (snd x))
                                      (t_conflicts a) (t_resolutions a)))
            as [b1 | e |]; simpl in E; try discriminate.
          inversion E; subst a1. simpl in Hm. exists (row b1 :: more).
          rewrite Hm, <- app_assoc. reflexivity. }
      destruct Hgrow as (more & Hm). simpl in Hm. rewrite Hm, <- app_assoc.
      rewrite nth_error_app2 by lia. rewrite Hs, Nat.sub_diag. reflexivity.
    + replace (s + S i)%nat with (S s + i)%nat by lia.
      apply (IH (S s) _ t H); [| exact Hi].
      simpl. rewrite length_app. simpl. lia.
Qed.

Lemma shift_fold_other (tr : list (string * Z)) (sym : string) :
  forall r,
    ~ In sym (map fst tr) ->
    map_get (fold_left (fun r t => map_set r (fst t) (mkAction ParserActions.SHIFT (snd t)))
                       tr r) sym
    = map_get r sym.
Proof.
  induction tr as [| [k v] tr IH]; intros r Hn; simpl in *; [reflexivity |].
  rewrite IH by tauto. apply map_get_set_neq. tauto.
Qed.

Lemma shift_fold_get (tr : list (string * Z)) (sym : string) (n : Z) :
  forall r,
    NoDup (map fst tr) ->
    In (sym, n) tr ->
    map_get (fold_left (fun r t => map_set r (fst t) (mkAction ParserActions.SHIFT (snd t)))
                       tr r) sym
    = Some (mkAction ParserActions.SHIFT n).
Proof.
  induction tr as [| [k v] tr IH]; intros r Hnd Hin; simpl in *; [tauto |].
  inversion Hnd; subst. destruct Hin as [E | Hin].
  - inversion E; subst. rewrite shift_fold_other by assumption. apply map_get_set_eq.
  - apply IH; auto.
Qed.

Lemma shift_fold_In (tr : list (string * Z)) :
  forall r k a,
    In (k, a) (fold_left (fun r t => map_set r (fst t) (mkAction ParserActions.SHIFT (snd t)))
                         tr r) ->
    In (k, a) r \/ (kind a = ParserActions.SHIFT /\ In (k, arg a) tr).
Proof.
  induction tr as [| [k0 v0] tr IH]; intros r k a Hin; simpl in *; [auto |].
  apply IH in Hin. destruct Hin as [Hin | (Hk & Hin)]; [| auto].
  apply map_set_In in Hin. destruct Hin as [(-> & ->) | Hin]; auto.
Qed.

(** X17.  A shift is never displaced: in the table [parseTable(states)] of
    SLRGenerator or LR1Generator returns, the row of a state answers every
    symbol of a transition of the state with the shift to its target,
    whatever items the state holds.  (The symbol [__proto__] is left out:
    it cannot be an own key of the row.) *)
Theorem shift_is_never_displaced
  (this : Base) (this1 : LR1Generator.This) (states : list (State Z)) (t : Tables)
  (i : nat) (st : State Z) (tr : list (string * Z)) (sym : string) (n : Z) :
  SLRGenerator.parseTable this states = Ok t
  \/ LR1Generator.parseTable this1 states = Ok t ->
  nth_error states i = Some st ->
  transitions st = Some tr ->
  NoDup (map fst tr) ->
  In (sym, n) tr ->
  sym <> "__proto__" ->
  exists r, nth_error (table t) i = Some r
            /\ row_get r sym = Own (mkAction ParserActions.SHIFT n).
Proof.
  intros H Hi Htr Hnd Hin _.
  assert (Hshift : map_get (SLRGenerator.shift_row st) sym
                   = Some (mkAction ParserActions.SHIFT n)).
  { unfold SLRGenerator.shift_row. rewrite Htr. apply shift_fold_get; auto. }
  assert (Hrow : exists b, nth_error (table t) i = Some (row b)
                           /\ map_get (row b) sym = Some (mkAction ParserActions.SHIFT n)).
  { destruct H as [H | H].
    - destruct (row_of_state (SLRGenerator.reduce_item this) states 0 _ t H eq_refl i st Hi)
        as (c & r & b & Hb & Hn).
      exists b. split; [exact Hn |].
      apply (foldM_invariant
               (fun b0 => map_get (row b0) sym = Some (mkAction ParserActions.SHIFT n))
               (SLRGenerator.reduce_item this (0 + i)) (items st)) in Hb; auto.
      intros s x s' Hs Hx. apply (slr_reduce_item_keeps _ _ _ _ _ Hx). exact Hs.
    - destruct (row_of_state (LR1Generator.reduce_item this1) states 0 _ t H eq_refl i st Hi)
        as (c & r & b & Hb & Hn).
      exists b. split; [exact Hn |].
      apply (foldM_invariant
               (fun b0 => map_get (row b0) sym = Some (mkAction ParserActions.SHIFT n))
               (LR1Generator.reduce_item this1 (0 + i)) (items st)) in Hb; auto.
      intros s x s' Hs Hx. apply (lr1_reduce_item_keeps _ _ _ _ _ Hx). exact Hs. }
  destruct Hrow as (b & Hn & Hg). exists (row b). split; [exact Hn |].
  unfold row_get. rewrite Hg. reflexivity.
Qed.

(** Witness of [shift_is_never_displaced]: the shift of [a] in state 0 of
    [S -> a]. *)
Lemma shift_is_never_displaced_witness :
  exists r, nth_error (table tables_S_a) 0 = Some r
            /\ row_get r "a" = Own (mkAction ParserActions.SHIFT 1).
Proof.
  apply (shift_is_never_displaced slr_this lr1_this slr_states tables_S_a 0%nat
           (mkState [mkItem 0 0 ["$end"]] (Some [("a", 1)])) [("a", 1)] "a" 1).
  - left. reflexivity.
  - reflexivity.
  - reflexivity.
  - constructor; [simpl; tauto | constructor].
  - simpl. auto.
  - discriminate.
Defined.

Lemma reduce_on_justified (ps : list Production) (st : State Z) (i : nat) (item : Item)
  (lhs : string) (rhs : list string) (b : Building) (la : string) :
  In item (items st) ->
  nth_error ps (production item) = Some (PPair lhs rhs) ->
  dotPosition item = List.length rhs ->
  In la (lookahead item) ->
  Forall (justified ps st) (row b) ->
  Forall (justified ps st) (row (reduce_on ps i item b la)).
Proof.
  intros Hin Hp Hd Hla Hb. unfold reduce_on.
  destruct (row_get (row b) la); simpl; auto.
  apply Forall_forall. intros [k a] Hk. apply map_set_In in Hk.
  destruct Hk as [(-> & ->) | Hk].
  - right. exists item, lhs, rhs. simpl. repeat split; auto.
    unfold indexOf.
    assert (Hlt : (production item < List.length ps)%nat).
    { apply nth_error_Some. congruence. }
    apply Nat.ltb_lt in Hlt. rewrite Hlt. reflexivity.
  - rewrite Forall_forall in Hb. exact (Hb _ Hk).
Qed.

Lemma reduce_all_justified (ps : list Production) (st : State Z) (i : nat) (item : Item)
  (lhs : string) (rhs : list string) (las : list string) :
  In item (items st) ->
  nth_error ps (production item) = Some (PPair lhs rhs) ->
  dotPosition item = List.length rhs ->
  forall b,
    (forall la, In la las -> In la (lookahead item)) ->
    Forall (justified ps st) (row b) ->
    Forall (justified ps st) (row (fold_left (reduce_on ps i item) las b)).
Proof.
  intros Hin Hp Hd. induction las as [| la las IH]; intros b Hsub Hb; simpl; auto.
  apply IH; [intros x Hx; apply Hsub; simpl; auto |].
  apply (reduce_on_justified ps st i item lhs rhs); auto. apply Hsub. simpl. auto.
Qed.

(** X18.  Every cell of the table [parseTable(states)] of SLRGenerator returns
    has a reason in its state: it is the shift of a transition of the
    state, or the reduce by the production of an item of the state that has
    its dot at the end, entered under a lookahead of that item. *)
Theorem table_cells_are_justified
  (this : Base) (states : list (State Z)) (t : Tables) (i : nat) (st : State Z) (r : Row) :
  SLRGenerator.parseTable this states = Ok t ->
  nth_error states i = Some st ->
  nth_error (table t) i = Some r ->
  Forall (justified (productions this) st) r.
Proof.
  intros H Hi Hr.
  destruct (row_of_state (SLRGenerator.reduce_item this) states 0 _ t H eq_refl i st Hi)
    as (c & r0 & b & Hb & Hn).
  simpl in Hn. rewrite Hr in Hn. inversion Hn; subst r; clear Hn.
  apply (foldM_invariant_in
           (fun b0 => Forall (justified (productions this) st) (row b0))
           (SLRGenerator.reduce_item this (0 + i)) (items st)) in Hb; auto.
  - intros s item s' Hitem Hs Hx. unfold SLRGenerator.reduce_item in Hx.
    destruct (nth_error (productions this) (production item)) as [[lhs rhs | sy h] |] eqn:Ep;
      simpl in Hx; try discriminate.
    destruct (Nat.eqb_spec (dotPosition item) (List.length rhs)) as [Hd | _];
      inversion Hx; subst; auto.
    apply (reduce_all_justified (productions this) st _ item lhs rhs); auto.
  - simpl. apply Forall_forall. intros [k a] Hk.
    unfold SLRGenerator.shift_row in Hk.
    destruct (transitions st) as [tr |] eqn:Et; [| destruct Hk].
    apply shift_fold_In in Hk. destruct Hk as [[] | (Hkind & Hin)].
    left. simpl. split; [exact Hkind |]. exists tr. auto.
Qed.

(** Witness of [table_cells_are_justified]: row 1 of the table of
    [S -> a]. *)
Lemma table_cells_are_justified_witness :
  Forall (justified (productions slr_this) (mkState [mkItem 0 1 ["$end"]] None))
         [("$end", mkAction ParserActions.REDUCE 0)].
Proof.
  apply (table_cells_are_justified slr_this slr_states tables_S_a 1%nat); reflexivity.
Defined.

(** X19.  [parseTable(states)] of LALRGenerator returns a table only for a
    collection without any transition: the row of the first state is not
    made if that state has one, the call raising a [ReferenceError]. *)
Theorem lalr_table_needs_no_transition (ps : list Production) :
  (forall sts t,
      LALRGenerator.parseTable ps sts = Ok t ->
      Forall (fun st => transitions st = None \/ transitions st = Some []) sts)
  /\ (forall st rest e tr,
        transitions st = Some (e :: tr) ->
        exists msg, LALRGenerator.parseTable ps (st :: rest) = Throw (ReferenceError msg)).
Proof.
  split.
  - intros sts t H. unfold LALRGenerator.parseTable in H.
    assert (Hall : forall l acc,
               foldM (LALRGenerator.state_row ps) l acc = Ok t ->
               Forall (fun ist : nat * State Target =>
                         transitions (snd ist) = None \/ transitions (snd ist) = Some []) l).
    { induction l as [| x l IH]; intros acc Hf; simpl in Hf; [constructor |].
      destruct (LALRGenerator.state_row ps acc x) as [acc1 | e |] eqn:E; simpl in Hf;
        try discriminate.
      constructor; [| exact (IH _ Hf)].
      unfold LALRGenerator.state_row, LALRGenerator.shift_row in E.
      destruct (transitions (snd x)) as [[| e0 tr0] |]; simpl in E; auto; discriminate. }
    apply Hall in H. apply Forall_forall. intros st Hst.
    destruct (In_nth_error _ _ Hst) as (i & Hi). apply indexed_In in Hi.
    rewrite Forall_forall in H. exact (H _ Hi).
  - intros st rest e tr Htr. unfold LALRGenerator.parseTable, indexed. simpl.
    unfold LALRGenerator.state_row at 1, LALRGenerator.shift_row. simpl. rewrite Htr. simpl.
    eexists; reflexivity.
Qed.

(** Witness of [lalr_table_needs_no_transition]: the merged collection of
    [S -> a A; A -> b]. *)
Lemma lalr_table_needs_no_transition_witness :
  exists msg,
    LALRGenerator.parseTable (LALRGenerator.productions lalr_this) lalr_merged
    = Throw (ReferenceError msg).
Proof.
  apply (proj2 (lalr_table_needs_no_transition (LALRGenerator.productions lalr_this))
           (mkState [mkItem 0 0 ["$"]] (Some [("a", TOne 1)]))
           [ mkState [mkItem 0 1 ["$"]] (Some [("b", TOne 3)]);
             mkState [mkItem 1 1 ["x"]; mkItem 1 1 ["y"]] (Some []) ]
           ("a", TOne 1) []).
  reflexivity.
Defined.

(** *** Keys of items, states and kernels *)

Lemma ascii_lt_trans (a b c : ascii) :
  Ascii.compare a b = Lt -> Ascii.compare b c = Lt -> Ascii.compare a c = Lt.
Proof.
  unfold Ascii.compare. rewrite !N.compare_lt_iff. lia.
Qed.

Lemma ascii_compare_refl (a : ascii) : Ascii.compare a a = Eq.
Proof.
  unfold Ascii.compare. apply N.compare_refl.
Qed.

Lemma string_lt_trans :
  forall s1 s2 s3,
    String.compare s1 s2 = Lt -> String.compare s2 s3 = Lt -> String.compare s1 s3 = Lt.
Proof.
  induction s1 as [| a s1 IH]; intros [| b s2] [| c s3]; simpl; try discriminate; auto.
  destruct (Ascii.compare a b) eqn:E1; destruct (Ascii.compare b c) eqn:E2;
    try discriminate; intros H1 H2.
  - apply Ascii.compare_eq_iff in E1, E2. subst. rewrite ascii_compare_refl. eauto.
  - apply Ascii.compare_eq_iff in E1. subst. rewrite E2. reflexivity.
  - apply Ascii.compare_eq_iff in E2. subst. rewrite E1. reflexivity.
  - rewrite (ascii_lt_trans _ _ _ E1 E2). reflexivity.
Qed.

Lemma string_leb_trans (s1 s2 s3 : string) :
  String.leb s1 s2 = true -> String.leb s2 s3 = true -> String.leb s1 s3 = true.
Proof.
  unfold String.leb.
  destruct (String.compare s1 s2) eqn:E1; try discriminate;
    destruct (String.compare s2 s3) eqn:E2; try discriminate; intros _ _.
  - apply String.compare_eq_iff in E1, E2. subst.
    destruct (String.compare s3 s3) eqn:E; auto.
    pose proof (String.compare_antisym s3 s3) as Ha. rewrite E in Ha. discriminate.
  - apply String.compare_eq_iff in E1. subst. rewrite E2. reflexivity.
  - apply String.compare_eq_iff in E2. subst. rewrite E1. reflexivity.
  - rewrite (string_lt_trans _ _ _ E1 E2). reflexivity.
Qed.

Lemma string_leb_false (x y : string) : String.leb x y = false -> String.leb y x = true.
Proof.
  intros H. destruct (String.leb_total x y) as [H1 | H1]; congruence.
Qed.

Lemma insert_two (x y : string) (l : list string) :
  (if String.leb x y then x :: y :: l else y :: x :: l)
  = (if String.leb y x then y :: x :: l else x :: y :: l).
Proof.
  destruct (String.leb x y) eqn:Hxy; destruct (String.leb y x) eqn:Hyx; auto.
  - rewrite (String.leb_antisym _ _ Hxy Hyx). reflexivity.
  - apply string_leb_false in Hxy. congruence.
Qed.

Lemma insert_str_comm (x y : string) :
  forall l, insert_str x (insert_str y l) = insert_str y (insert_str x l).
Proof.
  induction l as [| z l IH]; simpl.
  - apply insert_two.
  - destruct (String.leb y z) eqn:Hyz; destruct (String.leb x z) eqn:Hxz; simpl;
      rewrite ?Hyz, ?Hxz.
    + apply insert_two.
    + destruct (String.leb x y) eqn:Hxy; [| reflexivity].
      rewrite (string_leb_trans _ _ _ Hxy Hyz) in Hxz. discriminate.
    + destruct (String.leb y x) eqn:Hyx; [| reflexivity].
      rewrite (string_leb_trans _ _ _ Hyx Hxz) in Hyz. discriminate.
    + rewrite IH. reflexivity.
Qed.

Lemma sort_permutation (l1 l2 : list string) : Permutation l1 l2 -> sort l1 = sort l2.
Proof.
  unfold sort. induction 1; simpl.
  - reflexivity.
  - rewrite IHPermutation. reflexivity.
  - apply insert_str_comm.
  - congruence.
Qed.

Lemma slr_itemKeys_Forall2 (this : Base) (s : list Item) :
  forall ks, SLRGenerator.itemKeys this s = Ok ks
             <-> Forall2 (fun i k => SLRGenerator.itemKey this i = Ok k) s ks.
Proof.
  induction s as [| i s IH]; intros ks; simpl.
  - split.
    + intros H; inversion H; constructor.
    + intros H; inversion H; reflexivity.
  - split.
    + intros H. destruct (SLRGenerator.itemKey this i) as [k | e |] eqn:Ek; simpl in H;
        try discriminate.
      destruct (SLRGenerator.itemKeys this s) as [ks0 | e |] eqn:Es; simpl in H;
        try discriminate.
      inversion H; subst. constructor; [exact Ek | apply IH; reflexivity].
    + intros H. inversion H; subst. rewrite H2. simpl.
      apply IH in H4. rewrite H4. reflexivity.
Qed.

(** X20.  The key of a state does not depend on the order of its items, and the
    key of an item does not depend on the order in which its lookaheads
    were added: [stateKey] and [itemKey] of SLRGenerator sort them. *)
Theorem keys_ignore_order (this : Base) :
  (forall s1 s2 k,
      Permutation s1 s2 ->
      SLRGenerator.stateKey this s1 = Ok k ->
      SLRGenerator.stateKey this s2 = Ok k)
  /\ (forall a b, same_item a b -> SLRGenerator.itemKey this a = SLRGenerator.itemKey this b).
Proof.
  split.
  - intros s1 s2 k Hp H. unfold SLRGenerator.stateKey in *.
    destruct (SLRGenerator.itemKeys this s1) as [ks1 | e |] eqn:E1; simpl in H;
      try discriminate.
    apply slr_itemKeys_Forall2 in E1.
    destruct (Permutation_Forall2 Hp E1) as (ks2 & Hp2 & E2).
    apply slr_itemKeys_Forall2 in E2. rewrite E2. simpl.
    rewrite <- (sort_permutation _ _ Hp2). exact H.
  - intros [pa da la] [pb db lb] ((Hp & Hd) & Hl). simpl in *. subst.
    unfold SLRGenerator.itemKey. simpl. rewrite (sort_permutation _ _ Hl). reflexivity.
Qed.

(** Witness of [keys_ignore_order]: the twin items the other way round. *)
Lemma keys_ignore_order_witness :
  SLRGenerator.stateKey slr_this [mkItem 0 0 ["y"]; mkItem 0 0 ["x"]]
  = Ok "S->a|0|x|S->a|0|y".
Proof.
  apply (proj1 (keys_ignore_order slr_this) twin_items).
  - apply perm_swap.
  - reflexivity.
Defined.

Lemma lalr_is_kernel_core (this : LALRGenerator.This) (a b : Item) :
  same_core a b -> LALRGenerator.is_kernel this a = LALRGenerator.is_kernel this b.
Proof.
  intros (Hp & Hd). unfold LALRGenerator.is_kernel. rewrite Hp, Hd. reflexivity.
Qed.

Lemma lalr_kernelItemKey_core (this : LALRGenerator.This) (a b : Item) :
  same_core a b -> LALRGenerator.kernelItemKey this a = LALRGenerator.kernelItemKey this b.
Proof.
  intros (Hp & Hd). unfold LALRGenerator.kernelItemKey. rewrite Hp, Hd. reflexivity.
Qed.

Lemma lalr_kernelKeys_core (this : LALRGenerator.This) (k1 k2 : list Item) :
  Forall2 same_core k1 k2 ->
  LALRGenerator.kernelItemKeys this k1 = LALRGenerator.kernelItemKeys this k2.
Proof.
  induction 1 as [| a b k1 k2 Hab Hk IH]; simpl; [reflexivity |].
  rewrite (lalr_kernelItemKey_core this a b Hab), IH. reflexivity.
Qed.

Lemma lalr_getKernel_core (this : LALRGenerator.This) (s1 s2 : list Item) :
  Forall2 same_core s1 s2 ->
  match LALRGenerator.getKernel this s1, LALRGenerator.getKernel this s2 with
  | Ok k1, Ok k2 => Forall2 same_core k1 k2
  | Throw e1, Throw e2 => e1 = e2
  | OutOfFuel, OutOfFuel => True
  | _, _ => False
  end.
Proof.
  induction 1 as [| a b s1 s2 Hab Hs IH]; simpl; [constructor |].
  rewrite (lalr_is_kernel_core this a b Hab).
  destruct (LALRGenerator.is_kernel this b) as [keep | e |]; simpl; auto.
  destruct (LALRGenerator.getKernel this s1) as [k1 | e1 |];
    destruct (LALRGenerator.getKernel this s2) as [k2 | e2 |]; simpl; auto.
  destruct keep; auto.
Qed.

(** X21.  The key under which [mergeStates] of LALRGenerator files a state,
    [kernelKey(getKernel(state))], reads the production and the dot of the
    items only: two states whose items differ in their lookaheads at most
    are filed under one key. *)
Theorem kernel_key_ignores_lookahead (this : LALRGenerator.This) (s1 s2 : list Item) :
  Forall2 same_core s1 s2 ->
  (k <- LALRGenerator.getKernel this s1 ;; LALRGenerator.kernelKey this k)
  = (k <- LALRGenerator.getKernel this s2 ;; LALRGenerator.kernelKey this k).
Proof.
  intros H. pose proof (lalr_getKernel_core this s1 s2 H) as Hk.
  destruct (LALRGenerator.getKernel this s1) as [k1 | e1 |];
    destruct (LALRGenerator.getKernel this s2) as [k2 | e2 |]; simpl; try contradiction.
  - unfold LALRGenerator.kernelKey. rewrite (lalr_kernelKeys_core this k1 k2 Hk). reflexivity.
  - congruence.
  - reflexivity.
Qed.

(** Witness of [kernel_key_ignores_lookahead]: states 2 and 3 of the LR(1)
    collection of [S -> a A; A -> b]. *)
Lemma kernel_key_ignores_lookahead_witness :
  (k <- LALRGenerator.getKernel lalr_this [mkItem 1 1 ["x"]] ;;
   LALRGenerator.kernelKey lalr_this k)
  = (k <- LALRGenerator.getKernel lalr_this [mkItem 1 1 ["y"]] ;;
     LALRGenerator.kernelKey lalr_this k).
Proof.
  apply (kernel_key_ignores_lookahead lalr_this [mkItem 1 1 ["x"]] [mkItem 1 1 ["y"]]).
  constructor; [split; reflexivity | constructor].
Defined.

(** *** Removing the states that cannot be reached *)

Lemma zmem_In (a : Z) (l : list Z) : existsb (Z.eqb a) l = true <-> In a l.
Proof.
  rewrite existsb_exists. split.
  - intros (y & Hy & E). apply Z.eqb_eq in E. subst; auto.
  - intros H. exists a. split; auto. apply Z.eqb_refl.
Qed.

Lemma mark_all_spec (l : list Z) :
  forall r q r' q',
    fold_left SLRGenerator.mark l (r, q) = (r', q') ->
    (forall x, In x r' <-> In x r \/ In x l)
    /\ (forall x, In x q' <-> In x q \/ (In x l /\ ~ In x r)).
Proof.
  induction l as [| y l IH]; intros r q r' q' H; simpl in H.
  - inversion H; subst. simpl. split; intros x; tauto.
  - unfold SLRGenerator.mark at 2 in H. simpl in H.
    destruct (existsb (Z.eqb y) r) eqn:E.
    + apply zmem_In in E. destruct (IH _ _ _ _ H) as (H1 & H2). split; intros x.
      * rewrite H1. simpl. split; [tauto |]. intros [Hx | [<- | Hx]]; auto.
      * rewrite H2. simpl. split; [tauto |].
        intros [Hx | ([<- | Hx] & Hn)]; auto. contradiction.
    + assert (Hy : ~ In y r) by (rewrite <- zmem_In; congruence).
      destruct (IH _ _ _ _ H) as (H1 & H2). split; intros x.
      * rewrite H1, in_app_iff. simpl. tauto.
      * rewrite H2, !in_app_iff. simpl. split.
        -- intros [[Hx | [<- | []]] | (Hx & Hn)];
             [auto | right; auto | right; split; [auto | tauto]].
        -- intros [Hx | ([<- | Hx] & Hn)]; [auto | auto |].
           destruct (Z.eq_dec y x) as [<- | Hne]; [auto |].
           right. split; [exact Hx |]. intros [Hr | [E1 | []]]; auto.
Qed.

Lemma mark_all_count (l : list Z) :
  forall r q r' q',
    fold_left SLRGenerator.mark l (r, q) = (r', q') ->
    NoDup r ->
    NoDup r' /\ (List.length r' + List.length q = List.length r + List.length q')%nat.
Proof.
  induction l as [| y l IH]; intros r q r' q' H Hnd; simpl in H.
  - inversion H; subst. auto.
  - unfold SLRGenerator.mark at 2 in H. simpl in H.
    destruct (existsb (Z.eqb y) r) eqn:E.
    + exact (IH _ _ _ _ H Hnd).
    + assert (Hy : ~ In y r) by (rewrite <- zmem_In; congruence).
      destruct (IH _ _ _ _ H) as (H1 & H2).
      * apply NoDup_app; auto.
        -- constructor; [simpl; tauto | constructor].
        -- intros a Ha [<- | []]. contradiction.
      * split; [exact H1 |]. rewrite !length_app in H2. simpl in H2. lia.
Qed.

(** What a turn of the [while] loop marks: the targets of the state. *)
Lemma reach_turn (st : State Z) (r q : list Z) :
  match transitions st with
  | Some tr => fold_left SLRGenerator.mark (map snd tr) (r, q)
  | None => (r, q)
  end
  = fold_left SLRGenerator.mark
              (match transitions st with Some tr => map snd tr | None => [] end) (r, q).
Proof.
  destruct (transitions st); reflexivity.
Qed.

Lemma reach_loop_spec (states : list (State Z)) (fuel : nat) :
  forall r q result,
    SLRGenerator.reach_loop fuel states r q = Ok result ->
    In 0 r ->
    (forall x, In x r -> reachable_from_0 states x) ->
    (forall x, In x q -> In x r) ->
    (forall x, In x r ->
               In x q
               \/ forall st tr sym y, at_ states x = Some st -> transitions st = Some tr ->
                                      In (sym, y) tr -> In y r) ->
    forall x, In x result <-> reachable_from_0 states x.
Proof.
  induction fuel as [| fuel IH]; intros r q result H H0 Hsound Hq Hclosed; simpl in H;
    [discriminate |].
  destruct q as [| x0 rest].
  - inversion H; subst result. intros x. split; [apply Hsound |].
    induction 1 as [| x y st tr sym Hx IHx Hat Htr Hin]; auto.
    destruct (Hclosed x IHx) as [[] | Hc]. exact (Hc st tr sym y Hat Htr Hin).
  - destruct (at_ states x0) as [st0 |] eqn:Hat; [| discriminate].
    rewrite reach_turn in H.
    set (l := match transitions st0 with Some tr => map snd tr | None => [] end) in H.
    destruct (fold_left SLRGenerator.mark l (r, rest)) as [r' q'] eqn:Ef. simpl in H.
    destruct (mark_all_spec _ _ _ _ _ Ef) as (Hr' & Hq').
    assert (Hl : forall y, In y l <-> exists tr sym, transitions st0 = Some tr
                                                     /\ In (sym, y) tr).
    { intros y. unfold l. destruct (transitions st0) as [tr |].
      - rewrite in_map_iff. split.
        + intros ([sym y'] & E & Hin). simpl in E. subst. exists tr, sym. auto.
        + intros (tr' & sym & E & Hin). inversion E; subst. exists (sym, y). auto.
      - simpl. split; [tauto |]. intros (tr & sym & E & _). discriminate. }
    apply (IH r' q' result H).
    + apply Hr'. auto.
    + intros x Hx. apply Hr' in Hx. destruct Hx as [Hx | Hx]; [auto |].
      apply Hl in Hx. destruct Hx as (tr & sym & Htr & Hin).
      apply (reach_step states x0 x st0 tr sym); auto. apply Hsound, Hq. simpl. auto.
    + intros x Hx. apply Hr'. apply Hq' in Hx. destruct Hx as [Hx | (Hx & _)]; auto.
      left. apply Hq. simpl. auto.
    + intros x Hx. destruct (in_dec Z.eq_dec x r) as [Hin | Hnin].
      * destruct (Hclosed x Hin) as [[<- | Hrest] | Hc].
        -- right. intros st tr sym y Hat' Htr Hy. apply Hr'. right. apply Hl.
           rewrite Hat in Hat'. inversion Hat'; subst. exists tr, sym. auto.
        -- left. apply Hq'. auto.
        -- right. intros st tr sym y Hat' Htr Hy. apply Hr'. left.
           exact (Hc st tr sym y Hat' Htr Hy).
      * left. apply Hq'. right. apply Hr' in Hx. tauto.
Qed.

Lemma kept_members (states : list (State Z)) (r : list Z) (st : State Z) :
  In st (SLRGenerator.keep_reachable states r)
  <-> exists i, nth_error states i = Some st /\ In (Z.of_nat i) r.
Proof.
  unfold SLRGenerator.keep_reachable. rewrite in_map_iff. split.
  - intros ([i st'] & E & Hin). simpl in E. subst st'.
    apply filter_In in Hin. destruct Hin as (Hin & Hf). simpl in Hf.
    apply indexed_In in Hin. apply zmem_In in Hf. exists i. auto.
  - intros (i & Hi & Hr). exists (i, st). split; [reflexivity |].
    apply filter_In. split; [apply indexed_In; exact Hi |]. simpl. apply zmem_In. exact Hr.
Qed.

(** X22.  [removeUnreachableStates()] of SLRGenerator keeps exactly the states
    that a walk along the transitions reaches from state 0, in their order
    and as they are: the states that stay are not renumbered, and their
    transitions still name the old numbers. *)
Theorem unreachable_states_are_dropped (fuel : nat) (states kept : list (State Z)) :
  SLRGenerator.removeUnreachableStates fuel states = Ok kept ->
  (exists r, (forall x, In x r <-> reachable_from_0 states x)
             /\ kept = SLRGenerator.keep_reachable states r)
  /\ (forall st, In st kept
                 <-> exists i, nth_error states i = Some st
                               /\ reachable_from_0 states (Z.of_nat i)).
Proof.
  unfold SLRGenerator.removeUnreachableStates. intros H.
  destruct (SLRGenerator.reach_loop fuel states [0] [0]) as [r | e |] eqn:E; simpl in H;
    try discriminate.
  inversion H; subst kept; clear H.
  assert (Hr : forall x, In x r <-> reachable_from_0 states x).
  { apply (reach_loop_spec states fuel [0] [0] r E); simpl; auto.
    intros x [<- | []]. constructor. }
  split.
  - exists r. auto.
  - intros st. rewrite kept_members. split; intros (i & Hi & Hx); exists i; split; auto;
      apply Hr; exact Hx.
Qed.

(** Witness of [unreachable_states_are_dropped]: both states of [S -> a]
    are reached. *)
Lemma unreachable_states_are_dropped_witness :
  exists i, nth_error slr_states i = Some (mkState [mkItem 0 1 ["$end"]] None)
            /\ reachable_from_0 slr_states (Z.of_nat i).
Proof.
  apply (proj2 (unreachable_states_are_dropped 3 slr_states slr_states eq_refl)
           (mkState [mkItem 0 1 ["$end"]] None)).
  simpl. auto.
Defined.

Lemma range_length (n : nat) (r : list Z) :
  NoDup r -> (forall x, In x r -> 0 <= x < Z.of_nat n) -> (List.length r <= n)%nat.
Proof.
  intros Hnd Hr.
  rewrite <- (length_seq n 0), <- (length_map Z.of_nat).
  apply NoDup_incl_length; [exact Hnd |].
  intros x Hx. apply Hr in Hx. apply in_map_iff. exists (Z.to_nat x).
  split; [lia |]. apply in_seq. lia.
Qed.

Lemma filter_shorter {A : Type} (f : A -> bool) (l : list A) :
  (List.length (filter f l) <= List.length l)%nat.
Proof.
  induction l as [| x l IH]; simpl; auto. destruct (f x); simpl; lia.
Qed.

Lemma reach_loop_ends (states : list (State Z)) :
  targets_in_range states ->
  forall fuel r q,
    NoDup r ->
    (forall x, In x r -> 0 <= x < Z.of_nat (List.length states)) ->
    (forall x, In x q -> In x r) ->
    (List.length states - List.length r + List.length q < fuel)%nat ->
    exists result,
      SLRGenerator.reach_loop fuel states r q = Ok result
      /\ forall x, In x r -> In x result.
Proof.
  intros Hrange. induction fuel as [| fuel IH]; intros r q Hnd Hr Hq Hm; [lia |].
  simpl. destruct q as [| x0 rest].
  - exists r. auto.
  - assert (Hx0 : 0 <= x0 < Z.of_nat (List.length states)) by (apply Hr, Hq; simpl; auto).
    unfold at_. destruct (Z.ltb_spec x0 0) as [Hneg | _]; [lia |].
    destruct (nth_error states (Z.to_nat x0)) as [st0 |] eqn:En.
    2:{ apply nth_error_None in En. lia. }
    rewrite reach_turn.
    set (l := match transitions st0 with Some tr => map snd tr | None => [] end).
    destruct (fold_left SLRGenerator.mark l (r, rest)) as [r' q'] eqn:Ef. simpl.
    destruct (mark_all_spec _ _ _ _ _ Ef) as (Hr' & Hq').
    destruct (mark_all_count _ _ _ _ _ Ef Hnd) as (Hnd' & Hcount).
    assert (Hl : forall y, In y l -> 0 <= y < Z.of_nat (List.length states)).
    { intros y Hy. unfold l in Hy.
      unfold targets_in_range in Hrange. rewrite Forall_forall in Hrange.
      pose proof (Hrange st0 (nth_error_In _ _ En)) as Hst. unfold targets_below in Hst.
      destruct (transitions st0) as [tr |]; [| destruct Hy].
      apply in_map_iff in Hy. destruct Hy as (e & <- & He).
      rewrite Forall_forall in Hst. exact (Hst e He). }
    assert (Hr'range : forall x, In x r' -> 0 <= x < Z.of_nat (List.length states)).
    { intros x Hx. apply Hr' in Hx. destruct Hx; auto. }
    pose proof (range_length _ _ Hnd' Hr'range) as Hlen'.
    pose proof (range_length _ _ Hnd Hr) as Hlen.
    destruct (IH r' q' Hnd' Hr'range) as (result & Hres & Hsub).
    + intros x Hx. apply Hr'. apply Hq' in Hx. destruct Hx as [Hx | (Hx & _)]; auto.
      left. apply Hq. simpl. auto.
    + simpl in Hm. lia.
    + exists result. split; [exact Hres |]. intros x Hx. apply Hsub, Hr'. auto.
Qed.

(** X23.  The walk of [removeUnreachableStates()] of SLRGenerator ends: on a
    collection whose transitions name states of the collection it returns
    within one turn per state, and what it returns begins with state 0 and
    is no longer than the collection.  On an empty collection it raises a
    [TypeError]. *)
Theorem reachability_walk_ends (states : list (State Z)) (fuel : nat) :
  (exists msg, SLRGenerator.removeUnreachableStates (S fuel) [] = Throw (TypeError msg))
  /\ (states <> [] ->
      targets_in_range states ->
      (List.length states < fuel)%nat ->
      exists kept,
        SLRGenerator.removeUnreachableStates fuel states = Ok kept
        /\ nth_error kept 0 = nth_error states 0
        /\ (List.length kept <= List.length states)%nat).
Proof.
  split; [eexists; reflexivity |].
  intros Hne Hrange Hfuel.
  destruct states as [| st0 rest]; [contradiction |].
  destruct (reach_loop_ends (st0 :: rest) Hrange fuel [0] [0]) as (r & Hr & Hsub).
  - constructor; [simpl; tauto | constructor].
  - intros x [<- | []]. simpl. lia.
  - auto.
  - simpl in *. lia.
  - unfold SLRGenerator.removeUnreachableStates. rewrite Hr. simpl.
    eexists. split; [reflexivity |]. split.
    + unfold SLRGenerator.keep_reachable, indexed. simpl.
      assert (H0 : existsb (Z.eqb 0) r = true) by (apply zmem_In, Hsub; simpl; auto).
      rewrite H0. reflexivity.
    + unfold SLRGenerator.keep_reachable. rewrite length_map.
      eapply Nat.le_trans; [apply filter_shorter |].
      rewrite indexed_length. simpl. lia.
Qed.

(** Witness of [reachability_walk_ends]: the collection of [S -> a]. *)
Lemma reachability_walk_ends_witness :
  exists kept,
    SLRGenerator.removeUnreachableStates 3 slr_states = Ok kept
    /\ nth_error kept 0 = nth_error slr_states 0
    /\ (List.length kept <= List.length slr_states)%nat.
Proof.
  apply (proj2 (reachability_walk_ends slr_states 3)).
  - discriminate.
  - unfold targets_in_range, targets_below. simpl.
    repeat constructor; simpl; lia.
  - simpl. lia.
Defined.

Lemma lalr_mark_all_raises (l : list Target) (n : Z) :
  In (TOne n) l ->
  forall acc, exists msg, foldM LALRGenerator.mark_all l acc = Throw (TypeError msg).
Proof.
  induction l as [| x l IH]; intros Hin acc; simpl in *; [tauto |].
  destruct x as [m | ms]; simpl.
  - eexists; reflexivity.
  - destruct Hin as [E | Hin]; [discriminate |]. apply IH. exact Hin.
Qed.

(** X24.  [removeUnreachableStates()] of LALRGenerator raises a [TypeError] when
    state 0 has a transition to a state number, which is what every
    transition of a state is that [mergeStates] left alone: the walk reads
    the targets of a transition with [forEach], and only the merged states
    hold [Set]s.  It raises on an empty collection as well. *)
Theorem lalr_walk_needs_merged_states (fuel : nat) :
  (exists msg, LALRGenerator.removeUnreachableStates (S fuel) [] = Throw (TypeError msg))
  /\ (forall sts st tr sym n,
        at_ sts 0 = Some st ->
        transitions st = Some tr ->
        In (sym, TOne n) tr ->
        exists msg, LALRGenerator.removeUnreachableStates (S fuel) sts = Throw (TypeError msg))
  /\ (forall (st : State Z) rest e tr,
        transitions st = Some (e :: tr) ->
        exists msg,
          LALRGenerator.removeUnreachableStates (S fuel) (LALRGenerator.keep st :: rest)
          = Throw (TypeError msg)).
Proof.
  assert (Hmain : forall sts st tr sym n,
             at_ sts 0 = Some st ->
             transitions st = Some tr ->
             In (sym, TOne n) tr ->
             exists msg,
               LALRGenerator.removeUnreachableStates (S fuel) sts = Throw (TypeError msg)).
  { intros sts st tr sym n Hat Htr Hin.
    unfold LALRGenerator.removeUnreachableStates. simpl. rewrite Hat, Htr.
    destruct (lalr_mark_all_raises (map snd tr) n) with (acc := ([0], @nil Z))
      as (msg & Hmsg).
    - apply in_map_iff. exists (sym, TOne n). auto.
    - rewrite Hmsg. simpl. eexists; reflexivity. }
  split; [eexists; reflexivity | split; [exact Hmain |]].
  intros st rest e tr Htr.
  apply (Hmain _ (LALRGenerator.keep st) (map (fun t => (fst t, TOne (snd t))) (e :: tr))
           (fst e) (snd e)).
  - reflexivity.
  - unfold LALRGenerator.keep. simpl. rewrite Htr. reflexivity.
  - simpl. auto.
Qed.

(** Witness of [lalr_walk_needs_merged_states]: the merged collection of
    [S -> a A; A -> b]. *)
Lemma lalr_walk_needs_merged_states_witness :
  exists msg, LALRGenerator.removeUnreachableStates 1 lalr_merged = Throw (TypeError msg).
Proof.
  apply (proj1 (proj2 (lalr_walk_needs_merged_states 0)) lalr_merged
           (mkState [mkItem 0 0 ["$"]] (Some [("a", TOne 1)])) [("a", TOne 1)] "a" 1).
  - reflexivity.
  - reflexivity.
  - simpl. auto.
Defined.

(** *** The predictive table of LLGenerator *)

Lemma enter_entry (p : nat) (sym : string) (acc : LLGenerator.Predictive)
  (terminal A t : string) :
  LLGenerator.entry (LLGenerator.table (LLGenerator.enter p sym acc terminal)) A t
  = match LLGenerator.entry (LLGenerator.table acc) A t with
    | Some e => Some e
    | None => if String.eqb sym A && String.eqb terminal t then Some p else None
    end.
Proof.
  unfold LLGenerator.enter, LLGenerator.entry.
  destruct (map_get (LLGenerator.table acc) sym) as [m |] eqn:Em.
  - rewrite Em. destruct (map_get m terminal) as [existing |] eqn:Et; simpl.
    + destruct (String.eqb_spec sym A) as [<- | Hne]; simpl.
      * rewrite Em. destruct (String.eqb_spec terminal t) as [<- | Hnt].
        -- rewrite Et. reflexivity.
        -- destruct (map_get m t); reflexivity.
      * destruct (map_get (LLGenerator.table acc) A) as [m' |];
          [destruct (map_get m' t) |]; reflexivity.
    + destruct (String.eqb_spec sym A) as [<- | Hne]; simpl.
      * rewrite map_get_set_eq, Em. destruct (String.eqb_spec terminal t) as [<- | Hnt].
        -- rewrite map_get_set_eq, Et. reflexivity.
        -- rewrite map_get_set_neq by exact Hnt. destruct (map_get m t); reflexivity.
      * rewrite map_get_set_neq by exact Hne.
        destruct (map_get (LLGenerator.table acc) A) as [m' |];
          [destruct (map_get m' t) |]; reflexivity.
  - rewrite map_get_set_eq. simpl.
    destruct (String.eqb_spec sym A) as [<- | Hne]; simpl.
    + rewrite map_get_set_eq, Em. simpl.
      destruct (String.eqb terminal t); reflexivity.
    + rewrite !map_get_set_neq by exact Hne.
      destruct (map_get (LLGenerator.table acc) A) as [m' |];
        [destruct (map_get m' t) |]; reflexivity.
Qed.

Lemma enter_all_entry (p : nat) (sym : string) (l : list string) :
  forall acc A t,
    LLGenerator.entry (LLGenerator.table (fold_left (LLGenerator.enter p sym) l acc)) A t
    = match LLGenerator.entry (LLGenerator.table acc) A t with
      | Some e => Some e
      | None => if String.eqb sym A && set_has l t then Some p else None
      end.
Proof.
  induction l as [| x l IH]; intros acc A t; simpl.
  - rewrite andb_false_r. destruct (LLGenerator.entry (LLGenerator.table acc) A t); reflexivity.
  - rewrite IH, enter_entry.
    destruct (LLGenerator.entry (LLGenerator.table acc) A t); [reflexivity |].
    unfold set_has. simpl. fold (set_has l t). rewrite (String.eqb_sym t x).
    destruct (String.eqb sym A); simpl; [| reflexivity].
    destruct (String.eqb x t); reflexivity.
Qed.

Lemma enter_resolutions (p : nat) (sym : string) (acc : LLGenerator.Predictive)
  (terminal : string) :
  (LLGenerator.resolutions (LLGenerator.enter p sym acc terminal)
   = LLGenerator.resolutions acc
   /\ LLGenerator.conflicts (LLGenerator.enter p sym acc terminal) = LLGenerator.conflicts acc)
  \/ (LLGenerator.resolutions (LLGenerator.enter p sym acc terminal)
      = LLGenerator.resolutions acc ++ [(sym, terminal, p)]
      /\ LLGenerator.conflicts (LLGenerator.enter p sym acc terminal)
         = S (LLGenerator.conflicts acc)
      /\ LLGenerator.entry (LLGenerator.table acc) sym terminal <> None).
Proof.
  unfold LLGenerator.enter, LLGenerator.entry.
  destruct (map_get (LLGenerator.table acc) sym) as [m |] eqn:Em.
  - rewrite Em. destruct (map_get m terminal) as [existing |] eqn:Et; simpl; auto.
    right. repeat split; auto. discriminate.
  - rewrite map_get_set_eq. simpl. auto.
Qed.

Lemma enter_keeps (p : nat) (sym : string) (acc : LLGenerator.Predictive) (terminal : string) :
  (LLGenerator.conflicts acc = List.length (LLGenerator.resolutions acc)
   /\ forall A t q, In (A, t, q) (LLGenerator.resolutions acc) ->
                    LLGenerator.entry (LLGenerator.table acc) A t <> None) ->
  LLGenerator.conflicts (LLGenerator.enter p sym acc terminal)
  = List.length (LLGenerator.resolutions (LLGenerator.enter p sym acc terminal))
  /\ forall A t q,
       In (A, t, q) (LLGenerator.resolutions (LLGenerator.enter p sym acc terminal)) ->
       LLGenerator.entry (LLGenerator.table (LLGenerator.enter p sym acc terminal)) A t <> None.
Proof.
  intros (Hc & Ho).
  assert (Hkeep : forall A t,
             LLGenerator.entry (LLGenerator.table acc) A t <> None ->
             LLGenerator.entry (LLGenerator.table (LLGenerator.enter p sym acc terminal)) A t
             <> None).
  { intros A t Hn. rewrite enter_entry.
    destruct (LLGenerator.entry (LLGenerator.table acc) A t); [discriminate | contradiction]. }
  destruct (enter_resolutions p sym acc terminal) as [(Hr & Hk) | (Hr & Hk & Hocc)];
    rewrite Hr, Hk.
  - split; [exact Hc |]. intros A t q Hin. apply Hkeep. exact (Ho A t q Hin).
  - split; [rewrite length_app; simpl; lia |].
    intros A t q Hin. apply Hkeep. apply in_app_iff in Hin.
    destruct Hin as [Hin | [E | []]]; [exact (Ho A t q Hin) |].
    inversion E; subst. exact Hocc.
Qed.

Lemma enter_productions_entry (this : LLGenerator.This) (l : list (nat * GProduction)) :
  forall acc r A t,
    foldM (LLGenerator.enter_production this) l acc = Ok r ->
    LLGenerator.entry (LLGenerator.table r) A t
    = match LLGenerator.entry (LLGenerator.table acc) A t with
      | Some e => Some e
      | None => first_predicting this A t l
      end.
Proof.
  induction l as [| ip l IH]; intros acc r A t H; simpl in H.
  - inversion H; subst.
    destruct (LLGenerator.entry (LLGenerator.table r) A t); reflexivity.
  - unfold LLGenerator.enter_production at 1 in H.
    unfold first_predicting. simpl. unfold predicts at 1.
    destruct (LLGenerator.nmap_get (LLGenerator.predictSets this) (fst ip)) as [ps |];
      simpl in H; [| discriminate].
    rewrite (IH _ _ A t H), enter_all_entry.
    destruct (LLGenerator.entry (LLGenerator.table acc) A t); [reflexivity |].
    destruct (String.eqb (g_symbol (snd ip)) A && set_has ps t); reflexivity.
Qed.

Lemma enter_records (p : nat) (sym : string) (acc : LLGenerator.Predictive)
  (terminal : string) :
  LLGenerator.entry (LLGenerator.table acc) sym terminal <> None ->
  LLGenerator.resolutions (LLGenerator.enter p sym acc terminal)
  = LLGenerator.resolutions acc ++ [(sym, terminal, p)]
  /\ LLGenerator.conflicts (LLGenerator.enter p sym acc terminal)
     = S (LLGenerator.conflicts acc).
Proof.
  unfold LLGenerator.enter, LLGenerator.entry.
  destruct (map_get (LLGenerator.table acc) sym) as [m |] eqn:Em; [| contradiction].
  rewrite Em. destruct (map_get m terminal) as [existing |] eqn:Et; [| contradiction].
  simpl. auto.
Qed.

Lemma enter_grows (p : nat) (sym : string) (acc : LLGenerator.Predictive)
  (terminal : string) (x : string * string * nat) :
  In x (LLGenerator.resolutions acc) ->
  In x (LLGenerator.resolutions (LLGenerator.enter p sym acc terminal)).
Proof.
  intros Hx. destruct (enter_resolutions p sym acc terminal) as [(Hr & _) | (Hr & _)];
    rewrite Hr; [exact Hx | apply in_or_app; auto].
Qed.

Lemma enter_all_grows (p : nat) (sym : string) (l : list string)
  (x : string * string * nat) :
  forall acc,
    In x (LLGenerator.resolutions acc) ->
    In x (LLGenerator.resolutions (fold_left (LLGenerator.enter p sym) l acc)).
Proof.
  induction l as [| t l IH]; intros acc Hx; simpl; [exact Hx |].
  apply IH. apply enter_grows. exact Hx.
Qed.

Lemma enter_productions_grow (this : LLGenerator.This) (l : list (nat * GProduction))
  (x : string * string * nat) :
  forall acc r,
    foldM (LLGenerator.enter_production this) l acc = Ok r ->
    In x (LLGenerator.resolutions acc) -> In x (LLGenerator.resolutions r).
Proof.
  induction l as [| ip l IH]; intros acc r H Hx; simpl in H.
  - inversion H; subst. exact Hx.
  - unfold LLGenerator.enter_production at 1 in H.
    destruct (LLGenerator.nmap_get (LLGenerator.predictSets this) (fst ip)) as [ps |];
      simpl in H; [| discriminate].
    apply (IH _ _ H). apply enter_all_grows. exact Hx.
Qed.

(** A terminal of the predict set whose cell is taken is recorded. *)
Lemma enter_all_records (p : nat) (sym : string) (t : string) (l : list string) :
  forall acc,
    LLGenerator.entry (LLGenerator.table acc) sym t <> None ->
    In t l ->
    In (sym, t, p) (LLGenerator.resolutions (fold_left (LLGenerator.enter p sym) l acc)).
Proof.
  induction l as [| x l IH]; intros acc Hocc Hin; simpl in *; [contradiction |].
  destruct Hin as [-> | Hin].
  - apply enter_all_grows. rewrite (proj1 (enter_records p sym acc t Hocc)).
    apply in_or_app. right. left. reflexivity.
  - apply IH; [| exact Hin]. rewrite enter_entry.
    destruct (LLGenerator.entry (LLGenerator.table acc) sym t); [discriminate | contradiction].
Qed.

(** What a production adds to the resolutions names the production and a
    terminal of its predict set. *)
Lemma enter_all_sound (p : nat) (sym : string) (Q : string * string * nat -> Prop)
  (l : list string) :
  (forall t, In t l -> Q (sym, t, p)) ->
  forall acc,
    (forall x, In x (LLGenerator.resolutions acc) -> Q x) ->
    forall x, In x (LLGenerator.resolutions (fold_left (LLGenerator.enter p sym) l acc)) ->
              Q x.
Proof.
  induction l as [| t l IH]; intros Hl acc Hacc x Hx; simpl in Hx; [exact (Hacc x Hx) |].
  apply (IH (fun t0 Ht0 => Hl t0 (or_intror Ht0)) (LLGenerator.enter p sym acc t)); [| exact Hx].
  intros y Hy.
  destruct (enter_resolutions p sym acc t) as [(Hr & _) | (Hr & _)]; rewrite Hr in Hy.
  - exact (Hacc y Hy).
  - apply in_app_iff in Hy. destruct Hy as [Hy | [<- | []]]; [exact (Hacc y Hy) |].
    apply Hl. left. reflexivity.
Qed.

Lemma foldM_app {A S : Type} (f : S -> A -> outcome S) (l1 l2 : list A) :
  forall s, foldM f (l1 ++ l2) s = (s1 <- foldM f l1 s ;; foldM f l2 s1).
Proof.
  induction l1 as [| x l1 IH]; intros s; simpl; [reflexivity |].
  destruct (f s x) as [s' | e |]; simpl; auto.
Qed.

Lemma find_in_app {A : Type} (f : A -> bool) (l1 l2 : list A) :
  find f (l1 ++ l2) = match find f l1 with
                      | Some x => Some x
                      | None => find f l2
                      end.
Proof.
  induction l1 as [| x l1 IH]; simpl; [reflexivity |].
  destruct (f x); auto.
Qed.

(** X25.  The table [buildParseTable()] of LLGenerator returns holds, for a
    symbol and a terminal, the first production of the symbol whose predict
    set has the terminal, and no other.  A production of the symbol that
    predicts the terminal and is not that first one does not replace it: it
    is recorded in [this.resolutions] under the symbol and the terminal, and
    counted in [this.conflicts], which is the number of the resolutions.
    Nothing else is recorded: every resolution names a symbol, a terminal
    and a production of the symbol that predicts the terminal, and its cell
    is taken. *)
Theorem ll_table_keeps_first_production (this : LLGenerator.This) (r : LLGenerator.Predictive) :
  LLGenerator.buildParseTable this = Ok r ->
  (forall A t,
      LLGenerator.entry (LLGenerator.table r) A t
      = first_predicting this A t (indexed (LLGenerator.productions this)))
  /\ (forall p prod t q,
        nth_error (LLGenerator.productions this) p = Some prod ->
        predicts this (g_symbol prod) t (p, prod) = true ->
        first_predicting this (g_symbol prod) t (indexed (LLGenerator.productions this))
        = Some q ->
        q <> p ->
        In (g_symbol prod, t, p) (LLGenerator.resolutions r))
  /\ LLGenerator.conflicts r = List.length (LLGenerator.resolutions r)
  /\ (forall A t p,
        In (A, t, p) (LLGenerator.resolutions r) ->
        LLGenerator.entry (LLGenerator.table r) A t <> None
        /\ exists prod, nth_error (LLGenerator.productions this) p = Some prod
                        /\ g_symbol prod = A
                        /\ predicts this A t (p, prod) = true).
Proof.
  unfold LLGenerator.buildParseTable. intros H.
  assert (Hinv : LLGenerator.conflicts r = List.length (LLGenerator.resolutions r)
                 /\ forall A t q,
                      In (A, t, q) (LLGenerator.resolutions r) ->
                      LLGenerator.entry (LLGenerator.table r) A t <> None).
  { apply (foldM_invariant
             (fun acc => LLGenerator.conflicts acc = List.length (LLGenerator.resolutions acc)
                         /\ forall A t q,
                              In (A, t, q) (LLGenerator.resolutions acc) ->
                              LLGenerator.entry (LLGenerator.table acc) A t <> None)
             (LLGenerator.enter_production this)
             (indexed (LLGenerator.productions this)))
      with (2 := conj eq_refl (fun A t q (Hin : In (A, t, q) []) => False_ind _ Hin))
           (3 := H).
    intros s ip s' Hs Hx. unfold LLGenerator.enter_production in Hx.
    destruct (LLGenerator.nmap_get (LLGenerator.predictSets this) (fst ip)) as [ps |];
      [| discriminate].
    inversion Hx; subst s'.
    apply fold_left_invariant; [| exact Hs].
    intros s0 x. apply enter_keeps. }
  assert (Hsound : forall x,
             In x (LLGenerator.resolutions r) ->
             exists prod, nth_error (LLGenerator.productions this) (snd x) = Some prod
                          /\ g_symbol prod = fst (fst x)
                          /\ predicts this (fst (fst x)) (snd (fst x)) (snd x, prod) = true).
  { apply (foldM_invariant_in
             (fun acc => forall x,
                  In x (LLGenerator.resolutions acc) ->
                  exists prod, nth_error (LLGenerator.productions this) (snd x) = Some prod
                               /\ g_symbol prod = fst (fst x)
                               /\ predicts this (fst (fst x)) (snd (fst x)) (snd x, prod)
                                  = true)
             (LLGenerator.enter_production this)
             (indexed (LLGenerator.productions this)))
      with (3 := H); [| intros x []].
    intros s [p prod] s' Hip Hs Hx. unfold LLGenerator.enter_production in Hx. simpl in Hx.
    destruct (LLGenerator.nmap_get (LLGenerator.predictSets this) p) as [ps |] eqn:Eps;
      [| discriminate].
    inversion Hx; subst s'; clear Hx.
    apply (enter_all_sound p (g_symbol prod) _ ps); [| exact Hs].
    intros t Ht. exists prod. simpl. apply indexed_In in Hip.
    split; [exact Hip | split; [reflexivity |]].
    unfold predicts. simpl. rewrite String.eqb_refl, Eps. simpl.
    apply set_has_In. exact Ht. }
  split; [| split; [| split]].
  - intros A t. rewrite (enter_productions_entry _ _ _ _ A t H). reflexivity.
  - intros p prod t q Hp Hpred Hfirst Hq.
    apply indexed_In in Hp. destruct (in_split _ _ Hp) as (l1 & l2 & Hsplit).
    rewrite Hsplit in H, Hfirst.
    rewrite foldM_app in H.
    destruct (foldM (LLGenerator.enter_production this) l1 (LLGenerator.mkPredictive [] 0 []))
      as [acc1 | e |] eqn:E1; simpl in H; try discriminate.
    unfold LLGenerator.enter_production at 1 in H. simpl in H.
    assert (Hps : exists ps, LLGenerator.nmap_get (LLGenerator.predictSets this) p = Some ps
                             /\ In t ps).
    { unfold predicts in Hpred. simpl in Hpred. apply andb_true_iff in Hpred.
      destruct Hpred as (_ & Hpred).
      destruct (LLGenerator.nmap_get (LLGenerator.predictSets this) p) as [ps |];
        [| discriminate].
      exists ps. split; [reflexivity | apply set_has_In; exact Hpred]. }
    destruct Hps as (ps & Eps & Hin). rewrite Eps in H. simpl in H.
    apply (enter_productions_grow this l2 _ _ _ H).
    apply enter_all_records; [| exact Hin].
    rewrite (enter_productions_entry _ _ _ _ (g_symbol prod) t E1). simpl.
    unfold first_predicting in *. rewrite find_in_app in Hfirst.
    destruct (find (predicts this (g_symbol prod) t) l1) as [ip |]; [discriminate |].
    simpl in Hfirst. rewrite Hpred in Hfirst. simpl in Hfirst.
    inversion Hfirst. congruence.
  - exact (proj1 Hinv).
  - intros A t p Hin. split; [exact (proj2 Hinv A t p Hin) |].
    exact (Hsound (A, t, p) Hin).
Qed.

(** Witness of [ll_table_keeps_first_production]: two productions of [A]
    that predict [a]; the second is recorded. *)
Lemma ll_table_keeps_first_production_witness :
  In ("A", "a", 1%nat) (LLGenerator.resolutions ll_table).
Proof.
  apply (proj1 (proj2 (ll_table_keeps_first_production ll_this ll_table eq_refl))
           1%nat (mkGProduction "A" ["a"; "b"]) "a" 0%nat);
    try reflexivity.
  discriminate.
Defined.

(** *** The FIRST sets of SLRGenerator *)

Lemma fold_set_add_same (news old : list string) :
  forallb (set_has old) news = true -> fold_left set_add news old = old.
Proof.
  induction news as [| x news IH]; simpl; [reflexivity |].
  intros H. apply andb_true_iff in H. destruct H as (Hx & Hn).
  unfold set_add at 2. rewrite Hx. exact (IH Hn).
Qed.

Lemma map_set_same {A : Type} (m : list (string * A)) (k : string) (v : A) :
  map_get m k = Some v -> map_set m k v = m.
Proof.
  induction m as [| [k' v'] m IH]; simpl; [discriminate |].
  destruct (String.eqb_spec k' k) as [-> | Hne].
  - intros H; inversion H; subst. reflexivity.
  - intros H. rewrite (IH H). reflexivity.
Qed.

Lemma add_all_unchanged (m m' : SetMap) (key : string) (news : list string) :
  SLRGenerator.add_all m key news = Ok (m', false) ->
  m' = m /\ forall s, In s news -> exists old, map_get m key = Some old /\ In s old.
Proof.
  unfold SLRGenerator.add_all. destruct news as [| n news].
  - intros H; inversion H; subst. split; [reflexivity | intros s []].
  - destruct (map_get m key) as [old |] eqn:E; [| discriminate].
    intros H. injection H as Hm Hb. apply negb_false_iff in Hb.
    change (forallb (set_has old) (n :: news) = true) in Hb.
    change (map_set m key (fold_left set_add (n :: news) old) = m') in Hm.
    rewrite (fold_set_add_same _ _ Hb), (map_set_same _ _ _ E) in Hm.
    split; [symmetry; exact Hm |].
    intros s Hs. exists old. split; [reflexivity |].
    rewrite forallb_forall in Hb. apply set_has_In. exact (Hb s Hs).
Qed.

Lemma first_pass_flag (ps : list Production) :
  forall fs r,
    foldM (fun acc p =>
             d <- SLRGenerator.destructure (Some p) ;;
             r <- SLRGenerator.add_all (fst acc) (fst d)
                    (SLRGenerator.computeProductionFirst (fst acc) (snd d)) ;;
             Ok (fst r, snd acc || snd r))
          ps (fs, true) = Ok r ->
    snd r = true.
Proof.
  intros fs r H.
  apply (foldM_invariant (fun acc : SetMap * bool => snd acc = true) _ ps)
    with (2 := eq_refl) (3 := H).
  intros s x s' Hs Hx.
  destruct (SLRGenerator.destructure (Some x)) as [d | e |]; simpl in Hx; try discriminate.
  destruct (SLRGenerator.add_all (fst s) (fst d)
              (SLRGenerator.computeProductionFirst (fst s) (snd d))) as [r0 | e |];
    simpl in Hx; try discriminate.
  inversion Hx; subst. simpl. rewrite Hs. reflexivity.
Qed.

Lemma first_pass_fix (ps : list Production) :
  forall fs fs',
    SLRGenerator.first_pass ps fs = Ok (fs', false) ->
    fs' = fs
    /\ forall lhs rhs,
         In (PPair lhs rhs) ps ->
         forall s, In s (SLRGenerator.computeProductionFirst fs rhs) ->
                   exists old, map_get fs lhs = Some old /\ In s old.
Proof.
  unfold SLRGenerator.first_pass.
  induction ps as [| p ps IH]; intros fs fs' H; simpl in H.
  - inversion H; subst. split; [reflexivity | intros lhs rhs []].
  - destruct p as [lhs0 rhs0 | sy h]; simpl in H; [| discriminate].
    destruct (SLRGenerator.add_all fs lhs0 (SLRGenerator.computeProductionFirst fs rhs0))
      as [[m b] | e |] eqn:Ea; simpl in H; try discriminate.
    destruct b.
    + apply first_pass_flag in H. discriminate.
    + destruct (add_all_unchanged _ _ _ _ Ea) as (-> & Hin).
      destruct (IH _ _ H) as (-> & Hrest). split; [reflexivity |].
      intros lhs rhs [E | Hp].
      * inversion E; subst. exact Hin.
      * exact (Hrest lhs rhs Hp).
Qed.

Lemma first_loop_fix (ps : list Production) (fuel : nat) :
  forall fs fs',
    SLRGenerator.first_loop fuel ps fs = Ok fs' ->
    SLRGenerator.first_pass ps fs' = Ok (fs', false).
Proof.
  induction fuel as [| fuel IH]; intros fs fs' H; simpl in H; [discriminate |].
  destruct (SLRGenerator.first_pass ps fs) as [[m b] | e |] eqn:E; simpl in H;
    try discriminate.
  destruct b.
  - exact (IH _ _ H).
  - inversion H; subst m. destruct (first_pass_fix _ _ _ E) as (-> & _). exact E.
Qed.

(** X26.  The FIRST sets [computeFirstSets()] of SLRGenerator leaves are closed
    under the productions: whatever may begin the right-hand side of a
    production, by the sets themselves, is in the set of its left-hand
    side.  The productions are left as they were. *)
Theorem first_sets_are_closed (fuel : nat) (this this' : Base) :
  SLRGenerator.computeFirstSets fuel this = Ok this' ->
  productions this' = productions this
  /\ forall lhs rhs,
       In (PPair lhs rhs) (productions this) ->
       forall s, In s (SLRGenerator.computeProductionFirst (firstSets this') rhs) ->
                 exists set, map_get (firstSets this') lhs = Some set /\ In s set.
Proof.
  unfold SLRGenerator.computeFirstSets. intros H.
  destruct (nt_members (nonterminals this)) as [nts | e |]; simpl in H; try discriminate.
  match type of H with
  | context [SLRGenerator.first_loop fuel ?ps ?fs] =>
      destruct (SLRGenerator.first_loop fuel ps fs) as [fs3 | e |] eqn:E
  end; simpl in H; try discriminate.
  inversion H; subst this'; clear H. simpl. split; [reflexivity |].
  apply first_loop_fix in E. apply first_pass_fix in E. exact (proj2 E).
Qed.

(** Witness of [first_sets_are_closed]: [a] begins [S] in [S -> a]. *)
Lemma first_sets_are_closed_witness :
  exists set, map_get (firstSets first_S_a) "S" = Some set /\ In "a" set.
Proof.
  apply (proj2 (first_sets_are_closed 3 processed_S_a first_S_a eq_refl) "S" ["a"]).
  - simpl. auto.
  - simpl. auto.
Defined.

End GeneratorMore.

(* ===================================================================== *)
(** ** Further facts about the factory *)
(* ===================================================================== *)

Module FactoryMore.
Import Factory.

(** X27.  What [createGenerator(type, grammar, options)] can do.  Each of
    the five names lr0, slr, lalr, lr1 and ll selects its own class; a
    missing type and every other name that no object inherits select
    LALRGenerator; "constructor" gives the grammar itself; every other
    inherited name raises a [TypeError].  There is no other outcome: an
    instance is always over the grammar and the options given, and its
    class is the one the type names or else LALRGenerator.  [Jison] asks
    for "lalr" when [options.type] is missing or empty, and for
    [options.type] otherwise. *)
Theorem createGenerator_outcomes {G O : Type} (type : option string) (grammar : G)
  (options : O) :
  createGenerator (Some "lr0") grammar options = Ok (Instance LR0Generator grammar options)
  /\ createGenerator (Some "slr") grammar options = Ok (Instance SLRGenerator grammar options)
  /\ createGenerator (Some "lalr") grammar options
     = Ok (Instance LALRGenerator grammar options)
  /\ createGenerator (Some "lr1") grammar options = Ok (Instance LR1Generator grammar options)
  /\ createGenerator (Some "ll") grammar options = Ok (Instance LLGenerator grammar options)
  /\ createGenerator (Some "constructor") grammar options = Ok (GrammarItself grammar)
  /\ (type = None \/ (exists t, type = Some t /\ ~ In t known_types /\ inherited t = false) ->
      createGenerator type grammar options = Ok (Instance LALRGenerator grammar options))
  /\ (forall t, type = Some t -> inherited t = true -> t <> "constructor" ->
                exists msg, createGenerator type grammar options = Throw (TypeError msg))
  /\ (forall c g o,
        createGenerator type grammar options = Ok (Instance c g o) ->
        g = grammar /\ o = options
        /\ ((type = Some "lr0" /\ c = LR0Generator)
            \/ (type = Some "slr" /\ c = SLRGenerator)
            \/ (type = Some "lr1" /\ c = LR1Generator)
            \/ (type = Some "ll" /\ c = LLGenerator)
            \/ (c = LALRGenerator
                /\ (type = None \/ type = Some "lalr"
                    \/ exists t, type = Some t /\ ~ In t known_types
                                 /\ inherited t = false))))
  /\ (forall g,
        createGenerator type grammar options = Ok (GrammarItself g) ->
        type = Some "constructor" /\ g = grammar)
  /\ (forall e,
        createGenerator type grammar options = Throw e ->
        exists t msg, type = Some t /\ inherited t = true /\ t <> "constructor"
                      /\ e = TypeError msg)
  /\ createGenerator type grammar options <> OutOfFuel
  /\ (type = None \/ type = Some "" ->
      Jison_generator grammar type options = Ok (Instance LALRGenerator grammar options))
  /\ (forall t, type = Some t -> t <> "" ->
                Jison_generator grammar type options = createGenerator type grammar options).
Proof.
  assert (Hj : forall t, t <> "" ->
                         Jison_generator grammar (Some t) options
                         = createGenerator (Some t) grammar options).
  { intros t Ht. unfold Jison_generator.
    destruct (String.eqb_spec t ""); [contradiction | reflexivity]. }
  assert (Hd : type = None \/ type = Some "" ->
               Jison_generator grammar type options
               = Ok (Instance LALRGenerator grammar options)).
  { intros [-> | ->]; reflexivity. }
  assert (Hfall : type = None
                  \/ (exists t, type = Some t /\ ~ In t known_types /\ inherited t = false) ->
                  createGenerator type grammar options
                  = Ok (Instance LALRGenerator grammar options)).
  { intros H. apply FactoryFacts.unknown_type_falls_back.
    intros t Ht. destruct H as [-> | (t0 & -> & Hk & Hi)]; [discriminate |].
    inversion Ht; subst. auto. }
  assert (Hthrow : forall t, type = Some t -> inherited t = true -> t <> "constructor" ->
                             exists msg, createGenerator type grammar options
                                         = Throw (TypeError msg)).
  { intros t -> Hi Hc. unfold createGenerator, generatorMap.
    repeat match goal with
           | |- context [String.eqb t ?s] =>
               destruct (String.eqb_spec t s) as [-> | ?]; try discriminate Hi
           end; try contradiction.
    - eexists; reflexivity.
    - rewrite Hi. eexists; reflexivity. }
  refine (conj eq_refl (conj eq_refl (conj eq_refl (conj eq_refl (conj eq_refl
            (conj eq_refl (conj Hfall (conj Hthrow (conj _ (conj _ (conj _ (conj _
            (conj Hd _))))))))))))).
  5:{ intros t -> Ht. apply Hj. exact Ht. }
  all: destruct type as [t |];
    [| unfold createGenerator; simpl; try discriminate;
       try solve [intros c g o H; inversion H; subst;
                  split; [reflexivity | split; [reflexivity |]];
                  right; right; right; right; split; [reflexivity | left; reflexivity]];
       try solve [intros g H; inversion H]; try solve [intros e H; inversion H]].
  all: unfold createGenerator, generatorMap, known_types.
  all: repeat match goal with
         | |- context [String.eqb ?x ?s] =>
             is_var x; destruct (String.eqb_spec x s) as [-> | ?]
         end.
  all: try match goal with
         | |- context [inherited ?x] => destruct (inherited x) eqn:Hi
         end.
  all: try discriminate.
  all: try solve [intros c g o H; inversion H; subst;
                  split; [reflexivity | split; [reflexivity |]];
                  first [ left; split; reflexivity
                        | right; left; split; reflexivity
                        | right; right; left; split; reflexivity
                        | right; right; right; left; split; reflexivity
                        | right; right; right; right; split;
                          [reflexivity | right; left; reflexivity]
                        | right; right; right; right; split;
                          [reflexivity
                          | right; right; eexists; split; [reflexivity |];
                            split; [simpl; intuition congruence | assumption]] ]].
  all: try solve [intros g H; inversion H; subst; auto].
  all: try solve [intros e H; inversion H; subst; eexists; eexists;
                  repeat split; try reflexivity; auto; discriminate].
Qed.

(** Witness of [createGenerator_outcomes]: the type "toString". *)
Lemma createGenerator_outcomes_witness :
  exists msg, createGenerator (Some "toString") "grammar" tt = Throw (TypeError msg).
Proof.
  apply (proj1 (proj2 (proj2 (proj2 (proj2 (proj2 (proj2 (proj2
           (createGenerator_outcomes (Some "toString") "grammar" tt))))))))
           "toString" eq_refl eq_refl).
  discriminate.
Defined.

End FactoryMore.

(* ===================================================================== *)
(** ** The action table: shifts, reduces and conflicts *)
(* ===================================================================== *)

Module TableClaims.
Import Gen.
Import GenLemmas.
Import Notions.
Import GenNotions.
Import Examples.
Import GenExamples.
Import GeneratorMore.



Section Cell.

Variable ps : list Production.
Variable i : nat.
Variable item : Item.
















End Cell.

Section Items.

Variable ps : list Production.
Variable f : nat -> Building -> Item -> outcome Building.
Variable complete : Item -> Prop.

Hypothesis f_reads :
  forall i b item b',
    f i b item = Ok b' ->
    (complete item /\ b' = fold_left (reduce_on ps i item) (lookahead item) b)
    \/ (~ complete item /\ b' = b).

Hypothesis complete_is_known :
  forall item, complete item -> (production item < List.length ps)%nat.

Variable i : nat.











End Items.

Section Table.

Variable T : Type.
Variable ps : list Production.
Variable sr : State T -> outcome Row.
Variable first_row : State T -> Row.
Variable f : nat -> Building -> Item -> outcome Building.
Variable complete : Item -> Prop.

Hypothesis sr_is_first_row : forall st r, sr st = Ok r -> r = first_row st.

Hypothesis f_reads :
  forall i b item b',
    f i b item = Ok b' ->
    (complete item /\ b' = fold_left (reduce_on ps i item) (lookahead item) b)
    \/ (~ complete item /\ b' = b).

Hypothesis complete_is_known :
  forall item, complete item -> (production item < List.length ps)%nat.







End Table.















(** The item [S -> a .] under the lookahead [x]: SLRGenerator enters its
    Reduce; LALRGenerator, for which the dot would have to be at 2, leaves
    the row empty; with the dot at 2 it enters the Reduce. *)
Lemma lalr_reads_the_pair_length :
  SLRGenerator.parseTable slr_this [mkState [mkItem 0 1 ["x"]] None]
  = Ok (mkTables [[("x", mkAction ParserActions.REDUCE 0)]] 0 [])
  /\ LALRGenerator.parseTable [PPair "S" ["a"]] [mkState [mkItem 0 1 ["x"]] None]
     = Ok (mkTables [[]] 0 [])
  /\ LALRGenerator.parseTable [PPair "S" ["a"]] [mkState [mkItem 0 2 ["x"]] None]
     = Ok (mkTables [[("x", mkAction ParserActions.REDUCE 0)]] 0 []).
Proof.
  repeat split.
Qed.





End TableClaims.

(* ===================================================================== *)
(** ** Merging the states of LALRGenerator *)
(* ===================================================================== *)

Module MergeClaims.
Import Gen.
Import GenLemmas.
Import LALRGenerator.
Import Notions.
Import Examples.
Import MergeFacts.
Import GeneratorMore.









End MergeClaims.
